(** * A WhatsApp-to-HTTP bridge: model and verified properties

    The program under study is a small Go service.  It receives chat
    messages through the whatsmeow client library, stores attached media on
    disk, appends one CSV row per message to messages.csv, keeps the login
    code in qrcode.txt and serves four HTTP endpoints.  The repository holds
    the current client.go and earlier revisions of it; the revision that
    logs four columns is modelled in [Earlier], the first revision, which
    keeps no log, in [Earliest].

    The development is a shallow embedding.  Go functions become functions
    in a state monad over an explicit [World] (files, log output, calls that
    leave the process).  What the program cannot decide itself (whether a
    download succeeds, whether a file can be opened) is read from an [Env]
    value, one per invocation.  The library routines the program relies on
    (encoding/csv, time.Format, types.JID, the binding of gin) are modelled
    from their documented behaviour; the QR and PNG encoders, the verb %f
    and the clock are parameters. *)

From Stdlib Require Import ZArith String Ascii Lia.
From stdpp Require Import base strings gmap list pretty.

Open Scope string_scope.
Open Scope list_scope.

(** ** Bytes that cannot be written inside a string literal *)

Definition LF : ascii := "010"%char.
Definition CR : ascii := "013"%char.
Definition dquote : ascii := "034"%char.
Definition comma : ascii := ","%char.

Definition nl : string := String LF "".
Definition quote : string := String dquote "".

(** ** Go values shared by all components *)

Definition error := string.

Inductive result (A : Type) : Type :=
| Ok (a : A)
| Err (e : error).
Arguments Ok {A} a.
Arguments Err {A} e.

(** ** fmt and time *)

Module fmt.

(** [%d] applied to an integer. *)
Definition sprintf_d (n : Z) : string := pretty n.

Fixpoint zeros (n : nat) : string :=
  match n with
  | O => ""
  | S n' => String "0" (zeros n')
  end.

(** Left-pad a digit string with zeros up to [width]. *)
Definition zeroPad (width : nat) (digits : string) : string :=
  zeros (width - String.length digits) +:+ digits.

End fmt.

Module time.

(** A [time.Time] seen through the accessors the program uses: the
    nanosecond count of [UnixNano] and the calendar fields [Format] prints.
    [ZoneOffset] is in seconds east of UTC. *)
Record Time : Type := mkTime {
  UnixNano : Z;
  Year : Z;
  Month : Z;
  Day : Z;
  Hour : Z;
  Minute : Z;
  Second : Z;
  ZoneOffset : Z
}.

(** time.appendInt: sign, then the digits padded with zeros. *)
Definition appendInt (x : Z) (width : nat) : string :=
  if (x <? 0)%Z
  then "-" +:+ fmt.zeroPad width (pretty (- x)%Z)
  else fmt.zeroPad width (pretty x).

(** The [Z07:00] element of the layout. *)
Definition formatZone (offset : Z) : string :=
  if (offset =? 0)%Z then "Z"
  else
    let zone := (offset `quot` 60)%Z in
    let sign := if (zone <? 0)%Z then "-" else "+" in
    let zone := Z.abs zone in
    sign +:+ appendInt (zone `quot` 60)%Z 2 +:+ ":" +:+ appendInt (zone `rem` 60)%Z 2.

(** [t.Format(time.RFC3339)], layout 2006-01-02T15:04:05Z07:00. *)
Definition Format_RFC3339 (t : Time) : string :=
  appendInt (Year t) 4 +:+ "-" +:+ appendInt (Month t) 2 +:+ "-" +:+
  appendInt (Day t) 2 +:+ "T" +:+
  appendInt (Hour t) 2 +:+ ":" +:+ appendInt (Minute t) 2 +:+ ":" +:+
  appendInt (Second t) 2 +:+ formatZone (ZoneOffset t).

End time.

(** ** encoding/csv with its default settings

    The program uses [csv.NewWriter] and [csv.NewReader] unchanged: comma as
    separator, no CRLF on output, no lazy quotes, no comment character, no
    trimming, and a field count fixed by the first record. *)

Module csv.

(** *** Writer *)

Definition isSpecial (c : ascii) : bool :=
  (c =? LF)%char || (c =? CR)%char || (c =? dquote)%char || (c =? comma)%char.

Fixpoint containsSpecial (field : string) : bool :=
  match field with
  | "" => false
  | String c rest => isSpecial c || containsSpecial rest
  end.

(** [unicode.IsSpace] of the first rune of the field, on its UTF-8 bytes:
    the six ASCII spaces, U+0085, U+00A0, U+1680, U+2000..U+200A, U+2028,
    U+2029, U+202F, U+205F and U+3000. *)
Definition startsWithSpace (field : string) : bool :=
  match field with
  | "" => false
  | String c rest =>
      let n := nat_of_ascii c in
      if ((9 <=? n) && (n <=? 13) || (n =? 32))%nat then true
      else match rest with
        | "" => false
        | String c1 rest1 =>
            let n1 := nat_of_ascii c1 in
            if (n =? 194)%nat then ((n1 =? 133) || (n1 =? 160))%nat
            else match rest1 with
              | "" => false
              | String c2 _ =>
                  let n2 := nat_of_ascii c2 in
                  if (n =? 225)%nat then ((n1 =? 154) && (n2 =? 128))%nat
                  else if (n =? 226)%nat then
                    ((n1 =? 128) && ((128 <=? n2) && (n2 <=? 138) ||
                                     (n2 =? 168) || (n2 =? 169) || (n2 =? 175))
                     || (n1 =? 129) && (n2 =? 159))%nat
                  else if (n =? 227)%nat then ((n1 =? 128) && (n2 =? 128))%nat
                  else false
              end
        end
  end.

(** Writer.fieldNeedsQuotes. *)
Definition fieldNeedsQuotes (field : string) : bool :=
  if decide (field = "") then false
  else if decide (field = "\.") then true
  else if containsSpecial field then true
  else startsWithSpace field.

(** The body of a quoted field: a quote is doubled, every other byte
    (carriage return and line feed included) is copied. *)
Fixpoint escapeQuotes (field : string) : string :=
  match field with
  | "" => ""
  | String c rest =>
      if (c =? dquote)%char
      then String dquote (String dquote (escapeQuotes rest))
      else String c (escapeQuotes rest)
  end.

Definition writeField (field : string) : string :=
  if fieldNeedsQuotes field
  then quote +:+ escapeQuotes field +:+ quote
  else field.

Fixpoint writeFields (record : list string) : string :=
  match record with
  | [] => ""
  | [field] => writeField field
  | field :: rest => writeField field +:+ "," +:+ writeFields rest
  end.

(** The bytes [Writer.Write] emits for one record. *)
Definition Write (record : list string) : string :=
  writeFields record +:+ nl.

(** *** Reader *)

(** What [Reader.readLine] does to the input, line by line, also inside
    quoted fields: a carriage return directly before a line feed is removed
    (the package documentation: carriage returns before newline characters
    are silently removed), and so is a carriage return that ends the
    input. *)
Fixpoint normalizeLines (input : string) : string :=
  match input with
  | "" => ""
  | String c rest =>
      if (c =? CR)%char then
        match rest with
        | "" => ""
        | String c' _ =>
            if (c' =? LF)%char then normalizeLines rest
            else String c (normalizeLines rest)
        end
      else String c (normalizeLines rest)
  end.

(** Where [Reader.readRecord] stands in the current record. *)
Inductive mode : Type :=
| RecordStart                (* about to read the first line of a record *)
| FieldStart                 (* just after a separator *)
| Unquoted (buf : string)    (* inside a field that did not open with a quote *)
| Quoted (buf : string)      (* inside a quoted field *)
| QuoteSeen (buf : string).  (* inside a quoted field, just after a quote *)

Definition push (buf : string) (c : ascii) : string := buf +:+ String c "".

(** [readRecord] repeated until the end of the input, byte by byte over
    the normalised lines; a line feed is the end of a line.  A line that is
    empty where a record would start is skipped.  [fields] holds the finished fields of the current record and
    [rows] the finished records.  [None] is a parse error (a bare quote in
    an unquoted field, or a quoted field that is closed wrongly or not at
    all). *)
Fixpoint readRecords (m : mode) (fields : list string)
    (rows : list (list string)) (input : string) : option (list (list string)) :=
  match input with
  | "" =>
      match m with
      | RecordStart => Some rows
      | FieldStart => Some (rows ++ [fields ++ [""]])
      | Unquoted buf => Some (rows ++ [fields ++ [buf]])
      | Quoted _ => None
      | QuoteSeen buf => Some (rows ++ [fields ++ [buf]])
      end
  | String c rest =>
      match m with
      | RecordStart =>
          if (c =? LF)%char then readRecords RecordStart [] rows rest
          else if (c =? dquote)%char then readRecords (Quoted "") [] rows rest
          else if (c =? comma)%char then readRecords FieldStart [""] rows rest
          else readRecords (Unquoted (String c "")) [] rows rest
      | FieldStart =>
          if (c =? LF)%char then readRecords RecordStart [] (rows ++ [fields ++ [""]]) rest
          else if (c =? dquote)%char then readRecords (Quoted "") fields rows rest
          else if (c =? comma)%char then readRecords FieldStart (fields ++ [""]) rows rest
          else readRecords (Unquoted (String c "")) fields rows rest
      | Unquoted buf =>
          if (c =? LF)%char then readRecords RecordStart [] (rows ++ [fields ++ [buf]]) rest
          else if (c =? dquote)%char then None
          else if (c =? comma)%char then readRecords FieldStart (fields ++ [buf]) rows rest
          else readRecords (Unquoted (push buf c)) fields rows rest
      | Quoted buf =>
          if (c =? dquote)%char then readRecords (QuoteSeen buf) fields rows rest
          else readRecords (Quoted (push buf c)) fields rows rest
      | QuoteSeen buf =>
          if (c =? dquote)%char then readRecords (Quoted (push buf dquote)) fields rows rest
          else if (c =? comma)%char then readRecords FieldStart (fields ++ [buf]) rows rest
          else if (c =? LF)%char then readRecords RecordStart [] (rows ++ [fields ++ [buf]]) rest
          else None
      end
  end.

(** With [FieldsPerRecord] left at zero the first record fixes the number
    of fields and every later record must have as many. *)
Definition fieldCountsAgree (rows : list (list string)) : bool :=
  match rows with
  | [] => true
  | first :: others =>
      forallb (fun row => (length row =? length first)%nat) others
  end.

(** [Reader.ReadAll]: all records, or [None] for any error. *)
Definition ReadAll (input : string) : option (list (list string)) :=
  match readRecords RecordStart [] [] (normalizeLines input) with
  | Some rows => if fieldCountsAgree rows then Some rows else None
  | None => None
  end.

End csv.

(** ** whatsmeow: identifiers and message payloads *)

Module types.

Record JID : Type := mkJID {
  User : string;
  RawAgent : Z;
  Device : Z;
  Integrator : Z;
  Server : string
}.

(** [types.NewJID(user, server)]. *)
Definition NewJID (user server : string) : JID :=
  {| User := user; RawAgent := 0; Device := 0; Integrator := 0; Server := server |}.

(** [jid.String()]. *)
Definition JID_String (jid : JID) : string :=
  if (0 <? RawAgent jid)%Z then
    User jid +:+ "." +:+ fmt.sprintf_d (RawAgent jid) +:+ ":" +:+
    fmt.sprintf_d (Device jid) +:+ "@" +:+ Server jid
  else if (0 <? Device jid)%Z then
    User jid +:+ ":" +:+ fmt.sprintf_d (Device jid) +:+ "@" +:+ Server jid
  else if (0 <? String.length (User jid))%nat then
    User jid +:+ "@" +:+ Server jid
  else Server jid.

End types.

Module waProto.

(** A [float64] is carried as its 64-bit IEEE pattern. *)
Definition float64 := Z.

(** Only the fields the program reads are kept, plus the media URL. *)
Record ExtendedTextMessage : Type := { Text : option string }.
Record ImageMessage : Type := { ImageURL : option string; ImageCaption : option string }.
Record VideoMessage : Type := { VideoURL : option string; VideoCaption : option string }.
Record DocumentMessage : Type := { DocumentURL : option string; FileName : option string }.
Record AudioMessage : Type := { AudioURL : option string }.
Record ContactMessage : Type := { DisplayName : option string }.
Record LocationMessage : Type := {
  DegreesLatitude : option float64;
  DegreesLongitude : option float64
}.

Record Message : Type := mkMessage {
  Conversation : option string;
  ExtendedTextMessage_ : option ExtendedTextMessage;
  ImageMessage_ : option ImageMessage;
  VideoMessage_ : option VideoMessage;
  DocumentMessage_ : option DocumentMessage;
  AudioMessage_ : option AudioMessage;
  ContactMessage_ : option ContactMessage;
  LocationMessage_ : option LocationMessage
}.

(** The generated getters accept a nil receiver and then return the zero
    value; a message pointer is an [option]. *)
Definition GetConversation (m : option Message) : string :=
  default "" (m ≫= Conversation).
Definition GetExtendedTextMessage (m : option Message) : option ExtendedTextMessage :=
  m ≫= ExtendedTextMessage_.
Definition GetImageMessage (m : option Message) : option ImageMessage :=
  m ≫= ImageMessage_.
Definition GetVideoMessage (m : option Message) : option VideoMessage :=
  m ≫= VideoMessage_.
Definition GetDocumentMessage (m : option Message) : option DocumentMessage :=
  m ≫= DocumentMessage_.
Definition GetAudioMessage (m : option Message) : option AudioMessage :=
  m ≫= AudioMessage_.
Definition GetContactMessage (m : option Message) : option ContactMessage :=
  m ≫= ContactMessage_.
Definition GetLocationMessage (m : option Message) : option LocationMessage :=
  m ≫= LocationMessage_.

Definition GetText (m : ExtendedTextMessage) : string := default "" (Text m).
Definition GetImageCaption (m : ImageMessage) : string := default "" (ImageCaption m).
Definition GetVideoCaption (m : VideoMessage) : string := default "" (VideoCaption m).
Definition GetFileName (m : DocumentMessage) : string := default "" (FileName m).
Definition GetDisplayName (m : ContactMessage) : string := default "" (DisplayName m).
Definition GetDegreesLatitude (m : LocationMessage) : float64 :=
  default 0%Z (DegreesLatitude m).
Definition GetDegreesLongitude (m : LocationMessage) : float64 :=
  default 0%Z (DegreesLongitude m).

(** What [client.Download] accepts. *)
Inductive Downloadable : Type :=
| OfImage (m : ImageMessage)
| OfVideo (m : VideoMessage)
| OfDocument (m : DocumentMessage)
| OfAudio (m : AudioMessage).

End waProto.

Module events.

Record MessageInfo : Type := { Sender : types.JID; Timestamp : time.Time }.

(** [events.Message]: the envelope and the (possibly nil) payload. *)
Record Message : Type := { Info : MessageInfo; Message_ : option waProto.Message }.

End events.

(** ** The world the program runs in *)

(** Calls that leave the process. *)
Inductive Call : Type :=
| CallDownload (m : waProto.Downloadable)
| CallGenerateMessageID
| CallSendMessage (to : types.JID) (msg : waProto.Message)
| CallRenderTerminal (code : string)
| CallHTTPPost (url contentType : string) (payload : list (string * string)).

Record World : Type := mkWorld {
  files : gmap string string;   (* regular files: path to contents *)
  dirs : gset string;           (* directories created so far *)
  logged : list string;         (* lines written through package log *)
  printed : list string;        (* lines written to standard output *)
  calls : list Call;            (* external calls, oldest first *)
  tick : nat                    (* how often the clock has been read *)
}.

Definition set_files (f : gmap string string → gmap string string) (w : World) : World :=
  mkWorld (f (files w)) (dirs w) (logged w) (printed w) (calls w) (tick w).
Definition set_dirs (f : gset string → gset string) (w : World) : World :=
  mkWorld (files w) (f (dirs w)) (logged w) (printed w) (calls w) (tick w).
Definition set_logged (f : list string → list string) (w : World) : World :=
  mkWorld (files w) (dirs w) (f (logged w)) (printed w) (calls w) (tick w).
Definition set_printed (f : list string → list string) (w : World) : World :=
  mkWorld (files w) (dirs w) (logged w) (f (printed w)) (calls w) (tick w).
Definition set_calls (f : list Call → list Call) (w : World) : World :=
  mkWorld (files w) (dirs w) (logged w) (printed w) (f (calls w)) (tick w).
Definition set_tick (f : nat → nat) (w : World) : World :=
  mkWorld (files w) (dirs w) (logged w) (printed w) (calls w) (f (tick w)).

(** What the surroundings decide during one invocation: [None] in a
    [..._fails] field means that the operation succeeds. *)
Record Env : Type := mkEnv {
  download : waProto.Downloadable → result string;   (* client.Download *)
  mkdirAll_fails : option error;                     (* os.MkdirAll *)
  writeFile_fails : option error;                    (* os.WriteFile *)
  openFile_fails : option error;                     (* os.OpenFile on the log *)
  stat_fails : option error;                         (* file.Stat *)
  writeHeader_fails : option error;                  (* writer.Write, header *)
  writeRecord_fails : option error;                  (* writer.Write, record *)
  flush_fails : bool;                                (* writer.Flush, unchecked *)
  create_fails : option error;                       (* os.Create *)
  writeString_fails : option error;                  (* file.WriteString *)
  read_fails : option error;                         (* os.ReadFile, os.Open *)
  messageID : string;                                (* client.GenerateMessageID *)
  sendMessage_fails : option error;                  (* client.SendMessage *)
  post_result : result (Z * string)                  (* http.Post: code, status *)
}.

(** Libraries whose results the program only passes on, and the clock. *)
Class Platform : Type := {
  QRCode : Type;
  Bitmap : Type;                           (* image.Image *)
  qrcode_New : string → result QRCode;     (* qrcode.New(content, qrcode.Medium) *)
  qr_Image : QRCode → Z → Bitmap;          (* qr.Image(size) *)
  png_Encode : Bitmap → result string;      (* png.Encode into a buffer *)
  sprintf_f : waProto.float64 → string;    (* the verb %f *)
  clock : nat → time.Time                  (* the n-th reading of time.Now() *)
}.

(** ** State monad *)

Definition M (A : Type) : Type := World → A * World.

Global Instance M_ret : MRet M := λ A a w, (a, w).
Global Instance M_bind : MBind M := λ A B f m w, let (a, w') := m w in f a w'.

Definition modify (f : World → World) : M unit := λ w, (tt, f w).
Definition gets {A : Type} (f : World → A) : M A := λ w, (f w, w).

(** The state a computation ends in. *)
Definition exec {A : Type} (m : M A) (w : World) : World := snd (m w).
Definition eval {A : Type} (m : M A) (w : World) : A := fst (m w).

Definition log_Print (line : string) : M unit :=
  modify (set_logged (λ l, l ++ [line])).
Definition fmt_Print (line : string) : M unit :=
  modify (set_printed (λ l, l ++ [line])).
Definition record_call (c : Call) : M unit :=
  modify (set_calls (λ l, l ++ [c])).

Definition time_Now `{Platform} : M time.Time :=
  n ← gets tick; modify (set_tick S) ;; mret (clock n).

(** ** Package os *)

Module os.

Definition MkdirAll (env : Env) (dir : string) : M (option error) :=
  match mkdirAll_fails env with
  | Some e => mret (Some e)
  | None => modify (set_dirs (λ d, {[dir]} ∪ d)) ;; mret None
  end.

Definition WriteFile (env : Env) (name data : string) : M (option error) :=
  match writeFile_fails env with
  | Some e => mret (Some e)
  | None => modify (set_files <[name := data]>) ;; mret None
  end.

(** [os.OpenFile(name, O_APPEND|O_CREATE|O_WRONLY, 0644)]: a missing file
    is created empty. *)
Definition OpenFile_append (env : Env) (name : string) : M (option error) :=
  match openFile_fails env with
  | Some e => mret (Some e)
  | None =>
      modify (set_files (λ fs, match fs !! name with
                               | Some _ => fs
                               | None => <[name := ""]> fs
                               end)) ;;
      mret None
  end.

(** [file.Stat()] followed by [info.Size()]. *)
Definition Stat_Size (env : Env) (name : string) : M (result nat) :=
  match stat_fails env with
  | Some e => mret (Err e)
  | None => fs ← gets files; mret (Ok (String.length (default "" (fs !! name))))
  end.

(** Bytes written through a descriptor opened with O_APPEND. *)
Definition append (name data : string) : M unit :=
  modify (set_files (λ fs, <[name := default "" (fs !! name) +:+ data]> fs)).

(** [os.Create(name)]: the file is created or truncated. *)
Definition Create (env : Env) (name : string) : M (option error) :=
  match create_fails env with
  | Some e => mret (Some e)
  | None => modify (set_files <[name := ""]>) ;; mret None
  end.

Definition WriteString (env : Env) (name data : string) : M (option error) :=
  match writeString_fails env with
  | Some e => mret (Some e)
  | None => append name data ;; mret None
  end.

(** [os.ReadFile(name)], also used for [os.Open] followed by a full read. *)
Definition ReadFile (env : Env) (name : string) : M (result string) :=
  match read_fails env with
  | Some e => mret (Err e)
  | None =>
      fs ← gets files;
      mret (match fs !! name with
            | Some data => Ok data
            | None => Err ("open " +:+ name +:+ ": no such file or directory")
            end)
  end.

End os.

(** ** A [csv.Writer] on an open file

    The writer collects the encoded records in a buffer and hands it to the
    file when it is flushed.  The state of a writer is its buffer, or the
    error it has met; a writer in error writes nothing any more.  A write
    that fails leaves the file as it was (short writes are not modelled). *)

Module csvWriter.

Definition Write (fails : option error) (buffer : string)
    (record : list string) : result string :=
  match fails with
  | Some e => Err e
  | None => Ok (buffer +:+ csv.Write record)
  end.

Definition Flush (env : Env) (name : string) (writer : result string) : M unit :=
  match writer with
  | Err _ => mret tt
  | Ok buffer => if flush_fails env then mret tt else os.append name buffer
  end.

End csvWriter.

(** ** gin: what a handler reads and answers *)

Module gin.

Inductive JValue : Type :=
| JString (s : string)
| JError (e : error)
| JRows (rows : list (list string)).

Inductive ResponseBody : Type :=
| JSON (obj : list (string * JValue))
| Raw (contentType data : string).

Record Response : Type := { status : Z; body : ResponseBody }.

(** The body of a POST /send request after JSON decoding: either decoding
    fails, or it yields the two members looked for ([None] when the key is
    missing or null, which leaves the zero value in the struct). *)
Inductive RequestBody : Type :=
| Undecodable (e : error)
| Decoded (jid text : option string).

Record SendRequest : Type := { JID : string; Text : string }.

Definition requiredError (field : string) : string :=
  "Key: '" +:+ field +:+ "' Error:Field validation for '" +:+ field +:+
  "' failed on the 'required' tag".

Fixpoint joinLines (lines : list string) : string :=
  match lines with
  | [] => ""
  | [line] => line
  | line :: rest => line +:+ nl +:+ joinLines rest
  end.

(** [c.ShouldBindJSON(&request)] with both members tagged
    [binding:"required"]: decode, then reject a member left at its zero
    value. *)
Definition ShouldBindJSON (body : RequestBody) : result SendRequest :=
  match body with
  | Undecodable e => Err e
  | Decoded jid text =>
      let request := {| JID := default "" jid; Text := default "" text |} in
      let failures :=
        (if decide (JID request = "") then [requiredError "JID"] else []) ++
        (if decide (Text request = "") then [requiredError "Text"] else []) in
      match failures with
      | [] => Ok request
      | _ => Err (joinLines failures)
      end
  end.

End gin.

Definition StatusOK : Z := 200.
Definition StatusBadRequest : Z := 400.
Definition StatusInternalServerError : Z := 500.

(** ** The program: client.go *)

Definition csvFilePath : string := "messages.csv".
Definition qrCodeFilePath : string := "qrcode.txt".

Section Program.

Context `{Platform}.

(** The mutex makes invocations atomic, as they are here.  The deferred
    calls run when the function returns: first [writer.Flush], then
    [file.Close]. *)
Definition writeToCSV (env : Env)
    (sender messageType message timestamp : string) : M unit :=
  err ← os.OpenFile_append env csvFilePath;
  match err with
  | Some err => log_Print ("Failed to open CSV file: " +:+ err)
  | None =>
      let writer := "" in
      info ← os.Stat_Size env csvFilePath;
      match info with
      | Err err =>
          log_Print ("Failed to get file info: " +:+ err) ;;
          csvWriter.Flush env csvFilePath (Ok writer)
      | Ok size =>
          let writer :=
            if decide (size = 0%nat)
            then csvWriter.Write (writeHeader_fails env) writer
                   ["id"; "phone"; "type"; "text"; "datetime"]
            else Ok writer in
          match writer with
          | Err err =>
              log_Print ("Failed to write headers to CSV file: " +:+ err) ;;
              csvWriter.Flush env csvFilePath writer
          | Ok buffer =>
              now ← time_Now;
              let writer :=
                csvWriter.Write (writeRecord_fails env) buffer
                  [fmt.sprintf_d (time.UnixNano now); sender; messageType;
                   message; timestamp] in
              match writer with
              | Err err =>
                  log_Print ("Failed to write to CSV file: " +:+ err) ;;
                  csvWriter.Flush env csvFilePath writer
              | Ok _ => csvWriter.Flush env csvFilePath writer
              end
          end
      end
  end.

Definition extensionOf (mediaType : string) : string :=
  if decide (mediaType = "image") then ".jpg"
  else if decide (mediaType = "video") then ".mp4"
  else if decide (mediaType = "audio") then ".ogg"
  else if decide (mediaType = "document") then ".pdf"
  else "".

Definition saveMedia (env : Env) (mediaType mediaData : string) : M (result string) :=
  let dir := "media/" +:+ mediaType in
  err ← os.MkdirAll env dir;
  match err with
  | Some err =>
      log_Print ("Failed to create directory: " +:+ err) ;; mret (Err err)
  | None =>
      let extension := extensionOf mediaType in
      now ← time_Now;
      let filename :=
        dir +:+ "/" +:+ fmt.sprintf_d (time.UnixNano now) +:+ extension in
      err ← os.WriteFile env filename mediaData;
      match err with
      | Some err =>
          log_Print ("Failed to save media file: " +:+ err) ;; mret (Err err)
      | None =>
          log_Print ("Saved media file: " +:+ filename) ;; mret (Ok filename)
      end
  end.

Definition client_Download (env : Env) (m : waProto.Downloadable) : M (result string) :=
  record_call (CallDownload m) ;; mret (download env m).

Definition handleReceivedMessage (env : Env) (message : events.Message) : M unit :=
  let sender := types.JID_String (events.Sender (events.Info message)) in
  let msg := events.Message_ message in
  let timestamp := time.Format_RFC3339 (events.Timestamp (events.Info message)) in
  log_Print ("Received message from " +:+ sender +:+ " at " +:+ timestamp) ;;
  if decide (waProto.GetConversation msg ≠ "") then
    let conversation := waProto.GetConversation msg in
    log_Print ("Conversation: " +:+ conversation +:+ nl) ;;
    writeToCSV env sender "Conversation" conversation timestamp
  else match waProto.GetExtendedTextMessage msg with
  | Some extendedText =>
    let extendedTextMsg := waProto.GetText extendedText in
    log_Print ("Extended Text Message: " +:+ extendedTextMsg +:+ nl) ;;
    writeToCSV env sender "ExtendedText" extendedTextMsg timestamp
  | None =>
  match waProto.GetImageMessage msg with
  | Some imageMessage =>
    let caption := waProto.GetImageCaption imageMessage in
    imageData ← client_Download env (waProto.OfImage imageMessage);
    match imageData with
    | Err err => log_Print ("Failed to download image data: " +:+ err)
    | Ok imageData =>
        log_Print "Received an image message" ;;
        imagePath ← saveMedia env "image" imageData;
        match imagePath with
        | Err err => log_Print ("Failed to save image: " +:+ err)
        | Ok imagePath =>
            writeToCSV env sender "Image"
              ("Caption: " +:+ caption +:+ ", Path: " +:+ imagePath) timestamp
        end
    end
  | None =>
  match waProto.GetVideoMessage msg with
  | Some videoMessage =>
    let caption := waProto.GetVideoCaption videoMessage in
    videoData ← client_Download env (waProto.OfVideo videoMessage);
    match videoData with
    | Err err => log_Print ("Failed to download video data: " +:+ err)
    | Ok videoData =>
        log_Print "Received a video message" ;;
        videoPath ← saveMedia env "video" videoData;
        match videoPath with
        | Err err => log_Print ("Failed to save video: " +:+ err)
        | Ok videoPath =>
            writeToCSV env sender "Video"
              ("Caption: " +:+ caption +:+ ", Path: " +:+ videoPath) timestamp
        end
    end
  | None =>
  match waProto.GetDocumentMessage msg with
  | Some documentMessage =>
    let fileName := waProto.GetFileName documentMessage in
    documentData ← client_Download env (waProto.OfDocument documentMessage);
    match documentData with
    | Err err => log_Print ("Failed to download document data: " +:+ err)
    | Ok documentData =>
        log_Print "Received a document message" ;;
        documentPath ← saveMedia env "document" documentData;
        match documentPath with
        | Err err => log_Print ("Failed to save document: " +:+ err)
        | Ok documentPath =>
            writeToCSV env sender "Document"
              ("FileName: " +:+ fileName +:+ ", Path: " +:+ documentPath) timestamp
        end
    end
  | None =>
  match waProto.GetAudioMessage msg with
  | Some audioMessage =>
    audioData ← client_Download env (waProto.OfAudio audioMessage);
    match audioData with
    | Err err => log_Print ("Failed to download audio data: " +:+ err)
    | Ok audioData =>
        log_Print "Received an audio message" ;;
        audioPath ← saveMedia env "audio" audioData;
        match audioPath with
        | Err err => log_Print ("Failed to save audio: " +:+ err)
        | Ok audioPath => writeToCSV env sender "Audio" audioPath timestamp
        end
    end
  | None =>
  match waProto.GetContactMessage msg with
  | Some contactMessage =>
    let contactName := waProto.GetDisplayName contactMessage in
    log_Print "Received a contact message" ;;
    writeToCSV env sender "Contact" contactName timestamp
  | None =>
  match waProto.GetLocationMessage msg with
  | Some locationMessage =>
    let location :=
      "Lat: " +:+ sprintf_f (waProto.GetDegreesLatitude locationMessage) +:+
      ", Long: " +:+ sprintf_f (waProto.GetDegreesLongitude locationMessage) in
    log_Print "Received a location message" ;;
    writeToCSV env sender "Location" location timestamp
  | None =>
    log_Print ("Received an unhandled message type from " +:+ sender +:+ nl) ;;
    writeToCSV env sender "Unknown" "Unknown message type" timestamp
  end end end end end end end.

(** The message [sendMessage] builds: only the conversation text is set. *)
Definition textMessage (text : string) : waProto.Message :=
  waProto.mkMessage (Some text) None None None None None None None.

Definition sendMessage (env : Env) (jid text : string) : M (option error) :=
  let targetJID := types.NewJID jid "s.whatsapp.net" in
  record_call CallGenerateMessageID ;;
  let msgID := messageID env in
  record_call (CallSendMessage targetJID (textMessage text)) ;;
  match sendMessage_fails env with
  | Some err =>
      log_Print ("Failed to send message: " +:+ err) ;; mret (Some err)
  | None =>
      fmt_Print ("Message sent, ID: " +:+ msgID) ;;
      now ← time_Now;
      let timestamp := time.Format_RFC3339 now in
      writeToCSV env "me" "SentMessage" text timestamp ;;
      mret None
  end.

Definition sendMessageHandler (env : Env) (body : gin.RequestBody) : M gin.Response :=
  match gin.ShouldBindJSON body with
  | Err err =>
      log_Print ("Failed to bind JSON: " +:+ err) ;;
      mret {| gin.status := StatusBadRequest;
              gin.body := gin.JSON [("error", gin.JString err)] |}
  | Ok request =>
      log_Print ("Received request to send message: {" +:+ gin.JID request +:+
                 " " +:+ gin.Text request +:+ "}") ;;
      err ← sendMessage env (gin.JID request) (gin.Text request);
      match err with
      | Some err =>
          log_Print ("Failed to send message: " +:+ err) ;;
          mret {| gin.status := StatusInternalServerError;
                  gin.body := gin.JSON [("error", gin.JError err)] |}
      | None =>
          log_Print "Message sent successfully" ;;
          mret {| gin.status := StatusOK;
                  gin.body := gin.JSON [("status", gin.JString "Message sent")] |}
      end
  end.

Definition saveQRCode (env : Env) (code : string) : M unit :=
  err ← os.Create env qrCodeFilePath;
  match err with
  | Some err => log_Print ("Failed to create QR code file: " +:+ err)
  | None =>
      err ← os.WriteString env qrCodeFilePath code;
      match err with
      | Some err => log_Print ("Failed to write QR code to file: " +:+ err)
      | None => mret tt
      end
  end.

(** Marshalling a map of strings cannot fail, so that branch is left out. *)
Definition sendQRCodeToAPI (env : Env) (code : string) : M unit :=
  record_call (CallHTTPPost "https://devapi.courstore.com/v1/qr/for_login"
                 "application/json" [("qr_code", code)]) ;;
  match post_result env with
  | Err err => log_Print ("Failed to send POST request: " +:+ err)
  | Ok (statusCode, statusText) =>
      if decide (statusCode ≠ StatusOK)
      then log_Print ("Received non-OK response from API: " +:+ statusText)
      else log_Print "QR code sent successfully to the API"
  end.

(** One item of the QR channel, and the goroutine in [main] that drains
    the channel. *)
Record QRChannelItem : Type := { Event : string; Code : string }.

Definition onQRChannelItem (env : Env) (evt : QRChannelItem) : M unit :=
  if decide (Event evt = "code") then
    record_call (CallRenderTerminal (Code evt)) ;;
    saveQRCode env (Code evt) ;;
    sendQRCodeToAPI env (Code evt)
  else log_Print ("QR Channel result: " +:+ Event evt).

Fixpoint drainQRChannel (items : list (Env * QRChannelItem)) : M unit :=
  match items with
  | [] => mret tt
  | (env, evt) :: rest => onQRChannelItem env evt ;; drainQRChannel rest
  end.

Definition qrFailure : gin.Response :=
  {| gin.status := StatusInternalServerError;
     gin.body := gin.JSON [("error", gin.JString "Failed to generate QR code")] |}.

Definition generateQRTextHandler (env : Env) : M gin.Response :=
  code ← os.ReadFile env qrCodeFilePath;
  match code with
  | Err err =>
      log_Print ("Failed to read QR code file: " +:+ err) ;; mret qrFailure
  | Ok code =>
      mret {| gin.status := StatusOK;
              gin.body := gin.JSON [("qr_code", gin.JString code)] |}
  end.

Definition generateQRPhotoHandler (env : Env) : M gin.Response :=
  code ← os.ReadFile env qrCodeFilePath;
  match code with
  | Err err =>
      log_Print ("Failed to read QR code file: " +:+ err) ;; mret qrFailure
  | Ok code =>
      match qrcode_New code with
      | Err err =>
          log_Print ("Failed to generate QR code image: " +:+ err) ;; mret qrFailure
      | Ok qr =>
          match png_Encode (qr_Image qr 256) with
          | Err err =>
              log_Print ("Failed to encode QR code image: " +:+ err) ;;
              mret qrFailure
          | Ok pngBuffer =>
              mret {| gin.status := StatusOK;
                      gin.body := gin.Raw "image/png" pngBuffer |}
          end
      end
  end.

Definition getCSVContentsHandler (env : Env) : M gin.Response :=
  file ← os.ReadFile env csvFilePath;
  match file with
  | Err err =>
      log_Print ("Failed to open CSV file: " +:+ err) ;;
      mret {| gin.status := StatusInternalServerError;
              gin.body := gin.JSON [("error", gin.JString "Failed to open CSV file")] |}
  | Ok contents =>
      match csv.ReadAll contents with
      | None =>
          log_Print "Failed to read CSV file" ;;
          mret {| gin.status := StatusInternalServerError;
                  gin.body := gin.JSON [("error", gin.JString "Failed to read CSV file")] |}
      | Some records =>
          mret {| gin.status := StatusOK;
                  gin.body := gin.JSON [("data", gin.JRows records)] |}
      end
  end.

End Program.

(** ** The earlier revision of client.go

    It logs text messages only, writes four columns, and formats the
    timestamp inside [writeToCSV].  The QR functions and the CSV read
    handler are the same as above. *)

Module Earlier.
Section Program.

Context `{Platform}.

Definition writeToCSV (env : Env) (sender message : string)
    (timestamp : time.Time) : M unit :=
  err ← os.OpenFile_append env csvFilePath;
  match err with
  | Some err => log_Print ("Failed to open CSV file: " +:+ err)
  | None =>
      let writer := "" in
      info ← os.Stat_Size env csvFilePath;
      match info with
      | Err err =>
          log_Print ("Failed to get file info: " +:+ err) ;;
          csvWriter.Flush env csvFilePath (Ok writer)
      | Ok size =>
          let writer :=
            if decide (size = 0%nat)
            then csvWriter.Write (writeHeader_fails env) writer
                   ["id"; "phone"; "text"; "datetime"]
            else Ok writer in
          match writer with
          | Err err =>
              log_Print ("Failed to write headers to CSV file: " +:+ err) ;;
              csvWriter.Flush env csvFilePath writer
          | Ok buffer =>
              now ← time_Now;
              let writer :=
                csvWriter.Write (writeRecord_fails env) buffer
                  [fmt.sprintf_d (time.UnixNano now); sender; message;
                   time.Format_RFC3339 timestamp] in
              match writer with
              | Err err =>
                  log_Print ("Failed to write to CSV file: " +:+ err) ;;
                  csvWriter.Flush env csvFilePath writer
              | Ok _ => csvWriter.Flush env csvFilePath writer
              end
          end
      end
  end.

Definition handleReceivedMessage (env : Env) (message : events.Message) : M unit :=
  let sender := types.JID_String (events.Sender (events.Info message)) in
  let msg := events.Message_ message in
  let timestamp := events.Timestamp (events.Info message) in
  if decide (waProto.GetConversation msg ≠ "") then
    fmt_Print ("Received message from " +:+ sender +:+ ": " +:+
               waProto.GetConversation msg) ;;
    writeToCSV env sender (waProto.GetConversation msg) timestamp
  else match waProto.GetExtendedTextMessage msg with
  | Some extendedText =>
    fmt_Print ("Received extended text message from " +:+ sender +:+ ": " +:+
               waProto.GetText extendedText) ;;
    writeToCSV env sender (waProto.GetText extendedText) timestamp
  | None =>
    fmt_Print ("Received a message from " +:+ sender +:+
               ", but could not determine its type")
  end.

Definition sendMessage (env : Env) (jid text : string) : M (option error) :=
  let targetJID := types.NewJID jid "s.whatsapp.net" in
  record_call CallGenerateMessageID ;;
  let msgID := messageID env in
  record_call (CallSendMessage targetJID (textMessage text)) ;;
  match sendMessage_fails env with
  | Some err =>
      log_Print ("Failed to send message: " +:+ err) ;; mret (Some err)
  | None =>
      fmt_Print ("Message sent, ID: " +:+ msgID) ;;
      now ← time_Now;
      writeToCSV env "me" text now ;;
      mret None
  end.

Definition sendMessageHandler (env : Env) (body : gin.RequestBody) : M gin.Response :=
  match gin.ShouldBindJSON body with
  | Err err =>
      log_Print ("Failed to bind JSON: " +:+ err) ;;
      mret {| gin.status := StatusBadRequest;
              gin.body := gin.JSON [("error", gin.JString err)] |}
  | Ok request =>
      log_Print ("Received request to send message: {" +:+ gin.JID request +:+
                 " " +:+ gin.Text request +:+ "}") ;;
      err ← sendMessage env (gin.JID request) (gin.Text request);
      match err with
      | Some err =>
          log_Print ("Failed to send message: " +:+ err) ;;
          mret {| gin.status := StatusInternalServerError;
                  gin.body := gin.JSON [("error", gin.JString err)] |}
      | None =>
          log_Print "Message sent successfully" ;;
          mret {| gin.status := StatusOK;
                  gin.body := gin.JSON [("status", gin.JString "Message sent")] |}
      end
  end.

End Program.
End Earlier.

(** ** The first revision of client.go

    It keeps no log at all: an inbound text message is printed, and a sent
    message is reported on standard output only.  The QR functions are
    those of the current revision. *)

Module Earliest.

Definition handleReceivedMessage (message : events.Message) : M unit :=
  let sender := types.JID_String (events.Sender (events.Info message)) in
  let msg := events.Message_ message in
  if decide (waProto.GetConversation msg ≠ "") then
    fmt_Print ("Received message from " +:+ sender +:+ ": " +:+
               waProto.GetConversation msg)
  else match waProto.GetExtendedTextMessage msg with
  | Some extendedText =>
    fmt_Print ("Received extended text message from " +:+ sender +:+ ": " +:+
               waProto.GetText extendedText)
  | None =>
    fmt_Print ("Received a message from " +:+ sender +:+
               ", but could not determine its type")
  end.

Definition sendMessage (env : Env) (jid text : string) : M (option error) :=
  let targetJID := types.NewJID jid "s.whatsapp.net" in
  record_call CallGenerateMessageID ;;
  let msgID := messageID env in
  record_call (CallSendMessage targetJID (textMessage text)) ;;
  match sendMessage_fails env with
  | Some err =>
      log_Print ("Failed to send message: " +:+ err) ;; mret (Some err)
  | None =>
      fmt_Print ("Message sent, ID: " +:+ msgID) ;; mret None
  end.

Definition sendMessageHandler (env : Env) (body : gin.RequestBody) : M gin.Response :=
  match gin.ShouldBindJSON body with
  | Err err =>
      log_Print ("Failed to bind JSON: " +:+ err) ;;
      mret {| gin.status := StatusBadRequest;
              gin.body := gin.JSON [("error", gin.JString err)] |}
  | Ok request =>
      log_Print ("Received request to send message: {" +:+ gin.JID request +:+
                 " " +:+ gin.Text request +:+ "}") ;;
      err ← sendMessage env (gin.JID request) (gin.Text request);
      match err with
      | Some err =>
          log_Print ("Failed to send message: " +:+ err) ;;
          mret {| gin.status := StatusInternalServerError;
                  gin.body := gin.JSON [("error", gin.JString err)] |}
      | None =>
          log_Print "Message sent successfully" ;;
          mret {| gin.status := StatusOK;
                  gin.body := gin.JSON [("status", gin.JString "Message sent")] |}
      end
  end.

End Earliest.

(** ** [main]: the event handler, the routes and what reaches them *)

(** The events the handler registered in [main] tells apart.  Any other
    event is carried with the type name that the verb [%T] prints. *)
Inductive ClientEvent : Type :=
| EvMessage (v : events.Message)
| EvConnected
| EvOfflineSyncCompleted
| EvLoggedOut
| EvDisconnected
| EvOther (typeName : string).

(** A gin handler: it reads the request and answers. *)
Definition HandlerFunc : Type := Env → gin.RequestBody → M gin.Response.

Record Route : Type := {
  routeMethod : string;
  routePath : string;
  routeHandler : HandlerFunc
}.

(** The handler registered for a method and a path, if there is one. *)
Fixpoint findRoute (method path : string) (routes : list Route) : option HandlerFunc :=
  match routes with
  | [] => None
  | r :: rest =>
      if decide (method = routeMethod r ∧ path = routePath r)
      then Some (routeHandler r)
      else findRoute method path rest
  end.

(** What the running program reacts to: an event of the chat client, an
    item of the QR channel, an HTTP request. *)
Inductive Input : Type :=
| FromClient (evt : ClientEvent)
| FromQRChannel (evt : QRChannelItem)
| FromHTTP (method path : string) (body : gin.RequestBody).

Section Main.

Context `{Platform}.

Definition eventHandler (env : Env) (evt : ClientEvent) : M unit :=
  match evt with
  | EvMessage v => handleReceivedMessage env v
  | EvConnected => fmt_Print "Connected to WhatsApp"
  | EvOfflineSyncCompleted => fmt_Print "Offline sync completed"
  | EvLoggedOut => fmt_Print "Logged out"
  | EvDisconnected => fmt_Print "Disconnected"
  | EvOther typeName => fmt_Print ("Unhandled event: " +:+ typeName)
  end.

(** The routes in the order in which [main] registers them. *)
Definition routes : list Route :=
  [ {| routeMethod := "POST"; routePath := "/send";
       routeHandler := sendMessageHandler |};
    {| routeMethod := "GET"; routePath := "/qr/text";
       routeHandler := λ env _, generateQRTextHandler env |};
    {| routeMethod := "GET"; routePath := "/qr/photo";
       routeHandler := λ env _, generateQRPhotoHandler env |};
    {| routeMethod := "GET"; routePath := "/csv";
       routeHandler := λ env _, getCSVContentsHandler env |} ].

(** One reaction of the program.  Reactions are taken one after the other;
    a request for which no route is registered is answered by gin itself
    and runs none of the program's code. *)
Definition serve (env : Env) (input : Input) : M unit :=
  match input with
  | FromClient evt => eventHandler env evt
  | FromQRChannel evt => onQRChannelItem env evt
  | FromHTTP method path body =>
      match findRoute method path routes with
      | Some handler => handler env body ;; mret tt
      | None => mret tt
      end
  end.

End Main.

(** * Vocabulary of the specification *)

(** ** Content kinds and their precedence *)

Inductive Kind : Type :=
| Text | ExtendedText | Image | Video | Document | Audio | Contact | Location
| Unknown.

Global Instance Kind_eq_dec : EqDecision Kind.
Proof. solve_decision. Defined.

(** The fixed order in which the kinds are tried. *)
Definition precedence : list Kind :=
  [Text; ExtendedText; Image; Video; Document; Audio; Contact; Location; Unknown].

(** The predicate of each kind: a non-empty conversation text, or the
    presence of the corresponding part of the message.  Unknown accepts
    everything. *)
Definition satisfies (msg : option waProto.Message) (k : Kind) : bool :=
  match k with
  | Text => bool_decide (waProto.GetConversation msg ≠ "")
  | ExtendedText => bool_decide (is_Some (waProto.GetExtendedTextMessage msg))
  | Image => bool_decide (is_Some (waProto.GetImageMessage msg))
  | Video => bool_decide (is_Some (waProto.GetVideoMessage msg))
  | Document => bool_decide (is_Some (waProto.GetDocumentMessage msg))
  | Audio => bool_decide (is_Some (waProto.GetAudioMessage msg))
  | Contact => bool_decide (is_Some (waProto.GetContactMessage msg))
  | Location => bool_decide (is_Some (waProto.GetLocationMessage msg))
  | Unknown => true
  end.

(** The first kind of a list whose predicate holds. *)
Fixpoint firstSatisfied (msg : option waProto.Message) (order : list Kind) : Kind :=
  match order with
  | [] => Unknown
  | k :: later => if satisfies msg k then k else firstSatisfied msg later
  end.

(** The classifier as the specification words it. *)
Definition classify (msg : option waProto.Message) : Kind :=
  firstSatisfied msg precedence.

(** [k1] comes strictly before [k2] in the precedence order. *)
Definition precedes (k1 k2 : Kind) : Prop :=
  ∃ i j, precedence !! i = Some k1 ∧ precedence !! j = Some k2 ∧ (i < j)%nat.

(** The text that stands for a kind in the type column of the log. *)
Definition kindLabel (k : Kind) : string :=
  match k with
  | Text => "Conversation"
  | ExtendedText => "ExtendedText"
  | Image => "Image"
  | Video => "Video"
  | Document => "Document"
  | Audio => "Audio"
  | Contact => "Contact"
  | Location => "Location"
  | Unknown => "Unknown"
  end.

Definition isMedia (k : Kind) : bool :=
  match k with
  | Image | Video | Document | Audio => true
  | _ => false
  end.

(** The media part that a message of a media kind carries. *)
Definition mediaOf (msg : option waProto.Message) : option waProto.Downloadable :=
  match classify msg with
  | Image => waProto.OfImage <$> waProto.GetImageMessage msg
  | Video => waProto.OfVideo <$> waProto.GetVideoMessage msg
  | Document => waProto.OfDocument <$> waProto.GetDocumentMessage msg
  | Audio => waProto.OfAudio <$> waProto.GetAudioMessage msg
  | _ => None
  end.

(** The directory segment the Media Store uses for a media part. *)
Definition mediaTypeOf (m : waProto.Downloadable) : string :=
  match m with
  | waProto.OfImage _ => "image"
  | waProto.OfVideo _ => "video"
  | waProto.OfDocument _ => "document"
  | waProto.OfAudio _ => "audio"
  end.

(** Directory, nanosecond timestamp, extension. *)
Definition mediaPath (mediaType : string) (now : time.Time) : string :=
  ("media/" +:+ mediaType) +:+ "/" +:+ fmt.sprintf_d (time.UnixNano now) +:+
  extensionOf mediaType.

(** The payload summary of a media record, given the stored path. *)
Definition mediaSummary (m : waProto.Downloadable) (path : string) : string :=
  match m with
  | waProto.OfImage im =>
      "Caption: " +:+ waProto.GetImageCaption im +:+ ", Path: " +:+ path
  | waProto.OfVideo vm =>
      "Caption: " +:+ waProto.GetVideoCaption vm +:+ ", Path: " +:+ path
  | waProto.OfDocument dm =>
      "FileName: " +:+ waProto.GetFileName dm +:+ ", Path: " +:+ path
  | waProto.OfAudio _ => path
  end.

(** A summary that combines some caption or file name with the path. *)
Definition combinesWithPath (summary path : string) : Prop :=
  ∃ label text : string, summary = label +:+ ": " +:+ text +:+ ", Path: " +:+ path.

Definition mediaWorks (env : Env) (m : waProto.Downloadable) : Prop :=
  (∃ data, download env m = Ok data) ∧
  mkdirAll_fails env = None ∧ writeFile_fails env = None.

Definition mediaFails (env : Env) (m : waProto.Downloadable) : Prop :=
  (∃ e, download env m = Err e) ∨
  is_Some (mkdirAll_fails env) ∨ is_Some (writeFile_fails env).

Definition senderOf (message : events.Message) : string :=
  types.JID_String (events.Sender (events.Info message)).

Definition timestampOf (message : events.Message) : string :=
  time.Format_RFC3339 (events.Timestamp (events.Info message)).

(** ** The Append Log *)

Definition mainHeader : list string := ["id"; "phone"; "type"; "text"; "datetime"].
Definition earlierHeader : list string := ["id"; "phone"; "text"; "datetime"].

(** The bytes of the log; a missing file counts as empty. *)
Definition logContents (w : World) : string := default "" (files w !! csvFilePath).

Definition headerIfEmpty (header : list string) (contents : string) : string :=
  if decide (contents = "") then csv.Write header else "".

(** From [w] to [w'] the log grew by the header, if it was empty, and by
    exactly the line of [row]. *)
Definition rowAppended (header : list string) (w w' : World) (row : list string) : Prop :=
  logContents w' =
  logContents w +:+ headerIfEmpty header (logContents w) +:+ csv.Write row.

(** From [w] to [w'] the log file is the same, down to its existence. *)
Definition logUntouched (w w' : World) : Prop :=
  files w' !! csvFilePath = files w !! csvFilePath.

(** Every step of an append succeeds. *)
Definition logWorks (env : Env) : Prop :=
  openFile_fails env = None ∧ stat_fails env = None ∧
  writeHeader_fails env = None ∧ writeRecord_fails env = None ∧
  flush_fails env = false.

(** Records as the writer lays them out, one after the other. *)
Fixpoint writtenLog (records : list (list string)) : string :=
  match records with
  | [] => ""
  | record :: rest => csv.Write record +:+ writtenLog rest
  end.

(** The log is empty, or it holds the header followed by records of as many
    columns. *)
Definition logHolds (header : list string) (w : World) (rows : list (list string)) : Prop :=
  (rows = [] ∧ logContents w = "") ∨
  (∃ records, rows = header :: records ∧
     Forall (λ r, length r = length header) records ∧
     logContents w = writtenLog rows).

(** The contents read back as the header row followed by [rows], none of
    which is the header. *)
Definition readsAs (header : list string) (contents : string)
    (rows : list (list string)) : Prop :=
  csv.ReadAll contents = Some (header :: rows) ∧ header ∉ rows.

(** A field as the reader returns it: a carriage return directly before a
    line feed is gone. *)
Fixpoint unCRLF (field : string) : string :=
  match field with
  | "" => ""
  | String c rest =>
      if (c =? CR)%char then
        match rest with
        | "" => String c ""
        | String c' _ =>
            if (c' =? LF)%char then unCRLF rest else String c (unCRLF rest)
        end
      else String c (unCRLF rest)
  end.

(** No carriage return of the field stands directly before a line feed. *)
Fixpoint freeOfCRLF (field : string) : bool :=
  match field with
  | "" => true
  | String c rest =>
      match rest with
      | "" => true
      | String c' _ => negb ((c =? CR)%char && (c' =? LF)%char) && freeOfCRLF rest
      end
  end.

(** ** The Login Code file *)

Definition codeFile (w : World) : option string := files w !! qrCodeFilePath.

Definition saveWorks (env : Env) : Prop :=
  create_fails env = None ∧ writeString_fails env = None.

(** ** Auxiliary notions used in the proofs *)

(** What the reader does at the separator that follows a field. *)
Definition afterField (sep : ascii) (field : string) (fields : list string)
    (rows : list (list string)) (rest : string) : option (list (list string)) :=
  if (sep =? comma)%char
  then csv.readRecords csv.FieldStart (fields ++ [field]) rows rest
  else csv.readRecords csv.RecordStart [] (rows ++ [fields ++ [field]]) rest.

(** Both revisions of [writeToCSV] as one function of the header and of the
    row, which [row] builds from the id. *)
Definition appendToCSV `{Platform} (env : Env) (header : list string)
    (row : string → list string) : M unit :=
  err ← os.OpenFile_append env csvFilePath;
  match err with
  | Some err => log_Print ("Failed to open CSV file: " +:+ err)
  | None =>
      info ← os.Stat_Size env csvFilePath;
      match info with
      | Err err =>
          log_Print ("Failed to get file info: " +:+ err) ;;
          csvWriter.Flush env csvFilePath (Ok "")
      | Ok size =>
          let writer :=
            if decide (size = 0%nat)
            then csvWriter.Write (writeHeader_fails env) "" header
            else Ok "" in
          match writer with
          | Err err =>
              log_Print ("Failed to write headers to CSV file: " +:+ err) ;;
              csvWriter.Flush env csvFilePath writer
          | Ok buffer =>
              now ← time_Now;
              let writer :=
                csvWriter.Write (writeRecord_fails env) buffer
                  (row (fmt.sprintf_d (time.UnixNano now))) in
              match writer with
              | Err err =>
                  log_Print ("Failed to write to CSV file: " +:+ err) ;;
                  csvWriter.Flush env csvFilePath writer
              | Ok _ => csvWriter.Flush env csvFilePath writer
              end
          end
      end
  end.

(** The files after an append in which every step succeeded. *)
Definition appendedFiles `{Platform} (header : list string)
    (row : string → list string) (w : World) : gmap string string :=
  <[csvFilePath :=
      logContents w +:+ headerIfEmpty header (logContents w) +:+
      csv.Write (row (fmt.sprintf_d (time.UnixNano (clock (tick w)))))]> (files w).

(** The bytes of a decimal number. *)
Definition numeric (c : ascii) : bool :=
  (c =? "-")%char || ((48 <=? nat_of_ascii c) && (nat_of_ascii c <=? 57))%nat.

Fixpoint allNumeric (s : string) : bool :=
  match s with
  | "" => true
  | String c rest => numeric c && allNumeric rest
  end.

(** One invocation after the other, each with its own surroundings. *)
Fixpoint runAll {A : Type} (step : Env → A → M unit) (inputs : list (Env * A)) : M unit :=
  match inputs with
  | [] => mret tt
  | (env, a) :: rest => step env a ;; runAll step rest
  end.


(** The id column of a row appended in world [w]: the clock reading. *)
Definition idAt `{Platform} (w : World) : string :=
  fmt.sprintf_d (time.UnixNano (clock (tick w))).

(** The rows of a log once something is appended: an empty log first gets
    the header. *)
Definition seeded (header : list string) (rows : list (list string)) : list (list string) :=
  match rows with
  | [] => [header]
  | _ => rows
  end.

(** The arguments of one append, for each revision. *)
Record LogEntry : Type := {
  entrySender : string;
  entryKind : string;
  entrySummary : string;
  entryTimestamp : string
}.

Record EarlierEntry : Type := {
  earlierSender : string;
  earlierMessage : string;
  earlierTimestamp : time.Time
}.

Definition appendEntry `{Platform} (env : Env) (e : LogEntry) : M unit :=
  writeToCSV env (entrySender e) (entryKind e) (entrySummary e) (entryTimestamp e).

Definition appendEarlierEntry `{Platform} (env : Env) (e : EarlierEntry) : M unit :=
  Earlier.writeToCSV env (earlierSender e) (earlierMessage e) (earlierTimestamp e).

(** ** Sample surroundings, used to instantiate the theorems *)

(** Everything succeeds; a download returns [data]. *)
Definition quietEnv (data : string) : Env :=
  {| download := λ _, Ok data;
     mkdirAll_fails := None; writeFile_fails := None;
     openFile_fails := None; stat_fails := None;
     writeHeader_fails := None; writeRecord_fails := None; flush_fails := false;
     create_fails := None; writeString_fails := None; read_fails := None;
     messageID := "3EB0"; sendMessage_fails := None;
     post_result := Ok (200%Z, "200 OK") |}.

(** As [quietEnv], but downloads fail. *)
Definition offlineEnv : Env :=
  {| download := λ _, Err "download failed";
     mkdirAll_fails := None; writeFile_fails := None;
     openFile_fails := None; stat_fails := None;
     writeHeader_fails := None; writeRecord_fails := None; flush_fails := false;
     create_fails := None; writeString_fails := None; read_fails := None;
     messageID := "3EB0"; sendMessage_fails := None;
     post_result := Ok (200%Z, "200 OK") |}.

(** A platform whose QR code is the text itself, whose image is the text
    with its size, and whose clock advances by one nanosecond per reading. *)
Definition demoPlatform : Platform :=
  {| QRCode := string;
     Bitmap := string * Z;
     qrcode_New := λ content,
       if decide (content = "") then Err "no data to encode" else Ok content;
     qr_Image := λ qr size, (qr, size);
     png_Encode := λ img, Ok ("PNG" +:+ fst img);
     sprintf_f := λ bits, fmt.sprintf_d bits;
     clock := λ n, time.mkTime (Z.of_nat n) 2024 6 9 7 5 3 0 |}.

Definition emptyWorld : World :=
  {| files := ∅; dirs := ∅; logged := []; printed := []; calls := []; tick := 0 |}.

Definition noMessage : waProto.Message :=
  waProto.mkMessage None None None None None None None None.

Definition inbound (sender : types.JID) (msg : waProto.Message) : events.Message :=
  {| events.Info := {| events.Sender := sender;
                       events.Timestamp := time.mkTime 0 2024 6 9 7 5 3 0 |};
     events.Message_ := Some msg |}.

Definition alice : types.JID := types.NewJID "77001112233" "s.whatsapp.net".


Definition textHi : waProto.Message :=
  waProto.mkMessage (Some "hi") None None None None None None None.

Definition audioOnly : waProto.Message :=
  waProto.mkMessage None None None None None
    (Some {| waProto.AudioURL := Some "https://mmg.whatsapp.net/a" |}) None None.

Definition theAudio : waProto.Downloadable :=
  waProto.OfAudio {| waProto.AudioURL := Some "https://mmg.whatsapp.net/a" |}.

Definition crlfText : string := "x" +:+ String CR (String LF "y").
Definition lfText : string := "x" +:+ String LF "y".
Definition sampleTime : string := "2024-06-09T07:05:03Z".

Definition hiFromAlice : events.Message := inbound alice textHi.
Definition audioFromAlice : events.Message := inbound alice audioOnly.
Definition hiFromNobody : events.Message := inbound (types.NewJID "" "") textHi.

Definition afterHi : World :=
  exec (@handleReceivedMessage demoPlatform (quietEnv "") hiFromAlice) emptyWorld.
Definition afterAudio : World :=
  exec (@handleReceivedMessage demoPlatform (quietEnv "bytes") audioFromAlice) emptyWorld.
Definition afterLostAudio : World :=
  exec (@handleReceivedMessage demoPlatform offlineEnv audioFromAlice) emptyWorld.
Definition afterHiFromNobody : World :=
  exec (@handleReceivedMessage demoPlatform (quietEnv "") hiFromNobody) emptyWorld.

Definition afterFirstRow : World :=
  exec (@writeToCSV demoPlatform (quietEnv "") "alice" "Conversation" "hi" sampleTime)
    emptyWorld.
Definition afterCRLFRow : World :=
  exec (@writeToCSV demoPlatform (quietEnv "") "alice" "Conversation" crlfText sampleTime)
    emptyWorld.

Definition twoEntries : list (Env * LogEntry) :=
  [(quietEnv "", {| entrySender := "alice"; entryKind := "Conversation";
                    entrySummary := "hi"; entryTimestamp := sampleTime |});
   (quietEnv "", {| entrySender := "me"; entryKind := "SentMessage";
                    entrySummary := "hello"; entryTimestamp := sampleTime |})].

Definition twoEarlierEntries : list (Env * EarlierEntry) :=
  [(quietEnv "", {| earlierSender := "alice"; earlierMessage := "hi";
                    earlierTimestamp := time.mkTime 0 2024 6 9 7 5 3 0 |});
   (quietEnv "", {| earlierSender := "me"; earlierMessage := "hello";
                    earlierTimestamp := time.mkTime 0 2024 6 9 7 5 4 0 |})].

Definition afterCode : World :=
  exec (saveQRCode (quietEnv "") "2@AbCd,EfGh,IjKl") emptyWorld.

Definition sendToAlice : gin.RequestBody :=
  gin.Decoded (Some "77001112233") (Some "hello").
Definition sendNothing : gin.RequestBody :=
  gin.Decoded (Some "77001112233") (Some "").

(** ** Notions used in the further properties *)

(** The payload summary of a record of a kind without media. *)
Definition textSummary `{Platform} (msg : option waProto.Message) : string :=
  match classify msg with
  | Text => waProto.GetConversation msg
  | ExtendedText =>
      from_option waProto.GetText "" (waProto.GetExtendedTextMessage msg)
  | Contact =>
      from_option waProto.GetDisplayName "" (waProto.GetContactMessage msg)
  | Location =>
      from_option
        (λ l, "Lat: " +:+ sprintf_f (waProto.GetDegreesLatitude l) +:+
              ", Long: " +:+ sprintf_f (waProto.GetDegreesLongitude l))
        "" (waProto.GetLocationMessage msg)
  | _ => "Unknown message type"
  end.

(** The line the handler logs before it appends such a record. *)
Definition kindNotice (sender : string) (msg : option waProto.Message) : string :=
  match classify msg with
  | Text => "Conversation: " +:+ waProto.GetConversation msg +:+ nl
  | ExtendedText =>
      "Extended Text Message: " +:+
      from_option waProto.GetText "" (waProto.GetExtendedTextMessage msg) +:+ nl
  | Contact => "Received a contact message"
  | Location => "Received a location message"
  | _ => "Received an unhandled message type from " +:+ sender +:+ nl
  end.

(** The line the handler logs once a media part has been downloaded. *)
Definition mediaNotice (m : waProto.Downloadable) : string :=
  match m with
  | waProto.OfImage _ => "Received an image message"
  | waProto.OfVideo _ => "Received a video message"
  | waProto.OfDocument _ => "Received a document message"
  | waProto.OfAudio _ => "Received an audio message"
  end.

Definition mediaLabel (m : waProto.Downloadable) : string :=
  match m with
  | waProto.OfImage _ => "Image"
  | waProto.OfVideo _ => "Video"
  | waProto.OfDocument _ => "Document"
  | waProto.OfAudio _ => "Audio"
  end.

(** The four media branches of [handleReceivedMessage] as one function of
    the media part. *)
Definition handleMedia `{Platform} (env : Env) (sender timestamp : string)
    (m : waProto.Downloadable) : M unit :=
  data ← client_Download env m;
  match data with
  | Err err =>
      log_Print ("Failed to download " +:+ mediaTypeOf m +:+ " data: " +:+ err)
  | Ok data =>
      log_Print (mediaNotice m) ;;
      path ← saveMedia env (mediaTypeOf m) data;
      match path with
      | Err err => log_Print ("Failed to save " +:+ mediaTypeOf m +:+ ": " +:+ err)
      | Ok path =>
          writeToCSV env sender (mediaLabel m) (mediaSummary m path) timestamp
      end
  end.

(** The line with which the handler starts. *)
Definition receivedLine (message : events.Message) : string :=
  "Received message from " +:+ senderOf message +:+ " at " +:+ timestampOf message.

(** The codes among the items of the QR channel, oldest first. *)
Definition codesOf (items : list (Env * QRChannelItem)) : list string :=
  omap (λ item, if decide (Event item.2 = "code") then Some (Code item.2) else None)
       items.

(** The calls that one code causes: it is drawn on the terminal and posted
    to the remote endpoint. *)
Definition codeCalls (code : string) : list Call :=
  [CallRenderTerminal code;
   CallHTTPPost "https://devapi.courstore.com/v1/qr/for_login" "application/json"
     [("qr_code", code)]].



(** The row of one append of the current revision, given its id. *)
Definition entryRow (e : LogEntry) (id : string) : list string :=
  [id; entrySender e; entryKind e; entrySummary e; entryTimestamp e].

(** The first column of the rows below the header. *)
Definition idsOf (rows : list (list string)) : list string :=
  omap head (tail rows).

(** What an append writes to the process log, given the surroundings and
    the contents of the log file: the line of the first step that fails.
    The header is only written to an empty log, and a failure of the final
    flush is not looked at. *)
Definition appendReport (env : Env) (contents : string) : list string :=
  match openFile_fails env with
  | Some e => ["Failed to open CSV file: " +:+ e]
  | None =>
      match stat_fails env with
      | Some e => ["Failed to get file info: " +:+ e]
      | None =>
          match (if decide (contents = "") then writeHeader_fails env else None) with
          | Some e => ["Failed to write headers to CSV file: " +:+ e]
          | None =>
              match writeRecord_fails env with
              | Some e => ["Failed to write to CSV file: " +:+ e]
              | None => []
              end
          end
      end
  end.

(** The world in which [sendMessage] logs a sent message: both calls are
    made, the message id is printed and the clock has been read once. *)
Definition afterSend (env : Env) (jid text : string) (w : World) : World :=
  set_tick S
    (set_printed (λ l, l ++ ["Message sent, ID: " +:+ messageID env])
       (set_calls (λ l, l ++ [CallGenerateMessageID;
                              CallSendMessage (types.NewJID jid "s.whatsapp.net")
                                (textMessage text)]) w)).

(** The line logged when a request has been bound. *)
Definition requestLine (request : gin.SendRequest) : string :=
  "Received request to send message: {" +:+ gin.JID request +:+ " " +:+
  gin.Text request +:+ "}".

(** The calls of one [sendMessage]. *)
Definition sendCalls (jid text : string) : list Call :=
  [CallGenerateMessageID;
   CallSendMessage (types.NewJID jid "s.whatsapp.net") (textMessage text)].

(** The answer to POST /send as a function of the two things it depends
    on; [errorOf] says how the send error enters the body. *)
Definition sendAnswer (errorOf : error → gin.JValue) (env : Env)
    (body : gin.RequestBody) : gin.Response :=
  match gin.ShouldBindJSON body with
  | Err e =>
      {| gin.status := StatusBadRequest;
         gin.body := gin.JSON [("error", gin.JString e)] |}
  | Ok _ =>
      match sendMessage_fails env with
      | Some e =>
          {| gin.status := StatusInternalServerError;
             gin.body := gin.JSON [("error", errorOf e)] |}
      | None =>
          {| gin.status := StatusOK;
             gin.body := gin.JSON [("status", gin.JString "Message sent")] |}
      end
  end.

(** From [w] to [w'] nothing happened but lines written through package
    log. *)
Definition onlyLogged (w w' : World) : Prop :=
  ∃ lines, w' = set_logged (λ l, l ++ lines) w.

(** The answer of GET /csv when the log cannot be parsed. *)
Definition unreadable : gin.Response :=
  {| gin.status := StatusInternalServerError;
     gin.body := gin.JSON [("error", gin.JString "Failed to read CSV file")] |}.

(** A row of the current revision as the reader returns it. *)
Definition readRow (e : LogEntry) (id : string) : list string :=
  [id; unCRLF (entrySender e); unCRLF (entryKind e); unCRLF (entrySummary e);
   unCRLF (entryTimestamp e)].

(** The id of the append that is [i] clock readings away from [w]. *)
Definition idAfter `{Platform} (w : World) (i : nat) : string :=
  fmt.sprintf_d (time.UnixNano (clock (tick w + i))).

(** The ids that the clock readings [ticks] give. *)
Definition idsFrom `{Platform} (ticks : list nat) : list string :=
  (λ t, fmt.sprintf_d (time.UnixNano (clock t))) <$> ticks.

(** The log is well formed and the ids of its records come from clock
    readings that differ from each other and were all taken before now. *)
Definition logTimed `{Platform} (w : World) (rows : list (list string)) : Prop :=
  logHolds mainHeader w rows ∧
  ∃ ticks, idsOf rows = idsFrom ticks ∧
           NoDup ticks ∧ Forall (λ t, t < tick w)%nat ticks.

(** ** Further samples *)



(** As [demoPlatform], but the clock stands still. *)
Definition frozenPlatform : Platform :=
  {| QRCode := string;
     Bitmap := string * Z;
     qrcode_New := λ content,
       if decide (content = "") then Err "no data to encode" else Ok content;
     qr_Image := λ qr size, (qr, size);
     png_Encode := λ img, Ok ("PNG" +:+ fst img);
     sprintf_f := λ bits, fmt.sprintf_d bits;
     clock := λ _, time.mkTime 7 2024 6 9 7 5 3 0 |}.

(** A log with one record of the four-column revision. *)
Definition afterEarlierRow : World :=
  exec (@Earlier.writeToCSV demoPlatform (quietEnv "") "alice" "hi"
          (time.mkTime 0 2024 6 9 7 5 3 0)) emptyWorld.

(** Two codes on the QR channel with a closing event in between. *)
Definition twoCodes : list (Env * QRChannelItem) :=
  [(quietEnv "", {| Event := "code"; Code := "2@first" |});
   (quietEnv "", {| Event := "timeout"; Code := "" |});
   (quietEnv "", {| Event := "code"; Code := "2@second" |})].

(** A text message arrives, a message is sent, the session is reported
    connected and the log is asked for. *)
Definition busyHour : list (Env * Input) :=
  [(quietEnv "", FromClient (EvMessage hiFromAlice));
   (quietEnv "", FromHTTP "POST" "/send" sendToAlice);
   (quietEnv "", FromClient EvConnected);
   (quietEnv "", FromHTTP "GET" "/csv" (gin.Decoded None None))].

(** * The library models on small inputs *)

Example write_header :
  csv.Write mainHeader = "id,phone,type,text,datetime" +:+ nl.
Proof. reflexivity. Qed.

(** A field with a separator, a leading space or a quote is quoted, and a
    quote inside it is doubled. *)
Example write_quoted :
  csv.Write ["a,b"; " x"; "the " +:+ quote +:+ "word" +:+ quote] =
  quote +:+ "a,b" +:+ quote +:+ "," +:+
  quote +:+ " x" +:+ quote +:+ "," +:+
  quote +:+ "the " +:+ quote +:+ quote +:+ "word" +:+ quote +:+ quote +:+ quote +:+ nl.
Proof. reflexivity. Qed.

Example read_quoted_fields :
  csv.ReadAll
    (quote +:+ "the " +:+ quote +:+ quote +:+ "word" +:+ quote +:+ quote +:+
     " is true" +:+ quote +:+ "," +:+
     quote +:+ "Multi-line" +:+ nl +:+ "field" +:+ quote +:+ nl) =
  Some [["the " +:+ quote +:+ "word" +:+ quote +:+ " is true";
         "Multi-line" +:+ nl +:+ "field"]].
Proof. reflexivity. Qed.

(** Lines may end in CR LF, blank lines are skipped, and the last line need
    not end in a line feed. *)
Example read_crlf_lines :
  csv.ReadAll ("a,b" +:+ String CR nl +:+ nl +:+ "c,d" +:+ String CR "") =
  Some [["a"; "b"]; ["c"; "d"]].
Proof. reflexivity. Qed.

Example read_bare_quote : csv.ReadAll ("a" +:+ quote +:+ "b" +:+ nl) = None.
Proof. reflexivity. Qed.

Example read_open_quote : csv.ReadAll (quote +:+ "a,b" +:+ nl) = None.
Proof. reflexivity. Qed.

Example read_uneven_rows : csv.ReadAll ("a,b" +:+ nl +:+ "c" +:+ nl) = None.
Proof. reflexivity. Qed.

Example format_with_zone :
  time.Format_RFC3339 (time.mkTime 0 2024 6 9 7 5 3 (-12600)) =
  "2024-06-09T07:05:03-03:30".
Proof. reflexivity. Qed.

Example format_utc :
  time.Format_RFC3339 (time.mkTime 0 2024 6 9 7 5 3 0) = sampleTime.
Proof. reflexivity. Qed.

Example jid_of_user : types.JID_String alice = "77001112233@s.whatsapp.net".
Proof. reflexivity. Qed.

Example jid_of_device :
  types.JID_String
    {| types.User := "77001112233"; types.RawAgent := 0; types.Device := 12;
       types.Integrator := 0; types.Server := "s.whatsapp.net" |} =
  "77001112233:12@s.whatsapp.net".
Proof. reflexivity. Qed.

Example jid_of_server : types.JID_String (types.NewJID "" "g.us") = "g.us".
Proof. reflexivity. Qed.

Example bind_needs_both :
  gin.ShouldBindJSON (gin.Decoded None (Some "hello")) =
  Err (gin.requiredError "JID").
Proof. reflexivity. Qed.

Example classify_text_first :
  classify (Some (waProto.mkMessage (Some "hi") None
                    (Some {| waProto.ImageURL := None; waProto.ImageCaption := None |})
                    None None None None None)) = Text.
Proof. reflexivity. Qed.

Example classify_nil : classify None = Unknown.
Proof. reflexivity. Qed.

(** * Strings *)

Lemma string_app_nil_l (t : string) : "" +:+ t = t.
Proof. reflexivity. Qed.

Lemma string_app_cons (c : ascii) (s t : string) :
  String c s +:+ t = String c (s +:+ t).
Proof. reflexivity. Qed.

Ltac unfold_app := rewrite ?string_app_cons, ?string_app_nil_l.
Ltac unfold_app_in H := rewrite ?string_app_cons, ?string_app_nil_l in H.

Lemma string_app_nil_r (s : string) : s +:+ "" = s.
Proof. induction s as [|c s IH]; unfold_app; [done | by rewrite IH]. Qed.

Lemma string_app_assoc (a b c : string) : (a +:+ b) +:+ c = a +:+ (b +:+ c).
Proof. induction a as [|x a IH]; unfold_app; [done | by rewrite IH]. Qed.

Lemma string_app_length (a b : string) :
  String.length (a +:+ b) = (String.length a + String.length b)%nat.
Proof. induction a as [|x a IH]; unfold_app; simpl; [done | by rewrite IH]. Qed.

Lemma push_app (buf : string) (c : ascii) (s : string) :
  csv.push buf c +:+ s = buf +:+ String c s.
Proof. unfold csv.push. by rewrite string_app_assoc. Qed.

(** * The CSV reader on the writer's output *)

Section csv_facts.
Import csv.

Lemma normalizeLines_keep c s :
  c ≠ CR → normalizeLines (String c s) = String c (normalizeLines s).
Proof.
  intros Hc. simpl. destruct (Ascii.eqb_spec c CR); [done|]. done.
Qed.

Lemma normalizeLines_CR_LF s :
  normalizeLines (String CR (String LF s)) = normalizeLines (String LF s).
Proof. done. Qed.

Lemma normalizeLines_CR_keep c s :
  c ≠ LF →
  normalizeLines (String CR (String c s)) = String CR (normalizeLines (String c s)).
Proof.
  intros Hc. cbn [normalizeLines].
  change (CR =? CR)%char with true. cbv iota.
  destruct (Ascii.eqb_spec c LF); [done|]. done.
Qed.

Lemma isSpecial_false c :
  isSpecial c = false → c ≠ LF ∧ c ≠ CR ∧ c ≠ dquote ∧ c ≠ comma.
Proof.
  unfold isSpecial. intros Hs.
  repeat (apply orb_false_iff in Hs as [Hs ?]).
  repeat split; intros ->; done.
Qed.

(** A field without special bytes goes through the line normalisation
    unchanged and is read byte by byte. *)
Lemma normalizeLines_plain f tail :
  containsSpecial f = false →
  normalizeLines (f +:+ tail) = f +:+ normalizeLines tail.
Proof.
  induction f as [|c f IH]; [done|]. cbn [containsSpecial].
  intros [Hc Hf]%orb_false_iff. apply isSpecial_false in Hc as (_ & ? & _ & _).
  unfold_app. rewrite normalizeLines_keep by done. by rewrite IH.
Qed.

Lemma unCRLF_plain f : containsSpecial f = false → unCRLF f = f.
Proof.
  induction f as [|c f IH]; [done|]. cbn [containsSpecial].
  intros [Hc Hf]%orb_false_iff. apply isSpecial_false in Hc as (_ & ? & _ & _).
  cbn [unCRLF]. destruct (Ascii.eqb_spec c CR); [done|]. by rewrite IH.
Qed.

Lemma read_plain f : ∀ buf fields rows rest,
  containsSpecial f = false →
  readRecords (Unquoted buf) fields rows (f +:+ rest) =
  readRecords (Unquoted (buf +:+ f)) fields rows rest.
Proof.
  induction f as [|c f IH]; intros buf fields rows rest.
  { intros _. by rewrite string_app_nil_r. }
  cbn [containsSpecial]. intros [Hc Hf]%orb_false_iff.
  apply isSpecial_false in Hc as (? & ? & ? & ?).
  unfold_app. cbn [readRecords].
  destruct (Ascii.eqb_spec c LF); [done|].
  destruct (Ascii.eqb_spec c dquote); [done|].
  destruct (Ascii.eqb_spec c comma); [done|].
  rewrite IH by done. by rewrite push_app.
Qed.

(** The body of a quoted field, up to the closing quote. *)
Lemma read_quoted f : ∀ buf fields rows tail,
  readRecords (Quoted buf) fields rows
    (normalizeLines (escapeQuotes f +:+ String dquote tail)) =
  readRecords (Quoted (buf +:+ unCRLF f)) fields rows
    (normalizeLines (String dquote tail)).
Proof.
  induction f as [|c f IH]; intros buf fields rows tail.
  { cbn [escapeQuotes unCRLF]. unfold_app. by rewrite string_app_nil_r. }
  destruct (Ascii.eqb_spec c dquote) as [->|Hq].
  { cbn [escapeQuotes unCRLF]. change (dquote =? dquote)%char with true.
    change (dquote =? CR)%char with false. cbv iota.
    unfold_app. rewrite !normalizeLines_keep by done.
    cbn [readRecords]. change (dquote =? dquote)%char with true. cbv iota.
    rewrite IH. by rewrite push_app. }
  destruct (Ascii.eqb_spec c CR) as [->|Hr].
  - destruct f as [|c' f].
    + cbn [escapeQuotes unCRLF]. unfold_app.
      change (CR =? dquote)%char with false. change (CR =? CR)%char with true.
      cbv iota. unfold_app.
      rewrite normalizeLines_CR_keep by done.
      cbn [readRecords]. change (CR =? dquote)%char with false. cbv iota.
      done.
    + destruct (Ascii.eqb_spec c' LF) as [->|Hl].
      * specialize (IH buf fields rows tail).
        cbn [escapeQuotes unCRLF] in *.
        change (CR =? dquote)%char with false. change (CR =? CR)%char with true.
        change (LF =? dquote)%char with false in *.
        change (LF =? LF)%char with true. cbv iota in *.
        unfold_app. unfold_app_in IH.
        rewrite normalizeLines_CR_LF. exact IH.
      * specialize (IH (push buf CR) fields rows tail).
        rewrite push_app in IH. 
        replace (unCRLF (String CR (String c' f))) with (String CR (unCRLF (String c' f))).
        2:{ cbn [unCRLF]. change (CR =? CR)%char with true. cbv iota.
            destruct (Ascii.eqb_spec c' LF); done. }
        rewrite <- IH. 
        replace (escapeQuotes (String CR (String c' f)))
          with (String CR (escapeQuotes (String c' f))) by done.
        unfold_app.
        assert (∃ h r, escapeQuotes (String c' f) +:+ String dquote tail = String h r ∧
                       h ≠ LF) as (h & r & -> & Hh).
        { cbn [escapeQuotes]. destruct (Ascii.eqb_spec c' dquote); unfold_app; eauto. }
        rewrite normalizeLines_CR_keep by done.
        cbn [readRecords]. change (CR =? dquote)%char with false. cbv iota. done.
  - replace (escapeQuotes (String c f)) with (String c (escapeQuotes f)).
    2:{ cbn [escapeQuotes]. destruct (Ascii.eqb_spec c dquote); done. }
    replace (unCRLF (String c f)) with (String c (unCRLF f)).
    2:{ cbn [unCRLF]. destruct (Ascii.eqb_spec c CR); done. }
    unfold_app. rewrite normalizeLines_keep by done.
    cbn [readRecords]. destruct (Ascii.eqb_spec c dquote); [done|].
    rewrite IH. by rewrite push_app.
Qed.


Lemma containsSpecial_false_inv c f :
  containsSpecial (String c f) = false →
  c ≠ LF ∧ c ≠ CR ∧ c ≠ dquote ∧ c ≠ comma ∧ containsSpecial f = false.
Proof.
  cbn [containsSpecial]. intros [Hc Hf]%orb_false_iff.
  apply isSpecial_false in Hc as (? & ? & ? & ?). done.
Qed.

(** A field as written, followed by a separator, read after a comma. *)
Lemma read_field f sep fields rows rest :
  sep = comma ∨ sep = LF →
  readRecords FieldStart fields rows
    (normalizeLines (writeField f +:+ String sep rest)) =
  afterField sep (unCRLF f) fields rows (normalizeLines rest).
Proof.
  intros Hsep. assert (sep ≠ CR) by (destruct Hsep as [-> | ->]; done).
  unfold writeField, fieldNeedsQuotes.
  destruct (decide (f = "")) as [->|Hne].
  { unfold_app. rewrite normalizeLines_keep by done. cbn [readRecords unCRLF].
    unfold afterField. destruct Hsep as [-> | ->]; done. }
  assert (Hquoted :
    readRecords FieldStart fields rows
      (normalizeLines ((quote +:+ escapeQuotes f +:+ quote) +:+ String sep rest)) =
    afterField sep (unCRLF f) fields rows (normalizeLines rest)).
  { unfold quote. rewrite !string_app_assoc. unfold_app.
    rewrite normalizeLines_keep by done. cbn [readRecords].
    change (dquote =? LF)%char with false. change (dquote =? dquote)%char with true.
    cbv iota. rewrite read_quoted. unfold_app.
    rewrite !normalizeLines_keep by done. cbn [readRecords].
    change (dquote =? dquote)%char with true. cbv iota.
    unfold afterField. destruct Hsep as [-> | ->]; done. }
  destruct (decide (f = "\.")); [done|].
  destruct (containsSpecial f) eqn:Hsp; [done|].
  destruct (startsWithSpace f); [done|].
  rewrite normalizeLines_plain by done. rewrite (unCRLF_plain f) by done.
  destruct f as [|c f]; [done|].
  apply containsSpecial_false_inv in Hsp as (? & ? & ? & ? & Hf).
  unfold_app. cbn [readRecords].
  destruct (Ascii.eqb_spec c LF); [done|].
  destruct (Ascii.eqb_spec c dquote); [done|].
  destruct (Ascii.eqb_spec c comma); [done|].
  rewrite read_plain by done. rewrite normalizeLines_keep by done.
  cbn [readRecords]. unfold afterField. unfold_app.
  destruct Hsep as [-> | ->]; done.
Qed.

(** The same at the start of a record; only an empty field directly
    followed by the end of the line is read differently (as a blank
    line). *)
Lemma read_first_field f sep rows rest :
  sep = comma ∨ (sep = LF ∧ f ≠ "") →
  readRecords RecordStart [] rows
    (normalizeLines (writeField f +:+ String sep rest)) =
  afterField sep (unCRLF f) [] rows (normalizeLines rest).
Proof.
  intros Hsep.
  assert (Hsep' : sep = comma ∨ sep = LF) by (destruct Hsep as [|[]]; auto).
  rewrite <- read_field by done.
  assert (∃ c s, writeField f +:+ String sep rest = String c s ∧
                 c ≠ CR ∧ c ≠ LF) as (c & s & -> & Hc & Hl).
  { unfold writeField, fieldNeedsQuotes.
    destruct (decide (f = "")) as [->|Hne].
    { unfold_app. exists sep, rest. destruct Hsep as [->|[-> ?]]; done. }
    destruct f as [|c f]; [done|].
    destruct (decide (String c f = "\.")).
    { unfold quote. unfold_app. eauto. }
    destruct (containsSpecial (String c f)) eqn:Hsp.
    { unfold quote. unfold_app. eauto. }
    apply containsSpecial_false_inv in Hsp as (? & ? & _).
    destruct (startsWithSpace (String c f)).
    { unfold quote. unfold_app. eauto. }
    unfold_app. eauto. }
  rewrite normalizeLines_keep by done. cbn [readRecords].
  destruct (Ascii.eqb_spec c LF); done.
Qed.

Lemma writeFields_cons f g fs :
  writeFields (f :: g :: fs) = writeField f +:+ String comma (writeFields (g :: fs)).
Proof. done. Qed.

Lemma read_fields fs : ∀ fields rows rest,
  fs ≠ [] →
  readRecords FieldStart fields rows
    (normalizeLines (writeFields fs +:+ String LF rest)) =
  readRecords RecordStart [] (rows ++ [fields ++ map unCRLF fs])
    (normalizeLines rest).
Proof.
  induction fs as [|f fs IH]; intros fields rows rest Hne; [done|].
  destruct fs as [|g fs].
  - cbn [writeFields map]. rewrite read_field by auto. done.
  - rewrite writeFields_cons, string_app_assoc. unfold_app.
    rewrite read_field by auto. unfold afterField.
    change (comma =? comma)%char with true. cbv iota.
    rewrite IH by done. cbn [map]. by rewrite <- app_assoc.
Qed.

(** One record as written, with anything after it. *)
Lemma read_record r rows rest :
  (2 ≤ length r)%nat →
  readRecords RecordStart [] rows (normalizeLines (Write r +:+ rest)) =
  readRecords RecordStart [] (rows ++ [map unCRLF r]) (normalizeLines rest).
Proof.
  destruct r as [|f [|g fs]]; cbn [length]; [lia | lia | intros _].
  unfold Write, nl. rewrite writeFields_cons, !string_app_assoc. unfold_app.
  rewrite read_first_field by auto. unfold afterField.
  change (comma =? comma)%char with true. cbv iota.
  rewrite read_fields by done. done.
Qed.

Lemma read_writtenLog rs : ∀ rows,
  Forall (λ r, 2 ≤ length r)%nat rs →
  readRecords RecordStart [] rows (normalizeLines (writtenLog rs)) =
  Some (rows ++ map (map unCRLF) rs).
Proof.
  induction rs as [|r rs IH]; intros rows Hrs.
  { cbn. by rewrite app_nil_r. }
  apply Forall_cons in Hrs as [Hr Hrs]. cbn [writtenLog map].
  rewrite read_record by done. rewrite IH by done.
  by rewrite <- app_assoc.
Qed.

Lemma fieldCountsAgree_same n rows :
  Forall (λ r, length r = n) rows → fieldCountsAgree rows = true.
Proof.
  destruct rows as [|first others]; [done|].
  intros [Hf Ho]%Forall_cons. cbn [fieldCountsAgree].
  apply forallb_forall. intros r Hr%list_elem_of_In.
  rewrite Forall_forall in Ho. apply Nat.eqb_eq. rewrite Hf. by apply Ho.
Qed.

(** Reading back a log that consists of written records of one width. *)
Lemma ReadAll_writtenLog n rs :
  (2 ≤ n)%nat → Forall (λ r, length r = n) rs →
  ReadAll (writtenLog rs) = Some (map (map unCRLF) rs).
Proof.
  intros Hn Hrs. unfold ReadAll.
  rewrite read_writtenLog.
  2:{ eapply Forall_impl; [done|]. cbn. intros r ->. done. }
  cbn [app]. rewrite (fieldCountsAgree_same n); [done|].
  apply Forall_fmap. eapply Forall_impl; [done|].
  cbn. intros r <-. apply length_map.
Qed.

End csv_facts.

(** * The program's effects *)

Ltac sim := cbn -[lookup insert union singleton pretty].
Ltac run :=
  unfold exec, eval, mbind, M_bind, mret, M_ret, modify, gets,
    log_Print, fmt_Print, record_call, time_Now; sim.

Section program_facts.
Context `{Platform}.

Lemma length_zero_iff (s : string) : String.length s = 0%nat ↔ s = "".
Proof. destruct s; cbn; split; done. Qed.

Lemma appendToCSV_works env header row w :
  logWorks env →
  exec (appendToCSV env header row) w =
  set_tick S (set_files (λ _, appendedFiles header row w) w).
Proof.
  intros (Ho & Hs & Hh & Hr & Hf).
  unfold exec, appendToCSV, os.OpenFile_append, os.Stat_Size,
    csvWriter.Write, csvWriter.Flush, os.append.
  rewrite Ho, Hs, Hh, Hr. run.
  unfold appendedFiles, logContents, headerIfEmpty, set_tick, set_files. sim.
  destruct (files w !! csvFilePath) as [old|] eqn:Hold; sim.
  - rewrite Hold. sim.
    destruct (decide (String.length old = 0%nat)) as [Hz|Hz];
      destruct (decide (old = "")) as [He|He];
      try (apply length_zero_iff in Hz; done);
      try (apply length_zero_iff in He; done); run; rewrite Hf; run;
      by rewrite ?Hold.
  - rewrite lookup_insert_eq. sim. run.
    case_decide; [|done]. sim. rewrite Hf. run. rewrite lookup_insert_eq. sim.
    by rewrite insert_insert_eq.
Qed.

Lemma appendToCSV_any env header row w :
  let w' := exec (appendToCSV env header row) w in
  calls w' = calls w ∧ dirs w' = dirs w ∧ printed w' = printed w ∧
  (∀ name, name ≠ csvFilePath → files w' !! name = files w !! name) ∧
  (logContents w' = logContents w ∨ files w' = appendedFiles header row w).
Proof.
  destruct (openFile_fails env) as [e|] eqn:Ho.
  { unfold exec, appendToCSV, os.OpenFile_append. rewrite Ho. run. auto 10. }
  destruct (stat_fails env) as [e|] eqn:Hs;
  destruct (writeHeader_fails env) as [e1|] eqn:Hh;
  destruct (writeRecord_fails env) as [e2|] eqn:Hr;
  destruct (flush_fails env) eqn:Hf;
  try (rewrite appendToCSV_works by done; sim;
       unfold appendedFiles; repeat split; auto;
       intros name Hn; by rewrite lookup_insert_ne);
  unfold exec, appendToCSV, os.OpenFile_append, os.Stat_Size,
    csvWriter.Write, csvWriter.Flush, os.append;
  rewrite Ho, Hs, ?Hh, ?Hr, ?Hf; run; unfold logContents; sim;
  destruct (files w !! csvFilePath) as [old|] eqn:Hold; sim;
  rewrite ?Hold, ?lookup_insert_eq; sim;
  repeat case_decide; sim; run; rewrite ?Hf; run;
  rewrite ?Hold, ?lookup_insert_eq, ?string_app_nil_r; sim;
  repeat split; auto;
    try (intros name Hn; rewrite ?lookup_insert_ne by done; done);
    try (left; rewrite ?lookup_insert_eq, ?Hold; done).
  right. unfold appendedFiles, logContents, headerIfEmpty. rewrite Hold. sim.
  case_decide; [subst; done | done].
Qed.

(** Each revision of [writeToCSV] is that function at its header and row. *)
Lemma writeToCSV_shape env sender messageType message timestamp :
  writeToCSV env sender messageType message timestamp =
  appendToCSV env mainHeader (λ id, [id; sender; messageType; message; timestamp]).
Proof. reflexivity. Qed.

Lemma earlier_writeToCSV_shape env sender message timestamp :
  Earlier.writeToCSV env sender message timestamp =
  appendToCSV env earlierHeader
    (λ id, [id; sender; message; time.Format_RFC3339 timestamp]).
Proof. reflexivity. Qed.

Lemma media_path_not_log mediaType tail :
  ("media/" +:+ mediaType) +:+ tail ≠ csvFilePath.
Proof. unfold csvFilePath. unfold_app. done. Qed.

Lemma saveMedia_works env mediaType data w :
  mkdirAll_fails env = None → writeFile_fails env = None →
  let path := mediaPath mediaType (clock (tick w)) in
  saveMedia env mediaType data w =
  (Ok path,
   set_logged (λ l, l ++ ["Saved media file: " +:+ path])
     (set_files <[path := data]>
        (set_tick S (set_dirs (λ d, {[ "media/" +:+ mediaType ]} ∪ d) w)))).
Proof.
  intros Hm Hw. unfold saveMedia, os.MkdirAll, os.WriteFile.
  rewrite Hm, Hw. run. done.
Qed.

Lemma saveMedia_fails env mediaType data w :
  is_Some (mkdirAll_fails env) ∨ is_Some (writeFile_fails env) →
  ∃ e w', saveMedia env mediaType data w = (Err e, w') ∧
          files w' = files w ∧ calls w' = calls w.
Proof.
  unfold saveMedia, os.MkdirAll, os.WriteFile.
  destruct (mkdirAll_fails env) as [e|]; run; [eauto|].
  intros [[? [=]]|[e He]]. rewrite He. run. eauto.
Qed.
End program_facts.

Section handler_facts.
Context `{Platform}.
Local Arguments writeToCSV : simpl never.
Local Arguments saveMedia : simpl never.

Ltac media_branch env m :=
  let data := fresh "data" in
  let e := fresh "e" in
  let Hd := fresh "Hd" in
  let Hm := fresh "Hm" in
  let Hw := fresh "Hw" in
  run; unfold client_Download, mediaFails, mediaWorks; run;
  destruct (download env m) as [data|e] eqn:Hd;
  [ run;
    destruct (mkdirAll_fails env) as [e|] eqn:Hm;
    [ left; unfold saveMedia, os.MkdirAll; rewrite Hm; run;
      split_and!; eauto
    | destruct (writeFile_fails env) as [e|] eqn:Hw;
      [ left; unfold saveMedia, os.MkdirAll, os.WriteFile; rewrite Hm, Hw; run;
        split_and!; eauto
      | right; split; [eauto|]; rewrite saveMedia_works by done;
        eexists _, data; split_and!; [done| | | | reflexivity]; done ] ]
  | left; run; eauto 10 ].

Lemma handle_outcome env message w :
  let msg := events.Message_ message in
  let w' := exec (handleReceivedMessage env message) w in
  match mediaOf msg with
  | None =>
      ∃ w1 summary,
        files w1 = files w ∧ calls w1 = calls w ∧ tick w1 = tick w ∧
        w' = exec (writeToCSV env (senderOf message) (kindLabel (classify msg))
                     summary (timestampOf message)) w1
  | Some m =>
      let path := mediaPath (mediaTypeOf m) (clock (tick w)) in
      (mediaFails env m ∧ files w' = files w ∧
       calls w' = calls w ++ [CallDownload m]) ∨
      (mediaWorks env m ∧
       ∃ w1 data,
         download env m = Ok data ∧
         files w1 = <[path := data]> (files w) ∧
         calls w1 = calls w ++ [CallDownload m] ∧
         tick w1 = S (tick w) ∧
         w' = exec (writeToCSV env (senderOf message) (kindLabel (classify msg))
                      (mediaSummary m path) (timestampOf message)) w1)
  end.
Proof.
  destruct message as [[sender ts] msg].
  unfold handleReceivedMessage, senderOf, timestampOf.
  cbn [events.Message_ events.Info events.Sender events.Timestamp].
  unfold mediaOf, classify, precedence. cbn [firstSatisfied satisfies].
  destruct (decide (waProto.GetConversation msg ≠ "")) as [Hc|Hc].
  { rewrite bool_decide_true by done. run. eexists _, _.
    split_and!; [| | |reflexivity]; done. }
  rewrite (bool_decide_false _ Hc).
  destruct (waProto.GetExtendedTextMessage msg) as [e|] eqn:He.
  { run. eexists _, _. split_and!; [| | |reflexivity]; done. }
  destruct (waProto.GetImageMessage msg) as [im|] eqn:Him.
  { media_branch env (waProto.OfImage im). }
  destruct (waProto.GetVideoMessage msg) as [vm|] eqn:Hvm.
  { media_branch env (waProto.OfVideo vm). }
  destruct (waProto.GetDocumentMessage msg) as [dm|] eqn:Hdm.
  { media_branch env (waProto.OfDocument dm). }
  destruct (waProto.GetAudioMessage msg) as [am|] eqn:Ham.
  { media_branch env (waProto.OfAudio am). }
  destruct (waProto.GetContactMessage msg) as [cm|] eqn:Hcm.
  { run. eexists _, _. split_and!; [| | |reflexivity]; done. }
  destruct (waProto.GetLocationMessage msg) as [lm|] eqn:Hlm.
  { run. eexists _, _. split_and!; [| | |reflexivity]; done. }
  run. eexists _, _. split_and!; [| | |reflexivity]; done.
Qed.
End handler_facts.

(** * Decimal output and the shape of the log *)

Lemma numeric_pretty_N_char x : numeric (pretty_N_char x) = true.
Proof. unfold pretty_N_char. by repeat case_match. Qed.

Lemma allNumeric_pretty_N_go x : ∀ s,
  allNumeric s = true → allNumeric (pretty_N_go x s) = true.
Proof.
  induction (N.lt_wf_0 x) as [x _ IH]; intros s Hs.
  assert (x = 0 ∨ 0 < x)%N as [->|Hx] by lia.
  - by rewrite pretty_N_go_0.
  - rewrite pretty_N_go_step by done. apply IH.
    + by apply N.div_lt.
    + cbn [allNumeric]. by rewrite numeric_pretty_N_char.
Qed.

Lemma allNumeric_pretty_N (x : N) : allNumeric (pretty x) = true.
Proof.
  unfold pretty, pretty_N. case_decide; [done|].
  by apply allNumeric_pretty_N_go.
Qed.

Lemma allNumeric_sprintf_d (z : Z) : allNumeric (fmt.sprintf_d z) = true.
Proof.
  unfold fmt.sprintf_d, pretty, pretty_Z. destruct z as [|p|p]; [done| |].
  - apply (allNumeric_pretty_N (N.pos p)).
  - unfold_app. cbn [allNumeric]. 
    change (numeric "-") with true. apply (allNumeric_pretty_N (N.pos p)).
Qed.

Lemma numeric_not_special c : numeric c = true → csv.isSpecial c = false.
Proof. destruct c as [[] [] [] [] [] [] [] []]; done. Qed.

Lemma allNumeric_plain s : allNumeric s = true → csv.containsSpecial s = false.
Proof.
  induction s as [|c s IH]; [done|]. cbn [allNumeric csv.containsSpecial].
  intros [Hc Hs]%andb_true_iff. by rewrite numeric_not_special, IH.
Qed.

Lemma unCRLF_sprintf_d z : unCRLF (fmt.sprintf_d z) = fmt.sprintf_d z.
Proof. apply unCRLF_plain, allNumeric_plain, allNumeric_sprintf_d. Qed.

Lemma sprintf_d_not_id z : fmt.sprintf_d z ≠ "id".
Proof. intros Heq. pose proof (allNumeric_sprintf_d z) as Hn. by rewrite Heq in Hn. Qed.

Lemma freeOfCRLF_unCRLF f : freeOfCRLF f = true → unCRLF f = f.
Proof.
  induction f as [|c f IH]; [done|]. cbn [freeOfCRLF unCRLF].
  destruct f as [|c' f]; [by destruct (c =? CR)%char|].
  intros [Hc Hf]%andb_true_iff. rewrite (IH Hf).
  destruct (c =? CR)%char; [|done]. destruct (c' =? LF)%char; done.
Qed.

Lemma writtenLog_app a b : writtenLog (a ++ b) = writtenLog a +:+ writtenLog b.
Proof.
  induction a as [|r a IH]; [done|]. cbn [app writtenLog].
  by rewrite IH, string_app_assoc.
Qed.

Section log_facts.
Context `{Platform}.

Lemma logHolds_same header w w' rows :
  logContents w' = logContents w → logHolds header w rows → logHolds header w' rows.
Proof. unfold logHolds. by intros ->. Qed.

(** An append that went through keeps the log well formed and adds one row. *)
Lemma appended_logHolds header row w w' rows :
  files w' = appendedFiles header row w →
  logHolds header w rows →
  (∀ id, length (row id) = length header) →
  logHolds header w' (seeded header rows ++ [row (idAt w)]).
Proof.
  intros Hf Hlog Hlen.
  unfold logHolds, logContents. rewrite Hf. unfold appendedFiles.
  rewrite lookup_insert_eq. cbn [default from_option id].
  right. destruct Hlog as [[-> Hc]|(records & -> & Hall & Hc)].
  - exists [row (idAt w)]. rewrite Hc. unfold headerIfEmpty.
    rewrite decide_True by done. cbn [seeded app writtenLog].
    split_and!; [done| |by rewrite string_app_nil_r].
    constructor; [apply Hlen|constructor].
  - exists (records ++ [row (idAt w)]). split_and!; [done| |].
    + apply Forall_app; split; [done|]. constructor; [apply Hlen|constructor].
    + rewrite Hc. unfold headerIfEmpty. rewrite decide_False.
      2:{ cbn [writtenLog]. unfold csv.Write.
          destruct (csv.writeFields header); done. }
      unfold_app. cbn [seeded].
      change (header :: records ++ [row (idAt w)])
        with ((header :: records) ++ [row (idAt w)]).
      rewrite writtenLog_app. cbn [writtenLog]. by rewrite string_app_nil_r.
Qed.

Lemma appendToCSV_logHolds env header row w rows :
  logHolds header w rows →
  (∀ id, length (row id) = length header) →
  let w' := exec (appendToCSV env header row) w in
  (logWorks env → logHolds header w' (seeded header rows ++ [row (idAt w)])) ∧
  (logHolds header w' rows ∨
   logHolds header w' (seeded header rows ++ [row (idAt w)])).
Proof.
  intros Hlog Hlen w'. split.
  - intros Hw. apply appended_logHolds; [|done..].
    subst w'. by rewrite appendToCSV_works.
  - destruct (appendToCSV_any env header row w) as (_ & _ & _ & _ & [Hsame|Happ]).
    + left. by apply (logHolds_same header w).
    + right. by apply appended_logHolds.
Qed.

End log_facts.

(** * The handler and the log *)

Lemma firstSatisfied_first msg order :
  (∃ k, k ∈ order ∧ satisfies msg k = true) →
  ∃ j, order !! j = Some (firstSatisfied msg order) ∧
       satisfies msg (firstSatisfied msg order) = true ∧
       ∀ i k', (i < j)%nat → order !! i = Some k' → satisfies msg k' = false.
Proof.
  induction order as [|k order IH]; intros (k0 & Hin & Hk0).
  { by apply elem_of_nil in Hin. }
  cbn [firstSatisfied]. destruct (satisfies msg k) eqn:Hk.
  - exists 0%nat. split_and!; [done|done|]. intros i k' Hi. lia.
  - destruct IH as (j & Hj & Hs & Hmin).
    { apply elem_of_cons in Hin as [->|Hin]; [congruence|eauto]. }
    exists (S j). split_and!; [done|done|].
    intros [|i] k' Hi Hlook; cbn in Hlook.
    + by injection Hlook as <-.
    + apply (Hmin i); [lia|done].
Qed.

Lemma precedence_NoDup : NoDup precedence.
Proof. compute_done. Qed.

Lemma classify_first msg :
  satisfies msg (classify msg) = true ∧
  ∀ k, precedes k (classify msg) → satisfies msg k = false.
Proof.
  destruct (firstSatisfied_first msg precedence) as (j & Hj & Hs & Hmin).
  { exists Unknown. split; [|done]. compute_done. }
  split; [done|]. intros k (i & j' & Hi & Hj' & Hlt).
  assert (j' = j) as -> by (eapply NoDup_lookup; eauto using precedence_NoDup).
  by apply (Hmin i).
Qed.

Section log_of_handler.
Context `{Platform}.

Lemma logContents_frame w1 w :
  files w1 !! csvFilePath = files w !! csvFilePath → logContents w1 = logContents w.
Proof. unfold logContents. by intros ->. Qed.

Lemma appended_rowAppended header row w1 w w' :
  logContents w1 = logContents w →
  files w' = appendedFiles header row w1 →
  rowAppended header w w' (row (fmt.sprintf_d (time.UnixNano (clock (tick w1))))).
Proof.
  intros Hc Hf. unfold rowAppended. rewrite <- Hc.
  unfold logContents at 1. rewrite Hf. unfold appendedFiles.
  by rewrite lookup_insert_eq.
Qed.

(** One run of [writeToCSV], whatever the surroundings: the log keeps its
    contents or gains exactly the row. *)
Lemma writeToCSV_log env sender kind summary ts w1 w :
  logContents w1 = logContents w →
  let w' := exec (writeToCSV env sender kind summary ts) w1 in
  logContents w' = logContents w ∨
  rowAppended mainHeader w w' [idAt w1; sender; kind; summary; ts].
Proof.
  intros Hc w'.
  destruct (appendToCSV_any env mainHeader
    (λ id, [id; sender; kind; summary; ts]) w1) as (_ & _ & _ & _ & [Hsame|Happ]).
  - left. rewrite <- Hc. exact Hsame.
  - right. exact (appended_rowAppended mainHeader
      (λ id, [id; sender; kind; summary; ts]) w1 w w' Hc Happ).
Qed.

Lemma writeToCSV_log_works env sender kind summary ts w1 w :
  logWorks env → logContents w1 = logContents w →
  rowAppended mainHeader w (exec (writeToCSV env sender kind summary ts) w1)
    [idAt w1; sender; kind; summary; ts].
Proof.
  intros Hw Hc.
  apply (appended_rowAppended mainHeader
    (λ id, [id; sender; kind; summary; ts]) w1 w _ Hc).
  rewrite writeToCSV_shape. by rewrite appendToCSV_works.
Qed.

Lemma media_stored_log w1 w path data :
  files w1 = <[path := data]> (files w) →
  (∃ mediaType tail, path = ("media/" +:+ mediaType) +:+ tail) →
  logContents w1 = logContents w.
Proof.
  intros Hf (mediaType & tail & ->). apply logContents_frame. rewrite Hf.
  apply lookup_insert_ne, media_path_not_log.
Qed.

Lemma mediaPath_shape mediaType now :
  ∃ mediaType' tail, mediaPath mediaType now = ("media/" +:+ mediaType') +:+ tail.
Proof. unfold mediaPath. eauto. Qed.

(** What one run of the handler does to the log, whatever the
    surroundings: nothing, or one row of the classified kind. *)
Lemma handle_log env message w :
  let msg := events.Message_ message in
  let w' := exec (handleReceivedMessage env message) w in
  logContents w' = logContents w ∨
  ∃ id summary,
    rowAppended mainHeader w w'
      [id; senderOf message; kindLabel (classify msg); summary; timestampOf message].
Proof.
  intros msg w'. pose proof (handle_outcome env message w) as Hout.
  cbv zeta in Hout. fold msg w' in Hout.
  destruct (mediaOf msg) as [m|].
  - destruct Hout as [(_ & Hf & _)|(_ & w1 & data & _ & Hf & _ & _ & Hw')].
    { left. apply logContents_frame. by rewrite Hf. }
    rewrite Hw'.
    edestruct writeToCSV_log as [Hsame|Happ]; [|left; exact Hsame|right; eauto].
    eapply media_stored_log; [done|apply mediaPath_shape].
  - destruct Hout as (w1 & summary & Hf & _ & _ & Hw').
    rewrite Hw'.
    edestruct writeToCSV_log as [Hsame|Happ]; [|left; exact Hsame|right; eauto].
    apply logContents_frame. by rewrite Hf.
Qed.

(** With a working log and working media handling the row is there. *)
Lemma handle_log_works env message w :
  let msg := events.Message_ message in
  let w' := exec (handleReceivedMessage env message) w in
  logWorks env →
  (∀ m, mediaOf msg = Some m → mediaWorks env m) →
  ∃ id summary,
    rowAppended mainHeader w w'
      [id; senderOf message; kindLabel (classify msg); summary; timestampOf message].
Proof.
  intros msg w' Hlog Hmedia. pose proof (handle_outcome env message w) as Hout.
  cbv zeta in Hout. fold msg w' in Hout.
  destruct (mediaOf msg) as [m|].
  - destruct Hout as [(Hfail & _)|(_ & w1 & data & _ & Hf & _ & _ & Hw')].
    { exfalso. destruct (Hmedia m eq_refl) as ((data & Hd) & Hm & Hwf).
      destruct Hfail as [(e & He)|[[e He]|[e He]]]; congruence. }
    eexists _, _. rewrite Hw'. apply writeToCSV_log_works; [done|].
    eapply media_stored_log; [done|apply mediaPath_shape].
  - destruct Hout as (w1 & summary & Hf & _ & _ & Hw').
    eexists _, _. rewrite Hw'. apply writeToCSV_log_works; [done|].
    apply logContents_frame. by rewrite Hf.
Qed.

End log_of_handler.

Section runs_of_appends.
Context `{Platform}.

Lemma seeded_app_seeded header rows more :
  seeded header (seeded header rows ++ more) = seeded header rows ++ more.
Proof. destruct rows; done. Qed.

Lemma exec_bind {A B} (m : M A) (k : A → M B) w :
  exec (m ≫= k) w = exec (k (eval m w)) (exec m w).
Proof. unfold exec, eval, mbind, M_bind. by destruct (m w). Qed.

(** A run of appends keeps the log well formed; it adds at most one row per
    append, exactly one if every append works, each led by a decimal id. *)
Lemma runAll_logHolds {A} header (rowOf : A → string → list string)
    (entries : list (Env * A)) : ∀ w rows,
  (∀ a id, length (rowOf a id) = length header) →
  logHolds header w rows →
  ∃ recs,
    (length recs ≤ length entries)%nat ∧
    (Forall (λ e, logWorks e.1) entries → length recs = length entries) ∧
    Forall (λ r, ∃ a z, r = rowOf a (fmt.sprintf_d z)) recs ∧
    logHolds header
      (exec (runAll (λ env a, appendToCSV env header (rowOf a)) entries) w)
      (match recs with [] => rows | _ => seeded header rows ++ recs end).
Proof.
  induction entries as [|[env a] entries IH]; intros w rows Hlen Hlog.
  { exists []. split_and!; [done|done|constructor|done]. }
  cbn [runAll]. rewrite exec_bind.
  destruct (appendToCSV_logHolds env header (rowOf a) w rows Hlog (Hlen a))
    as (Hworks1 & Hany).
  set (w1 := exec (appendToCSV env header (rowOf a)) w) in *.
  assert (Hgrown : logHolds header w1 (seeded header rows ++ [rowOf a (idAt w)]) →
    ∃ recs,
      (length recs ≤ length ((env, a) :: entries))%nat ∧
      (Forall (λ e, logWorks e.1) ((env, a) :: entries) →
       length recs = length ((env, a) :: entries)) ∧
      Forall (λ r, ∃ a z, r = rowOf a (fmt.sprintf_d z)) recs ∧
      logHolds header
        (exec (runAll (λ env a, appendToCSV env header (rowOf a)) entries) w1)
        (match recs with [] => rows | _ => seeded header rows ++ recs end)).
  { intros Hlog1. destruct (IH _ _ Hlen Hlog1) as (recs & Hle & Heq & Hids & Hfin).
    exists (rowOf a (idAt w) :: recs). split_and!.
    - cbn [length]. lia.
    - intros [_ Hw]%Forall_cons. cbn [length]. by rewrite Heq.
    - constructor; [unfold idAt; eauto|done].
    - destruct recs as [|r recs]; [exact Hfin|].
      rewrite seeded_app_seeded, <- app_assoc in Hfin. exact Hfin. }
  destruct (decide (logWorks env)) as [Hw|Hnw]; [by apply Hgrown, Hworks1|].
  destruct Hany as [Hsame|Hlog1]; [|by apply Hgrown].
  destruct (IH _ _ Hlen Hsame) as (recs & Hle & Heq & Hids & Hfin).
  exists recs. split_and!; [cbn [length]; lia| |done|done].
  intros [Hw _]%Forall_cons. done.
Qed.

Lemma logHolds_read header w rows :
  (2 ≤ length header)%nat → rows ≠ [] → logHolds header w rows →
  ∃ recs, rows = header :: recs ∧
    csv.ReadAll (logContents w) = Some (map (map unCRLF) rows).
Proof.
  intros Hn Hne [[-> _]|(recs & -> & Hall & Hc)]; [done|].
  exists recs. split; [done|]. rewrite Hc.
  apply (ReadAll_writtenLog (length header)); [done|].
  constructor; done.
Qed.

Lemma header_not_among {A} (rowOf : A → string → list string) header tail recs :
  header = "id" :: tail →
  (∀ a id, ∃ rest, rowOf a id = id :: rest) →
  Forall (λ r, ∃ a z, r = rowOf a (fmt.sprintf_d z)) recs →
  header ∉ map (map unCRLF) recs.
Proof.
  intros -> Hrow Hrecs Hin. apply list_elem_of_fmap in Hin as (r & Hr & Hin).
  rewrite Forall_forall in Hrecs. destruct (Hrecs r Hin) as (a & z & ->).
  destruct (Hrow a (fmt.sprintf_d z)) as (rest & Hrest). rewrite Hrest in Hr.
  cbn [map] in Hr. injection Hr as Hid _. rewrite unCRLF_sprintf_d in Hid.
  by apply (sprintf_d_not_id z).
Qed.

(** From an empty log, a run of appends leaves the log empty or with the
    header first and nowhere else; if every append works there is one row
    per append. *)
Lemma runAll_header_once {A} header tail (rowOf : A → string → list string)
    (entries : list (Env * A)) w :
  header = "id" :: tail → tail ≠ [] → map unCRLF header = header →
  (∀ a id, ∃ rest, rowOf a id = id :: rest ∧ length rest = length tail) →
  logContents w = "" →
  let w' := exec (runAll (λ env a, appendToCSV env header (rowOf a)) entries) w in
  (logContents w' = "" ∨
   ∃ rows, readsAs header (logContents w') rows ∧
           (length rows ≤ length entries)%nat) ∧
  (entries ≠ [] → Forall (λ e, logWorks e.1) entries →
   ∃ rows, readsAs header (logContents w') rows ∧ length rows = length entries).
Proof.
  intros Hh Htail Hplain Hrow Hempty w'.
  assert (Hlen : ∀ a id, length (rowOf a id) = length header).
  { intros a id. destruct (Hrow a id) as (rest & -> & Hl). subst header. cbn. lia. }
  assert (Hwide : (2 ≤ length header)%nat).
  { subst header. destruct tail; [done|]. cbn. lia. }
  destruct (runAll_logHolds header rowOf entries w [] Hlen) as
    (recs & Hle & Heq & Hids & Hfin).
  { left. done. }
  fold w' in Hfin.
  assert (Hgrown : recs ≠ [] →
    readsAs header (logContents w') (map (map unCRLF) recs)).
  { intros Hne. destruct recs as [|r recs]; [done|]. cbn [seeded app] in Hfin.
    apply logHolds_read in Hfin as (recs' & [= <-] & Hread); [|done|done].
    split.
    - rewrite Hread. cbn [map]. by rewrite Hplain.
    - eapply header_not_among; [done| |done].
      intros a id. destruct (Hrow a id) as (rest & -> & _). eauto. }
  split.
  - destruct recs as [|r recs].
    + left. destruct Hfin as [[_ Hc]|(records & [=] & _)]. done.
    + right. eexists. split; [by apply Hgrown|]. by rewrite length_map.
  - intros Hne Hworks. specialize (Heq Hworks).
    eexists. split; [apply Hgrown|by rewrite length_map].
    intros ->. destruct entries; done.
Qed.

End runs_of_appends.

(** * The claims *)

Section claims.
Context `{Platform}.

Lemma mediaFails_not_works env m : mediaFails env m → mediaWorks env m → False.
Proof.
  intros [(e & He)|[[e He]|[e He]]] ((data & Hd) & Hm & Hw); congruence.
Qed.

Lemma writeToCSV_calls env sender kind summary ts w :
  calls (exec (writeToCSV env sender kind summary ts) w) = calls w.
Proof.
  by destruct (appendToCSV_any env mainHeader
    (λ id, [id; sender; kind; summary; ts]) w) as (? & _).
Qed.

Lemma writeToCSV_other_files env sender kind summary ts w name :
  name ≠ csvFilePath →
  files (exec (writeToCSV env sender kind summary ts) w) !! name = files w !! name.
Proof.
  destruct (appendToCSV_any env mainHeader
    (λ id, [id; sender; kind; summary; ts]) w) as (_ & _ & _ & Hother & _).
  apply Hother.
Qed.

Lemma string_app_not_empty a c b : a +:+ String c b ≠ "".
Proof. destruct a; done. Qed.

Lemma Format_RFC3339_not_empty t : time.Format_RFC3339 t ≠ "".
Proof. unfold time.Format_RFC3339. apply string_app_not_empty. Qed.

Lemma JID_String_not_empty jid :
  types.User jid ≠ "" ∨ types.Server jid ≠ "" → types.JID_String jid ≠ "".
Proof.
  intros Hjid. unfold types.JID_String.
  destruct (0 <? types.RawAgent jid)%Z; [apply string_app_not_empty|].
  destruct (0 <? types.Device jid)%Z; [apply string_app_not_empty|].
  destruct (types.User jid) as [|c u] eqn:Hu; cbn [String.length Nat.ltb Nat.leb].
  - destruct Hjid; done.
  - done.
Qed.

Lemma ShouldBindJSON_empty_text jid text :
  default "" text = "" → ∃ e, gin.ShouldBindJSON (gin.Decoded jid text) = Err e.
Proof.
  intros Ht. unfold gin.ShouldBindJSON. cbn [gin.JID gin.Text]. rewrite Ht.
  rewrite (decide_True (P := "" = "")) by done.
  destruct (decide (default "" jid = "")); cbn; eauto.
Qed.

Lemma sendMessage_calls env jid text w :
  calls (exec (sendMessage env jid text) w) =
  calls w ++ [CallGenerateMessageID;
              CallSendMessage (types.NewJID jid "s.whatsapp.net") (textMessage text)].
Proof.
  unfold exec, sendMessage. run.
  destruct (sendMessage_fails env); run.
  { by rewrite <- app_assoc. }
  match goal with |- context [writeToCSV ?e ?s ?k ?m ?t ?w0] =>
    pose proof (writeToCSV_calls e s k m t w0) as Hc;
    unfold exec in Hc; destruct (writeToCSV e s k m t w0) as [[] w1] end.
  cbn in *. rewrite Hc. cbn. by rewrite <- app_assoc.
Qed.

Lemma earlier_writeToCSV_calls env sender message ts w :
  calls (exec (Earlier.writeToCSV env sender message ts) w) = calls w.
Proof.
  by destruct (appendToCSV_any env earlierHeader
    (λ id, [id; sender; message; time.Format_RFC3339 ts]) w) as (? & _).
Qed.

Lemma earlier_sendMessage_calls env jid text w :
  calls (exec (Earlier.sendMessage env jid text) w) =
  calls w ++ [CallGenerateMessageID;
              CallSendMessage (types.NewJID jid "s.whatsapp.net") (textMessage text)].
Proof.
  unfold exec, Earlier.sendMessage. run.
  destruct (sendMessage_fails env); run.
  { by rewrite <- app_assoc. }
  match goal with |- context [Earlier.writeToCSV ?e ?s ?m ?t ?w0] =>
    pose proof (earlier_writeToCSV_calls e s m t w0) as Hc;
    unfold exec in Hc; destruct (Earlier.writeToCSV e s m t w0) as [[] w1] end.
  cbn in *. rewrite Hc. cbn. by rewrite <- app_assoc.
Qed.

Lemma calls_log_ret {A} line (a : A) w :
  calls (exec (log_Print line ;; mret a) w) = calls w.
Proof. done. Qed.

Lemma sent_to_whatsapp_server (l : list Call) jid text to msg :
  CallSendMessage to msg ∈
    l ++ [CallGenerateMessageID;
          CallSendMessage (types.NewJID jid "s.whatsapp.net") (textMessage text)] →
  CallSendMessage to msg ∈ l ∨ types.Server to = "s.whatsapp.net".
Proof.
  intros [Hin|Hin]%elem_of_app; [by left|right].
  apply elem_of_cons in Hin as [Hin|Hin]; [done|].
  apply list_elem_of_singleton in Hin. by injection Hin as -> _.
Qed.

Lemma saveQRCode_works env code w :
  saveWorks env →
  exec (saveQRCode env code) w = set_files <[qrCodeFilePath := code]> w.
Proof.
  intros [Hc Hw]. unfold exec, saveQRCode, os.Create, os.WriteString, os.append.
  rewrite Hc, Hw. run. unfold set_files. sim.
  rewrite lookup_insert_eq. sim. by rewrite insert_insert_eq.
Qed.

Lemma sendQRCodeToAPI_files env code w :
  files (exec (sendQRCodeToAPI env code) w) = files w.
Proof.
  unfold exec, sendQRCodeToAPI. run.
  destruct (post_result env) as [[statusCode statusText]|e]; [|done].
  case_decide; done.
Qed.

Lemma drainQRChannel_app a b w :
  exec (drainQRChannel (a ++ b)) w = exec (drainQRChannel b) (exec (drainQRChannel a) w).
Proof.
  revert w. induction a as [|[env evt] a IH]; intros w; [done|].
  cbn [app drainQRChannel]. by rewrite !exec_bind, IH.
Qed.

Lemma onQRChannelItem_code env code w :
  saveWorks env →
  codeFile (exec (onQRChannelItem env {| Event := "code"; Code := code |}) w) = Some code.
Proof.
  intros Hs. unfold onQRChannelItem. cbn [Event Code].
  rewrite decide_True by done. rewrite !exec_bind.
  unfold codeFile. rewrite sendQRCodeToAPI_files, saveQRCode_works by done.
  cbn [files set_files]. apply lookup_insert_eq.
Qed.

(** C1. The handler classifies every inbound message by the first
    predicate that holds in the order Text, ExtendedText, Image, Video,
    Document, Audio, Contact, Location, Unknown.  The kind it assigns
    satisfies its predicate and no kind earlier in the order does, so a
    message that fits two kinds gets the earlier one and a message that
    fits none is Unknown.  A row that reaches the log carries the label
    of that kind in its type column, and with a log that can be written
    and media handling that succeeds such a row is appended. *)
Theorem classifier_precedence env message w :
  let msg := events.Message_ message in
  let k := classify msg in
  let w' := exec (handleReceivedMessage env message) w in
  satisfies msg k = true ∧
  (∀ k', precedes k' k → satisfies msg k' = false) ∧
  (logContents w' = logContents w ∨
   ∃ id summary,
     rowAppended mainHeader w w'
       [id; senderOf message; kindLabel k; summary; timestampOf message]) ∧
  (logWorks env →
   (∀ m, mediaOf msg = Some m → mediaWorks env m) →
   ∃ id summary,
     rowAppended mainHeader w w'
       [id; senderOf message; kindLabel k; summary; timestampOf message]).
Proof.
  intros msg k w'. split_and!.
  - apply classify_first.
  - apply classify_first.
  - apply handle_log.
  - apply handle_log_works.
Qed.

(** C2. A message of a media kind (Image, Video, Document, Audio) causes
    exactly one download call, so nothing is retried.  If the download or
    the save fails, every file is left as it was, the log among them.  If
    both succeed, the record is handed to [writeToCSV] exactly once, on a
    log that is still untouched, and with a log file that can be written
    this appends exactly one row. *)
Theorem media_failure_skips_append env message w m :
  mediaOf (events.Message_ message) = Some m →
  let kind := kindLabel (classify (events.Message_ message)) in
  let w' := exec (handleReceivedMessage env message) w in
  calls w' = calls w ++ [CallDownload m] ∧
  (mediaFails env m → files w' = files w ∧ logUntouched w w') ∧
  (mediaWorks env m →
   ∃ w1 summary,
     logUntouched w w1 ∧
     w' = exec (writeToCSV env (senderOf message) kind summary
                  (timestampOf message)) w1 ∧
     (logWorks env →
      rowAppended mainHeader w w'
        [idAt w1; senderOf message; kind; summary; timestampOf message])).
Proof.
  intros Hm kind w'. pose proof (handle_outcome env message w) as Hout.
  cbv zeta in Hout. rewrite Hm in Hout. fold w' kind in Hout.
  destruct Hout as [(Hfail & Hf & Hc)|(Hworks & w1 & data & _ & Hf & Hc & _ & Hw')].
  - split_and!; [done| |].
    + intros _. unfold logUntouched. by rewrite Hf.
    + intros Hworks. destruct (mediaFails_not_works env m Hfail Hworks).
  - assert (Hlog1 : logUntouched w w1).
    { unfold logUntouched. rewrite Hf. apply lookup_insert_ne.
      apply media_path_not_log. }
    split_and!.
    + rewrite Hw', writeToCSV_calls. done.
    + intros Hfail. destruct (mediaFails_not_works env m Hfail Hworks).
    + intros _. eexists w1, _. split_and!; [done|done|].
      intros Hlog. rewrite Hw'. apply writeToCSV_log_works; [done|].
      by apply logContents_frame.
Qed.

(** C3, amended.  Let the log be empty (or missing) or hold the header
    followed by five-column records, and let the append and the read
    succeed.  Then appending a record and reading everything through
    GET /csv answers 200 with a row made of the id and the four fields of
    the record in which every carriage return that directly precedes a
    line feed has been removed.  A record whose fields contain no such
    pair is returned verbatim, field for field. *)
Theorem append_then_read env envRead sender kind summary ts w rows :
  logHolds mainHeader w rows → logWorks env → read_fails envRead = None →
  let w' := exec (writeToCSV env sender kind summary ts) w in
  ∃ rows',
    eval (getCSVContentsHandler envRead) w' =
      {| gin.status := StatusOK;
         gin.body := gin.JSON [("data", gin.JRows rows')] |} ∧
    [idAt w; unCRLF sender; unCRLF kind; unCRLF summary; unCRLF ts] ∈ rows' ∧
    (freeOfCRLF sender && freeOfCRLF kind && freeOfCRLF summary &&
     freeOfCRLF ts = true →
     [idAt w; sender; kind; summary; ts] ∈ rows').
Proof.
  intros Hlog Hw Hr w'.
  destruct (appendToCSV_logHolds env mainHeader
    (λ id, [id; sender; kind; summary; ts]) w rows Hlog (λ _, eq_refl)) as (Hlog' & _).
  specialize (Hlog' Hw).
  apply logHolds_read in Hlog' as (recs & Hrows & Hread);
    [|cbn; lia|by destruct (seeded mainHeader rows)].
  assert (Hfile : files w' !! csvFilePath = Some (logContents w')).
  { subst w'. unfold logContents. rewrite writeToCSV_shape, appendToCSV_works by done.
    cbn [files set_tick set_files]. unfold appendedFiles.
    by rewrite lookup_insert_eq. }
  eexists. split_and!.
  - unfold eval, getCSVContentsHandler, os.ReadFile. rewrite Hr. run.
    rewrite Hfile. fold w'. 
    change (exec (appendToCSV env mainHeader
                    (λ id, [id; sender; kind; summary; ts])) w) with w' in Hread.
    rewrite Hread. done.
  - apply list_elem_of_fmap. eexists.
    split; [|apply elem_of_app; right; apply list_elem_of_singleton; done].
    cbn [map]. unfold idAt. by rewrite unCRLF_sprintf_d.
  - intros Hfree. 
    apply andb_true_iff in Hfree as [Hfree Ht].
    apply andb_true_iff in Hfree as [Hfree Hm].
    apply andb_true_iff in Hfree as [Hs Hk].
    apply list_elem_of_fmap. eexists.
    split; [|apply elem_of_app; right; apply list_elem_of_singleton; done].
    cbn [map]. unfold idAt. 
    by rewrite unCRLF_sprintf_d, !freeOfCRLF_unCRLF.
Qed.

(** C4. With a log file that can be written, every append adds the header
    row exactly when the file is empty (a missing file counts as empty)
    and then exactly the encoded record; an append in which a step fails
    leaves the contents as they were.  Hence after any run of appends that
    starts from an empty or missing file, the log is still empty or reads
    back as the header row followed by at most one row per append, none of
    which is the header; if the run is not empty and every append works,
    there is exactly one row per append.  This holds for the five-column
    log of client.go (header id, phone, type, text, datetime) and for the
    four-column log of its earlier revision (the same without type). *)
Theorem header_written_once :
  (∀ env sender kind summary ts w,
     let w' := exec (writeToCSV env sender kind summary ts) w in
     (logWorks env →
      rowAppended mainHeader w w' [idAt w; sender; kind; summary; ts]) ∧
     (logContents w' = logContents w ∨
      rowAppended mainHeader w w' [idAt w; sender; kind; summary; ts])) ∧
  (∀ entries w,
     logContents w = "" →
     let w' := exec (runAll appendEntry entries) w in
     (logContents w' = "" ∨
      ∃ rows, readsAs mainHeader (logContents w') rows ∧
              (length rows ≤ length entries)%nat) ∧
     (entries ≠ [] → Forall (λ e, logWorks e.1) entries →
      ∃ rows, readsAs mainHeader (logContents w') rows ∧
              length rows = length entries)) ∧
  (∀ env sender message ts w,
     let w' := exec (Earlier.writeToCSV env sender message ts) w in
     (logWorks env →
      rowAppended earlierHeader w w'
        [idAt w; sender; message; time.Format_RFC3339 ts]) ∧
     (logContents w' = logContents w ∨
      rowAppended earlierHeader w w'
        [idAt w; sender; message; time.Format_RFC3339 ts])) ∧
  (∀ entries w,
     logContents w = "" →
     let w' := exec (runAll appendEarlierEntry entries) w in
     (logContents w' = "" ∨
      ∃ rows, readsAs earlierHeader (logContents w') rows ∧
              (length rows ≤ length entries)%nat) ∧
     (entries ≠ [] → Forall (λ e, logWorks e.1) entries →
      ∃ rows, readsAs earlierHeader (logContents w') rows ∧
              length rows = length entries)).
Proof.
  split_and!.
  - intros env sender kind summary ts w w'. split.
    + intros Hw. exact (writeToCSV_log_works env sender kind summary ts w w Hw eq_refl).
    + exact (writeToCSV_log env sender kind summary ts w w eq_refl).
  - intros entries w Hempty.
    apply (runAll_header_once mainHeader ["phone"; "type"; "text"; "datetime"]
      (λ e id, [id; entrySender e; entryKind e; entrySummary e; entryTimestamp e]));
      try done.
    intros a id. eauto.
  - intros env sender message ts w w'. split.
    + intros Hw. apply (appended_rowAppended earlierHeader
        (λ id, [id; sender; message; time.Format_RFC3339 ts]) w w w' eq_refl).
      subst w'. rewrite earlier_writeToCSV_shape. by rewrite appendToCSV_works.
    + destruct (appendToCSV_any env earlierHeader
        (λ id, [id; sender; message; time.Format_RFC3339 ts]) w)
        as (_ & _ & _ & _ & [Hsame|Happ]); [by left|right].
      exact (appended_rowAppended earlierHeader
        (λ id, [id; sender; message; time.Format_RFC3339 ts]) w w w' eq_refl Happ).
  - intros entries w Hempty.
    apply (runAll_header_once earlierHeader ["phone"; "text"; "datetime"]
      (λ e id, [id; earlierSender e; earlierMessage e;
                time.Format_RFC3339 (earlierTimestamp e)]));
      try done.
    intros a id. eauto.
Qed.

(** C5. A POST /send request whose text member is empty, null or missing
    is answered with status 400; no call leaves the process (so nothing
    is sent) and no file changes (so the log is as before). *)
Theorem send_rejects_empty_text env jid text w :
  default "" text = "" →
  let response := eval (sendMessageHandler env (gin.Decoded jid text)) w in
  let w' := exec (sendMessageHandler env (gin.Decoded jid text)) w in
  gin.status response = StatusBadRequest ∧
  calls w' = calls w ∧
  files w' = files w.
Proof.
  intros Ht. destruct (ShouldBindJSON_empty_text jid text Ht) as (e & He).
  unfold eval, exec, sendMessageHandler. rewrite He. run. done.
Qed.

(** C6. When the login code file can be created, saving a code replaces
    whatever the file held: it then holds the code (or nothing, should the
    write fail).  When it can be created and written, the file holds
    exactly the code, also after any run of the QR channel that ends with
    this code; GET /qr/text then answers 200 with the code itself, and
    GET /qr/photo answers 200 with content type image/png and the PNG
    encoding of the QR image of the code at size 256, provided the QR and
    PNG encoders accept it. *)
Theorem login_code_roundtrip env envRead code w :
  let w' := exec (saveQRCode env code) w in
  (create_fails env = None →
   codeFile w' = Some match writeString_fails env with
                      | Some _ => ""
                      | None => code
                      end) ∧
  (saveWorks env →
   codeFile w' = Some code ∧
   (∀ earlier,
      codeFile (exec (drainQRChannel
        (earlier ++ [(env, {| Event := "code"; Code := code |})])) w) = Some code) ∧
   (read_fails envRead = None →
    eval (generateQRTextHandler envRead) w' =
      {| gin.status := StatusOK;
         gin.body := gin.JSON [("qr_code", gin.JString code)] |} ∧
    (∀ qr png,
       qrcode_New code = Ok qr → png_Encode (qr_Image qr 256) = Ok png →
       eval (generateQRPhotoHandler envRead) w' =
         {| gin.status := StatusOK; gin.body := gin.Raw "image/png" png |}))).
Proof.
  intros w'. split.
  { intros Hc. subst w'.
    unfold codeFile, exec, saveQRCode, os.Create, os.WriteString, os.append.
    rewrite Hc. run. destruct (writeString_fails env); run.
    - apply lookup_insert_eq.
    - by rewrite !lookup_insert_eq. }
  intros Hs.
  assert (Hfile : files w' !! qrCodeFilePath = Some code).
  { subst w'. rewrite saveQRCode_works by done. apply lookup_insert_eq. }
  split_and!.
  - exact Hfile.
  - intros earlier. rewrite drainQRChannel_app. cbn [drainQRChannel].
    rewrite exec_bind. by apply onQRChannelItem_code.
  - intros Hr. split.
    + unfold eval, generateQRTextHandler, os.ReadFile. rewrite Hr. run.
      by rewrite Hfile.
    + intros qr png Hqr Hpng.
      unfold eval, generateQRPhotoHandler, os.ReadFile. rewrite Hr. run.
      rewrite Hfile. sim. rewrite Hqr, Hpng. done.
Qed.

(** C7, amended.  For a message of a media kind whose download and save
    succeed (and a log that can be written), the file named by the path
    that [saveMedia] returned holds the downloaded bytes, and the
    appended row has as payload summary: for Image and Video the text
    Caption: <caption>, Path: <path>; for Document the text
    FileName: <file name>, Path: <path>; for Audio the path alone. *)
Theorem media_summary env message w m :
  mediaOf (events.Message_ message) = Some m →
  mediaWorks env m → logWorks env →
  let w' := exec (handleReceivedMessage env message) w in
  ∃ data path id,
    download env m = Ok data ∧
    eval (saveMedia env (mediaTypeOf m) data) w = Ok path ∧
    files w' !! path = Some data ∧
    rowAppended mainHeader w w'
      [id; senderOf message; kindLabel (classify (events.Message_ message));
       match m with
       | waProto.OfImage im =>
           "Caption: " +:+ waProto.GetImageCaption im +:+ ", Path: " +:+ path
       | waProto.OfVideo vm =>
           "Caption: " +:+ waProto.GetVideoCaption vm +:+ ", Path: " +:+ path
       | waProto.OfDocument dm =>
           "FileName: " +:+ waProto.GetFileName dm +:+ ", Path: " +:+ path
       | waProto.OfAudio _ => path
       end;
       timestampOf message].
Proof.
  intros Hm Hworks Hlog w'. pose proof (handle_outcome env message w) as Hout.
  cbv zeta in Hout. rewrite Hm in Hout. fold w' in Hout.
  destruct Hout as [(Hfail & _)|(_ & w1 & data & Hd & Hf & Hc & _ & Hw')].
  { destruct (mediaFails_not_works env m Hfail Hworks). }
  destruct Hworks as (_ & Hmk & Hwf).
  exists data, (mediaPath (mediaTypeOf m) (clock (tick w))), (idAt w1).
  split_and!.
  - done.
  - unfold eval. by rewrite saveMedia_works.
  - rewrite Hw', writeToCSV_other_files by apply media_path_not_log.
    rewrite Hf. apply lookup_insert_eq.
  - rewrite Hw'. 
    assert (Hrow : rowAppended mainHeader w
      (exec (writeToCSV env (senderOf message)
               (kindLabel (classify (events.Message_ message)))
               (mediaSummary m (mediaPath (mediaTypeOf m) (clock (tick w))))
               (timestampOf message)) w1)
      [idAt w1; senderOf message; kindLabel (classify (events.Message_ message));
       mediaSummary m (mediaPath (mediaTypeOf m) (clock (tick w)));
       timestampOf message]).
    { apply writeToCSV_log_works; [done|].
      eapply media_stored_log; [done|apply mediaPath_shape]. }
    destruct m; exact Hrow.
Qed.

(** C8, amended.  A row that the handler appends holds the string form of
    the sender identifier and the RFC 3339 form of the message time.  The
    timestamp field is never empty.  The sender field is not checked by
    the program; it is non-empty whenever the identifier has a non-empty
    user or server part. *)
Theorem record_sender_and_timestamp env message w :
  let sender := events.Sender (events.Info message) in
  let w' := exec (handleReceivedMessage env message) w in
  (logContents w' = logContents w ∨
   ∃ id kind summary,
     rowAppended mainHeader w w'
       [id; types.JID_String sender; kind; summary; timestampOf message]) ∧
  timestampOf message ≠ "" ∧
  (types.User sender ≠ "" ∨ types.Server sender ≠ "" →
   types.JID_String sender ≠ "").
Proof.
  intros sender w'. split_and!.
  - destruct (handle_log env message w) as [Hsame|(id & summary & Hrow)];
      [by left|right; eauto].
  - apply Format_RFC3339_not_empty.
  - apply JID_String_not_empty.
Qed.

(** C9. Whenever [saveMedia] returns a path, it is the directory
    media/<kind>, a slash, the nanosecond clock reading in decimal, and
    the extension of the kind; when the directory and the file can be
    written it does return that path and the file holds the payload.  The
    result is the same for every payload.  The extension is .jpg for
    image, .mp4 for video, .ogg for audio, .pdf for document and empty
    for any other kind. *)
Theorem saveMedia_path env mediaType mediaData w :
  let path :=
    ("media/" +:+ mediaType) +:+ "/" +:+
    fmt.sprintf_d (time.UnixNano (clock (tick w))) +:+ extensionOf mediaType in
  (∀ p, eval (saveMedia env mediaType mediaData) w = Ok p → p = path) ∧
  (mkdirAll_fails env = None → writeFile_fails env = None →
   eval (saveMedia env mediaType mediaData) w = Ok path ∧
   files (exec (saveMedia env mediaType mediaData) w) !! path = Some mediaData) ∧
  (∀ otherData,
     eval (saveMedia env mediaType otherData) w =
     eval (saveMedia env mediaType mediaData) w) ∧
  extensionOf "image" = ".jpg" ∧ extensionOf "video" = ".mp4" ∧
  extensionOf "audio" = ".ogg" ∧ extensionOf "document" = ".pdf" ∧
  (mediaType ≠ "image" → mediaType ≠ "video" → mediaType ≠ "audio" →
   mediaType ≠ "document" → extensionOf mediaType = "").
Proof.
  intros path. split_and!; try done.
  - intros p. unfold eval, saveMedia, os.MkdirAll, os.WriteFile.
    destruct (mkdirAll_fails env); run; [done|].
    destruct (writeFile_fails env); run; [done|]. by intros [= <-].
  - intros Hm Hw. unfold eval, exec. rewrite saveMedia_works by done.
    cbn [fst snd files set_logged set_files]. split; [done|].
    apply lookup_insert_eq.
  - intros otherData. unfold eval, saveMedia, os.MkdirAll, os.WriteFile.
    destruct (mkdirAll_fails env); run; [done|].
    destruct (writeFile_fails env); run; done.
  - intros. unfold extensionOf. by rewrite !decide_False.
Qed.

(** C10. In both revisions [sendMessage] makes exactly one send call, to
    the identifier built from the given target and the server
    s.whatsapp.net; every send call that a POST /send request causes goes
    to an identifier on that server. *)
Theorem send_recipient_domain env w :
  (∀ jid text,
     calls (exec (sendMessage env jid text) w) =
     calls w ++ [CallGenerateMessageID;
                 CallSendMessage (types.NewJID jid "s.whatsapp.net")
                   (textMessage text)] ∧
     calls (exec (Earlier.sendMessage env jid text) w) =
     calls w ++ [CallGenerateMessageID;
                 CallSendMessage (types.NewJID jid "s.whatsapp.net")
                   (textMessage text)]) ∧
  (∀ jid, types.Server (types.NewJID jid "s.whatsapp.net") = "s.whatsapp.net") ∧
  (∀ body to msg,
     CallSendMessage to msg ∈ calls (exec (sendMessageHandler env body) w) ∨
     CallSendMessage to msg ∈ calls (exec (Earlier.sendMessageHandler env body) w) →
     CallSendMessage to msg ∈ calls w ∨ types.Server to = "s.whatsapp.net").
Proof.
  split_and!.
  - intros jid text. split; [apply sendMessage_calls|apply earlier_sendMessage_calls].
  - done.
  - intros body to msg [Hin|Hin]; revert Hin.
    + unfold sendMessageHandler.
      destruct (gin.ShouldBindJSON body) as [request|e].
      2:{ run. auto. }
      rewrite exec_bind. rewrite exec_bind.
      set (w1 := exec (log_Print _) w).
      assert (Hc1 : calls w1 = calls w) by done.
      pose proof (sendMessage_calls env (gin.JID request) (gin.Text request) w1) as Hs.
      destruct (eval _ _);
        rewrite calls_log_ret, Hs, Hc1; apply sent_to_whatsapp_server.
    + unfold Earlier.sendMessageHandler.
      destruct (gin.ShouldBindJSON body) as [request|e].
      2:{ run. auto. }
      rewrite exec_bind. rewrite exec_bind.
      set (w1 := exec (log_Print _) w).
      assert (Hc1 : calls w1 = calls w) by done.
      pose proof (earlier_sendMessage_calls env (gin.JID request) (gin.Text request) w1) as Hs.
      unfold error in *.
      destruct (eval _ _);
        rewrite calls_log_ret, Hs, Hc1; apply sent_to_whatsapp_server.
Qed.

End claims.

Lemma not_combinesWithPath_path path : ¬ combinesWithPath path path.
Proof.
  intros (label & text & Heq). apply (f_equal String.length) in Heq.
  rewrite !string_app_length in Heq. cbn in Heq. lia.
Qed.


Lemma quietEnv_logWorks data : logWorks (quietEnv data).
Proof. by repeat split. Defined.

Lemma quietEnv_mediaWorks data m : mediaWorks (quietEnv data) m.
Proof. split_and!; [by exists data|done|done]. Defined.


(** C1 at a text message from a known sender, with everything working. *)
Lemma classifier_precedence_witness :
  logWorks (quietEnv "") ∧
  ∃ id summary,
    rowAppended mainHeader emptyWorld afterHi
      [id; senderOf hiFromAlice; kindLabel Text; summary; timestampOf hiFromAlice].
Proof.
  split; [apply quietEnv_logWorks|].
  destruct (@classifier_precedence demoPlatform (quietEnv "") hiFromAlice emptyWorld)
    as (_ & _ & _ & Hrow).
  apply Hrow; [apply quietEnv_logWorks|].
  intros m Hm. discriminate Hm.
Defined.

(** C2 at an audio message whose download fails. *)
Lemma media_failure_skips_append_witness :
  mediaOf (events.Message_ audioFromAlice) = Some theAudio ∧
  (mediaFails offlineEnv theAudio ∧
   calls afterLostAudio = [CallDownload theAudio] ∧
   logUntouched emptyWorld afterLostAudio) ∧
  (mediaWorks (quietEnv "bytes") theAudio ∧ logWorks (quietEnv "bytes") ∧
   calls afterAudio = [CallDownload theAudio] ∧
   ∃ id summary,
     rowAppended mainHeader emptyWorld afterAudio
       [id; senderOf audioFromAlice; "Audio"; summary; timestampOf audioFromAlice]).
Proof.
  assert (Hm : mediaOf (events.Message_ audioFromAlice) = Some theAudio) by reflexivity.
  assert (Hf : mediaFails offlineEnv theAudio) by (left; by exists "download failed").
  destruct (@media_failure_skips_append demoPlatform offlineEnv audioFromAlice
              emptyWorld theAudio Hm) as (Hc & Hfail & _).
  destruct (@media_failure_skips_append demoPlatform (quietEnv "bytes") audioFromAlice
              emptyWorld theAudio Hm) as (Hc' & _ & Hok).
  destruct (Hok (quietEnv_mediaWorks "bytes" theAudio))
    as (w1 & summary & _ & _ & Hrow).
  split_and!; [exact Hm|exact Hf|exact Hc|exact (proj2 (Hfail Hf))
              |apply quietEnv_mediaWorks|apply quietEnv_logWorks|exact Hc'|].
  exists (@idAt demoPlatform w1), summary. exact (Hrow (quietEnv_logWorks "bytes")).
Defined.

(** C3 (amended) at a first record appended to a missing log. *)
Lemma append_then_read_witness :
  logHolds mainHeader emptyWorld [] ∧ logWorks (quietEnv "") ∧
  read_fails (quietEnv "") = None ∧
  ∃ rows',
    eval (getCSVContentsHandler (quietEnv "")) afterFirstRow =
      {| gin.status := StatusOK; gin.body := gin.JSON [("data", gin.JRows rows')] |} ∧
    ["0"; "alice"; "Conversation"; "hi"; sampleTime] ∈ rows'.
Proof.
  assert (Hl : logHolds mainHeader emptyWorld []) by (left; split; reflexivity).
  split_and!; [exact Hl|apply quietEnv_logWorks|reflexivity|].
  destruct (@append_then_read demoPlatform (quietEnv "") (quietEnv "") "alice"
              "Conversation" "hi" sampleTime emptyWorld [] Hl
              (quietEnv_logWorks "") eq_refl) as (rows' & Hresp & _ & Hin).
  exists rows'. split; [exact Hresp|]. apply Hin. reflexivity.
Defined.

(** C3 as stated fails: a text with a carriage return and a line feed is
    appended to a missing log with everything working; GET /csv returns the
    header and one row whose text has lost the carriage return, and the
    record as it was appended is not among the rows. *)
Lemma crlf_record_not_verbatim :
  eval (getCSVContentsHandler (quietEnv "")) afterCRLFRow =
    {| gin.status := StatusOK;
       gin.body := gin.JSON [("data", gin.JRows
         [mainHeader; ["0"; "alice"; "Conversation"; lfText; sampleTime]])] |} ∧
  ["0"; "alice"; "Conversation"; crlfText; sampleTime] ∉
    [mainHeader; ["0"; "alice"; "Conversation"; lfText; sampleTime]].
Proof.
  split; [by vm_compute|].
  intros Hin. apply elem_of_cons in Hin as [Hin|Hin]; [done|].
  apply list_elem_of_singleton in Hin. done.
Qed.

(** C4 at two appends to a missing log. *)
Lemma header_written_once_witness :
  logWorks (quietEnv "") ∧
  rowAppended mainHeader emptyWorld afterFirstRow
    ["0"; "alice"; "Conversation"; "hi"; sampleTime] ∧
  twoEntries ≠ [] ∧ Forall (λ e, logWorks e.1) twoEntries ∧
  logContents emptyWorld = "" ∧
  (∃ rows,
     readsAs mainHeader
       (logContents (exec (@runAll LogEntry (@appendEntry demoPlatform) twoEntries)
                       emptyWorld)) rows ∧
     length rows = 2%nat) ∧
  twoEarlierEntries ≠ [] ∧ Forall (λ e, logWorks e.1) twoEarlierEntries ∧
  (∃ rows,
     readsAs earlierHeader
       (logContents (exec (@runAll EarlierEntry (@appendEarlierEntry demoPlatform)
                             twoEarlierEntries) emptyWorld)) rows ∧
     length rows = 2%nat).
Proof.
  assert (Hne : twoEntries ≠ []) by discriminate.
  assert (Hw : Forall (λ e, logWorks e.1) twoEntries).
  { repeat constructor. }
  assert (Hne' : twoEarlierEntries ≠ []) by discriminate.
  assert (Hw' : Forall (λ e, logWorks e.1) twoEarlierEntries).
  { repeat constructor. }
  destruct (@header_written_once demoPlatform) as (Hone & Hrun & _ & Hrun').
  destruct (Hone (quietEnv "") "alice" "Conversation" "hi" sampleTime emptyWorld)
    as (Hrow & _).
  destruct (Hrun twoEntries emptyWorld eq_refl) as (_ & Hall).
  destruct (Hrun' twoEarlierEntries emptyWorld eq_refl) as (_ & Hall').
  split_and!; [apply quietEnv_logWorks|exact (Hrow (quietEnv_logWorks ""))
              |exact Hne|exact Hw|reflexivity|exact (Hall Hne Hw)
              |exact Hne'|exact Hw'|exact (Hall' Hne' Hw')].
Defined.

(** C5 at a request with an empty text. *)
Lemma send_rejects_empty_text_witness :
  default "" (Some "") = "" ∧
  gin.status (eval (@sendMessageHandler demoPlatform (quietEnv "") sendNothing)
                emptyWorld) = StatusBadRequest ∧
  calls (exec (@sendMessageHandler demoPlatform (quietEnv "") sendNothing)
           emptyWorld) = [] ∧
  files (exec (@sendMessageHandler demoPlatform (quietEnv "") sendNothing)
           emptyWorld) = ∅.
Proof.
  split; [reflexivity|].
  exact (@send_rejects_empty_text demoPlatform (quietEnv "") (Some "77001112233")
           (Some "") emptyWorld eq_refl).
Defined.

(** C6 at a code saved into an empty file system. *)
Lemma login_code_roundtrip_witness :
  create_fails (quietEnv "") = None ∧
  saveWorks (quietEnv "") ∧ read_fails (quietEnv "") = None ∧
  codeFile afterCode = Some "2@AbCd,EfGh,IjKl" ∧
  eval (generateQRTextHandler (quietEnv "")) afterCode =
    {| gin.status := StatusOK;
       gin.body := gin.JSON [("qr_code", gin.JString "2@AbCd,EfGh,IjKl")] |} ∧
  eval (@generateQRPhotoHandler demoPlatform (quietEnv "")) afterCode =
    {| gin.status := StatusOK;
       gin.body := gin.Raw "image/png" "PNG2@AbCd,EfGh,IjKl" |}.
Proof.
  assert (Hs : saveWorks (quietEnv "")) by (split; reflexivity).
  destruct (@login_code_roundtrip demoPlatform (quietEnv "") (quietEnv "")
              "2@AbCd,EfGh,IjKl" emptyWorld) as (Hcreated & Hsaved).
  destruct (Hsaved Hs) as (_ & _ & Hread).
  destruct (Hread eq_refl) as (Htext & Hphoto).
  split_and!; [reflexivity|exact Hs|reflexivity|exact (Hcreated eq_refl)
              |exact Htext|].
  exact (Hphoto "2@AbCd,EfGh,IjKl" "PNG2@AbCd,EfGh,IjKl" eq_refl eq_refl).
Defined.

(** C7 (amended) at an audio message, with everything working. *)
Lemma media_summary_witness :
  mediaOf (events.Message_ audioFromAlice) = Some theAudio ∧
  mediaWorks (quietEnv "bytes") theAudio ∧ logWorks (quietEnv "bytes") ∧
  ∃ data path id,
    download (quietEnv "bytes") theAudio = Ok data ∧
    eval (@saveMedia demoPlatform (quietEnv "bytes") "audio" data) emptyWorld = Ok path ∧
    files afterAudio !! path = Some data ∧
    rowAppended mainHeader emptyWorld afterAudio
      [id; senderOf audioFromAlice; "Audio"; path; timestampOf audioFromAlice].
Proof.
  assert (Hm : mediaOf (events.Message_ audioFromAlice) = Some theAudio) by reflexivity.
  split_and!; [exact Hm|apply quietEnv_mediaWorks|apply quietEnv_logWorks|].
  exact (@media_summary demoPlatform (quietEnv "bytes") audioFromAlice emptyWorld
           theAudio Hm (quietEnv_mediaWorks "bytes" theAudio)
           (quietEnv_logWorks "bytes")).
Defined.

(** C7 as stated fails: for an audio message, with everything working, the
    bytes are stored under media/audio/0.ogg and the appended row has
    exactly that path as its payload summary, which does not combine a
    caption or file name with the path. *)
Lemma audio_summary_is_path_alone :
  classify (events.Message_ audioFromAlice) = Audio ∧
  mediaWorks (quietEnv "bytes") theAudio ∧
  files afterAudio !! "media/audio/0.ogg" = Some "bytes" ∧
  rowAppended mainHeader emptyWorld afterAudio
    ["1"; "77001112233@s.whatsapp.net"; "Audio"; "media/audio/0.ogg"; sampleTime] ∧
  ¬ combinesWithPath "media/audio/0.ogg" "media/audio/0.ogg".
Proof.
  split_and!; [by vm_compute|apply quietEnv_mediaWorks|by vm_compute|by vm_compute|].
  apply not_combinesWithPath_path.
Qed.

(** C8 (amended) at a sender with both a user and a server part. *)
Lemma record_sender_and_timestamp_witness :
  (types.User alice ≠ "" ∨ types.Server alice ≠ "") ∧
  types.JID_String alice ≠ "" ∧ timestampOf hiFromAlice ≠ "".
Proof.
  assert (Hj : types.User alice ≠ "" ∨ types.Server alice ≠ "") by (left; discriminate).
  destruct (@record_sender_and_timestamp demoPlatform (quietEnv "") hiFromAlice
              emptyWorld) as (_ & Hts & Hsender).
  split_and!; [exact Hj|exact (Hsender Hj)|exact Hts].
Defined.

(** C8 as stated fails: a text message whose sender identifier is empty is
    appended, with everything working, as a row with an empty sender
    field. *)
Lemma empty_sender_is_logged :
  senderOf hiFromNobody = "" ∧
  rowAppended mainHeader emptyWorld afterHiFromNobody
    ["0"; ""; "Conversation"; "hi"; sampleTime].
Proof. split; by vm_compute. Qed.

(** C9 at an image payload, and at a kind without an extension. *)
Lemma saveMedia_path_witness :
  mkdirAll_fails (quietEnv "") = None ∧ writeFile_fails (quietEnv "") = None ∧
  eval (@saveMedia demoPlatform (quietEnv "") "image" "bytes") emptyWorld =
    Ok "media/image/0.jpg" ∧
  files (exec (@saveMedia demoPlatform (quietEnv "") "image" "bytes") emptyWorld)
    !! "media/image/0.jpg" = Some "bytes" ∧
  extensionOf "sticker" = "".
Proof.
  destruct (@saveMedia_path demoPlatform (quietEnv "") "image" "bytes" emptyWorld)
    as (_ & Hok & _).
  destruct (Hok eq_refl eq_refl) as (Hpath & Hfile).
  destruct (@saveMedia_path demoPlatform (quietEnv "") "sticker" "bytes" emptyWorld)
    as (_ & _ & _ & _ & _ & _ & _ & Hext).
  split_and!; [reflexivity|reflexivity|exact Hpath|exact Hfile|].
  apply Hext; discriminate.
Defined.

(** C10 at a request that is sent. *)
Lemma send_recipient_domain_witness :
  CallSendMessage alice (textMessage "hello") ∈
    calls (exec (@sendMessageHandler demoPlatform (quietEnv "") sendToAlice) emptyWorld) ∧
  (CallSendMessage alice (textMessage "hello") ∈ calls emptyWorld ∨
   types.Server alice = "s.whatsapp.net").
Proof.
  assert (Hin : CallSendMessage alice (textMessage "hello") ∈
    calls (exec (@sendMessageHandler demoPlatform (quietEnv "") sendToAlice) emptyWorld)).
  { apply list_elem_of_lookup. by exists 1%nat. }
  split; [exact Hin|].
  destruct (@send_recipient_domain demoPlatform (quietEnv "") emptyWorld)
    as (_ & _ & Hto).
  exact (Hto sendToAlice alice (textMessage "hello") (or_introl Hin)).
Defined.

(** * Further properties

    The handler as its first log line and the branch of the kind. *)

Section more_handler_facts.
Context `{Platform}.
Local Arguments writeToCSV : simpl never.
Local Arguments saveMedia : simpl never.
Local Arguments handleMedia : simpl never.

(** The handler is its first log line followed by the branch of the
    classified kind. *)
Lemma handle_shape env message w :
  let msg := events.Message_ message in
  handleReceivedMessage env message w =
  (log_Print (receivedLine message) ;;
   match mediaOf msg with
   | Some m => handleMedia env (senderOf message) (timestampOf message) m
   | None =>
       log_Print (kindNotice (senderOf message) msg) ;;
       writeToCSV env (senderOf message) (kindLabel (classify msg))
         (textSummary msg) (timestampOf message)
   end) w.
Proof.
  destruct message as [[sender ts] msg].
  unfold handleReceivedMessage, receivedLine, senderOf, timestampOf.
  cbn [events.Message_ events.Info events.Sender events.Timestamp].
  unfold mediaOf, textSummary, kindNotice, classify, precedence.
  cbn [firstSatisfied satisfies].
  destruct (decide (waProto.GetConversation msg ≠ "")) as [Hc|Hc].
  { rewrite bool_decide_true by done. reflexivity. }
  rewrite (bool_decide_false _ Hc).
  destruct (waProto.GetExtendedTextMessage msg) as [e|] eqn:He; [reflexivity|].
  destruct (waProto.GetImageMessage msg) as [im|] eqn:Him; [reflexivity|].
  destruct (waProto.GetVideoMessage msg) as [vm|] eqn:Hvm; [reflexivity|].
  destruct (waProto.GetDocumentMessage msg) as [dm|] eqn:Hdm; [reflexivity|].
  destruct (waProto.GetAudioMessage msg) as [am|] eqn:Ham; [reflexivity|].
  destruct (waProto.GetContactMessage msg) as [cm|] eqn:Hcm; [reflexivity|].
  destruct (waProto.GetLocationMessage msg) as [lm|] eqn:Hlm; reflexivity.
Qed.

End more_handler_facts.

(** ** Sending *)

Lemma eval_bind {A B} (m : M A) (k : A → M B) w :
  eval (m ≫= k) w = eval (k (eval m w)) (exec m w).
Proof. unfold exec, eval, mbind, M_bind. by destruct (m w). Qed.

Section send_facts.
Context `{Platform}.
Local Arguments writeToCSV : simpl never.
Local Arguments Earlier.writeToCSV : simpl never.

Lemma sendMessage_ok env jid text w :
  sendMessage_fails env = None →
  sendMessage env jid text w =
  (None,
   exec (writeToCSV env "me" "SentMessage" text
           (time.Format_RFC3339 (clock (tick w)))) (afterSend env jid text w)).
Proof.
  intros Hs. unfold sendMessage. rewrite Hs. run. run.
  unfold afterSend, set_tick, set_printed, set_calls. sim.
  rewrite <- app_assoc. cbn [app].
  match goal with |- context [writeToCSV ?e ?s ?k ?m ?t ?w0] =>
    destruct (writeToCSV e s k m t w0) as [[] w1] end.
  done.
Qed.

Lemma sendMessage_failed env jid text w e :
  sendMessage_fails env = Some e →
  sendMessage env jid text w =
  (Some e,
   set_logged (λ l, l ++ ["Failed to send message: " +:+ e])
     (set_calls (λ l, l ++ [CallGenerateMessageID;
                            CallSendMessage (types.NewJID jid "s.whatsapp.net")
                              (textMessage text)]) w)).
Proof.
  intros Hs. unfold sendMessage. rewrite Hs. run.
  unfold set_logged, set_calls. sim. by rewrite <- app_assoc.
Qed.

End send_facts.

(** ** What an append reports *)

Section append_facts.
Context `{Platform}.

(** The process log after an append, and what became of the row. *)
Lemma appendToCSV_report env header row w :
  let w' := exec (appendToCSV env header row) w in
  logged w' = logged w ++ appendReport env (logContents w) ∧
  (appendReport env (logContents w) = [] → flush_fails env = false →
   files w' = appendedFiles header row w ∧ tick w' = S (tick w)) ∧
  (appendReport env (logContents w) ≠ [] ∨ flush_fails env = true →
   logContents w' = logContents w) ∧
  (tick w ≤ tick w')%nat.
Proof.
  unfold appendReport.
  destruct (openFile_fails env) as [e|] eqn:Ho.
  { unfold exec, appendToCSV, os.OpenFile_append. rewrite Ho. run.
    split_and!; [done|done|done|lia]. }
  unfold exec, appendToCSV, os.OpenFile_append, os.Stat_Size,
    csvWriter.Write, csvWriter.Flush, os.append.
  rewrite Ho.
  destruct (stat_fails env) as [e|] eqn:Hs;
  destruct (writeHeader_fails env) as [e1|] eqn:Hh;
  destruct (writeRecord_fails env) as [e2|] eqn:Hr;
  destruct (flush_fails env) eqn:Hf;
  run; unfold logContents, appendedFiles, headerIfEmpty; sim;
  destruct (files w !! csvFilePath) as [old|] eqn:Hold; sim;
  rewrite ?Hold, ?lookup_insert_eq; sim;
  repeat case_decide; sim; run; rewrite ?Hf; run;
  rewrite ?Hold, ?lookup_insert_eq, ?string_app_nil_r; sim.
  all: try match goal with H : String.length ?s = 0%nat |- _ =>
         apply length_zero_iff in H; subst end.
  all: try match goal with H : String.length ?s ≠ 0%nat |- _ =>
         rewrite length_zero_iff in H end.
  all: try done.
  all: split_and!; try done; try lia; try (by rewrite ?app_nil_r);
       try (by intros [|]); try (intros _ _; split; [|done]).
  all: unfold logContents in *; rewrite ?Hold in *;
       cbn [default from_option id] in *; subst; try done.
  all: by rewrite ?insert_insert_eq.
Qed.

End append_facts.

(** ** Reactions that only read, and the QR channel *)

Lemma onlyLogged_refl w : onlyLogged w w.
Proof. exists []. destruct w. unfold set_logged. cbn. by rewrite app_nil_r. Qed.

Lemma onlyLogged_line w line : onlyLogged w (set_logged (λ l, l ++ [line]) w).
Proof. by exists [line]. Qed.

Lemma onlyLogged_trans w1 w2 w3 : onlyLogged w1 w2 → onlyLogged w2 w3 → onlyLogged w1 w3.
Proof.
  intros (l1 & ->) (l2 & ->). exists (l1 ++ l2). unfold set_logged. cbn.
  by rewrite app_assoc.
Qed.

Section read_only_facts.
Context `{Platform}.

Lemma generateQRTextHandler_onlyLogged env w :
  onlyLogged w (exec (generateQRTextHandler env) w).
Proof.
  unfold exec, generateQRTextHandler, os.ReadFile.
  destruct (read_fails env); run; [apply onlyLogged_line|].
  destruct (files w !! qrCodeFilePath); run;
    [apply onlyLogged_refl|apply onlyLogged_line].
Qed.

Lemma generateQRPhotoHandler_onlyLogged env w :
  onlyLogged w (exec (generateQRPhotoHandler env) w).
Proof.
  unfold exec, generateQRPhotoHandler, os.ReadFile.
  destruct (read_fails env); run; [apply onlyLogged_line|].
  destruct (files w !! qrCodeFilePath) as [code|]; run; [|apply onlyLogged_line].
  destruct (qrcode_New code) as [qr|]; run; [|apply onlyLogged_line].
  destruct (png_Encode (qr_Image qr 256)); run;
    [apply onlyLogged_refl|apply onlyLogged_line].
Qed.

Lemma getCSVContentsHandler_onlyLogged env w :
  onlyLogged w (exec (getCSVContentsHandler env) w).
Proof.
  unfold exec, getCSVContentsHandler, os.ReadFile.
  destruct (read_fails env); run; [apply onlyLogged_line|].
  destruct (files w !! csvFilePath) as [contents|]; run; [|apply onlyLogged_line].
  destruct (csv.ReadAll contents); run;
    [apply onlyLogged_refl|apply onlyLogged_line].
Qed.

End read_only_facts.

Section qr_facts.

Lemma saveQRCode_frame env code w :
  let w' := exec (saveQRCode env code) w in
  calls w' = calls w ∧ dirs w' = dirs w ∧ printed w' = printed w ∧
  tick w' = tick w ∧
  ∀ name, name ≠ qrCodeFilePath → files w' !! name = files w !! name.
Proof.
  unfold exec, saveQRCode, os.Create, os.WriteString, os.append.
  destruct (create_fails env); run; [done|].
  destruct (writeString_fails env); run; split_and!; try done.
  all: intros name Hn; by rewrite ?lookup_insert_ne.
Qed.

Lemma sendQRCodeToAPI_exec env code w :
  ∃ line,
    exec (sendQRCodeToAPI env code) w =
    set_logged (λ l, l ++ [line]) (set_calls (λ l, l ++ [
      CallHTTPPost "https://devapi.courstore.com/v1/qr/for_login" "application/json"
        [("qr_code", code)]]) w).
Proof.
  unfold exec, sendQRCodeToAPI. run.
  destruct (post_result env) as [[statusCode statusText]|e]; [|by eexists].
  case_decide; by eexists.
Qed.

Lemma onQRChannelItem_frame env evt w :
  let w' := exec (onQRChannelItem env evt) w in
  calls w' =
    calls w ++ (if decide (Event evt = "code") then codeCalls (Code evt) else []) ∧
  dirs w' = dirs w ∧ printed w' = printed w ∧ tick w' = tick w ∧
  ∀ name, name ≠ qrCodeFilePath → files w' !! name = files w !! name.
Proof.
  unfold onQRChannelItem. case_decide as Hev.
  - rewrite !exec_bind.
    set (w1 := exec (record_call _) w).
    destruct (saveQRCode_frame env (Code evt) w1) as (Hc & Hd & Hp & Ht & Hf).
    set (w2 := exec (saveQRCode env (Code evt)) w1) in *.
    destruct (sendQRCodeToAPI_exec env (Code evt) w2) as (line & ->).
    cbn [calls dirs printed tick files set_logged set_calls].
    rewrite Hc, Hd, Hp, Ht. split_and!; try done.
    subst w1. run. unfold codeCalls. by rewrite <- app_assoc.
  - run. by rewrite app_nil_r.
Qed.

End qr_facts.

Section send_handler_facts.
Context `{Platform}.
Local Arguments writeToCSV : simpl never.
Local Arguments Earlier.writeToCSV : simpl never.
Local Arguments sendMessage : simpl never.
Local Arguments Earlier.sendMessage : simpl never.
Local Arguments Earliest.sendMessage : simpl never.

Lemma earlier_sendMessage_ok env jid text w :
  sendMessage_fails env = None →
  Earlier.sendMessage env jid text w =
  (None, exec (Earlier.writeToCSV env "me" text (clock (tick w)))
           (afterSend env jid text w)).
Proof.
  intros Hs. unfold Earlier.sendMessage. rewrite Hs. run. run.
  unfold afterSend, set_tick, set_printed, set_calls. sim.
  rewrite <- app_assoc. cbn [app].
  match goal with |- context [Earlier.writeToCSV ?e ?s ?m ?t ?w0] =>
    destruct (Earlier.writeToCSV e s m t w0) as [[] w1] end.
  done.
Qed.

Lemma earlier_sendMessage_failed env jid text w e :
  sendMessage_fails env = Some e →
  Earlier.sendMessage env jid text w =
  (Some e,
   set_logged (λ l, l ++ ["Failed to send message: " +:+ e])
     (set_calls (λ l, l ++ [CallGenerateMessageID;
                            CallSendMessage (types.NewJID jid "s.whatsapp.net")
                              (textMessage text)]) w)).
Proof.
  intros Hs. unfold Earlier.sendMessage. rewrite Hs. run.
  unfold set_logged, set_calls. sim. by rewrite <- app_assoc.
Qed.

Lemma earliest_sendMessage_exec env jid text w :
  Earliest.sendMessage env jid text w =
  match sendMessage_fails env with
  | Some e =>
      (Some e,
       set_logged (λ l, l ++ ["Failed to send message: " +:+ e])
         (set_calls (λ l, l ++ [CallGenerateMessageID;
                                CallSendMessage (types.NewJID jid "s.whatsapp.net")
                                  (textMessage text)]) w))
  | None =>
      (None,
       set_printed (λ l, l ++ ["Message sent, ID: " +:+ messageID env])
         (set_calls (λ l, l ++ [CallGenerateMessageID;
                                CallSendMessage (types.NewJID jid "s.whatsapp.net")
                                  (textMessage text)]) w))
  end.
Proof.
  unfold Earliest.sendMessage. destruct (sendMessage_fails env); run;
    unfold set_logged, set_printed, set_calls; sim; by rewrite <- app_assoc.
Qed.

Lemma sendMessageHandler_rejected env body e w :
  gin.ShouldBindJSON body = Err e →
  sendMessageHandler env body w =
  ({| gin.status := StatusBadRequest;
      gin.body := gin.JSON [("error", gin.JString e)] |},
   set_logged (λ l, l ++ ["Failed to bind JSON: " +:+ e]) w).
Proof. intros Hb. unfold sendMessageHandler. rewrite Hb. done. Qed.

Lemma sendMessageHandler_failed env body request e w :
  gin.ShouldBindJSON body = Ok request → sendMessage_fails env = Some e →
  sendMessageHandler env body w =
  ({| gin.status := StatusInternalServerError;
      gin.body := gin.JSON [("error", gin.JError e)] |},
   set_logged (λ l, l ++ [requestLine request; "Failed to send message: " +:+ e;
                          "Failed to send message: " +:+ e])
     (set_calls (λ l, l ++ [CallGenerateMessageID;
                            CallSendMessage
                              (types.NewJID (gin.JID request) "s.whatsapp.net")
                              (textMessage (gin.Text request))]) w)).
Proof.
  intros Hb Hs. unfold sendMessageHandler. rewrite Hb. run.
  rewrite (sendMessage_failed _ _ _ _ e) by done. run.
  unfold set_logged, set_calls, requestLine. sim.
  by rewrite <- !app_assoc.
Qed.

Lemma sendMessageHandler_sent env body request w :
  gin.ShouldBindJSON body = Ok request → sendMessage_fails env = None →
  sendMessageHandler env body w =
  ({| gin.status := StatusOK;
      gin.body := gin.JSON [("status", gin.JString "Message sent")] |},
   set_logged (λ l, l ++ ["Message sent successfully"])
     (exec (writeToCSV env "me" "SentMessage" (gin.Text request)
              (time.Format_RFC3339 (clock (tick w))))
        (afterSend env (gin.JID request) (gin.Text request)
           (set_logged (λ l, l ++ [requestLine request]) w)))).
Proof.
  intros Hb Hs. unfold sendMessageHandler. rewrite Hb. run.
  rewrite sendMessage_ok by done. run. done.
Qed.

Lemma earlier_sendMessageHandler_rejected env body e w :
  gin.ShouldBindJSON body = Err e →
  Earlier.sendMessageHandler env body w =
  ({| gin.status := StatusBadRequest;
      gin.body := gin.JSON [("error", gin.JString e)] |},
   set_logged (λ l, l ++ ["Failed to bind JSON: " +:+ e]) w).
Proof. intros Hb. unfold Earlier.sendMessageHandler. rewrite Hb. done. Qed.

Lemma earlier_sendMessageHandler_failed env body request e w :
  gin.ShouldBindJSON body = Ok request → sendMessage_fails env = Some e →
  Earlier.sendMessageHandler env body w =
  ({| gin.status := StatusInternalServerError;
      gin.body := gin.JSON [("error", gin.JString e)] |},
   set_logged (λ l, l ++ [requestLine request; "Failed to send message: " +:+ e;
                          "Failed to send message: " +:+ e])
     (set_calls (λ l, l ++ [CallGenerateMessageID;
                            CallSendMessage
                              (types.NewJID (gin.JID request) "s.whatsapp.net")
                              (textMessage (gin.Text request))]) w)).
Proof.
  intros Hb Hs. unfold Earlier.sendMessageHandler. rewrite Hb. run.
  rewrite (earlier_sendMessage_failed _ _ _ _ e) by done. run.
  unfold set_logged, set_calls, requestLine. sim.
  by rewrite <- !app_assoc.
Qed.

Lemma earlier_sendMessageHandler_sent env body request w :
  gin.ShouldBindJSON body = Ok request → sendMessage_fails env = None →
  Earlier.sendMessageHandler env body w =
  ({| gin.status := StatusOK;
      gin.body := gin.JSON [("status", gin.JString "Message sent")] |},
   set_logged (λ l, l ++ ["Message sent successfully"])
     (exec (Earlier.writeToCSV env "me" (gin.Text request) (clock (tick w)))
        (afterSend env (gin.JID request) (gin.Text request)
           (set_logged (λ l, l ++ [requestLine request]) w)))).
Proof.
  intros Hb Hs. unfold Earlier.sendMessageHandler. rewrite Hb. run.
  rewrite earlier_sendMessage_ok by done. run. done.
Qed.

Lemma earliest_sendMessageHandler_exec env body w :
  Earliest.sendMessageHandler env body w =
  match gin.ShouldBindJSON body with
  | Err e =>
      ({| gin.status := StatusBadRequest;
          gin.body := gin.JSON [("error", gin.JString e)] |},
       set_logged (λ l, l ++ ["Failed to bind JSON: " +:+ e]) w)
  | Ok request =>
      let sent := [CallGenerateMessageID;
                   CallSendMessage (types.NewJID (gin.JID request) "s.whatsapp.net")
                     (textMessage (gin.Text request))] in
      match sendMessage_fails env with
      | Some e =>
          ({| gin.status := StatusInternalServerError;
              gin.body := gin.JSON [("error", gin.JString e)] |},
           set_logged (λ l, l ++ [requestLine request;
                                  "Failed to send message: " +:+ e;
                                  "Failed to send message: " +:+ e])
             (set_calls (λ l, l ++ sent) w))
      | None =>
          ({| gin.status := StatusOK;
              gin.body := gin.JSON [("status", gin.JString "Message sent")] |},
           set_logged (λ l, l ++ [requestLine request; "Message sent successfully"])
             (set_printed (λ l, l ++ ["Message sent, ID: " +:+ messageID env])
                (set_calls (λ l, l ++ sent) w)))
      end
  end.
Proof.
  unfold Earliest.sendMessageHandler.
  destruct (gin.ShouldBindJSON body) as [request|e]; [|done]. run.
  rewrite earliest_sendMessage_exec.
  destruct (sendMessage_fails env); run;
    unfold set_logged, set_printed, set_calls, requestLine; sim;
    by rewrite <- !app_assoc.
Qed.

End send_handler_facts.

(** ** POST /send *)

Lemma ShouldBindJSON_Ok body request :
  gin.ShouldBindJSON body = Ok request →
  gin.JID request ≠ "" ∧ gin.Text request ≠ "" ∧
  body = gin.Decoded (Some (gin.JID request)) (Some (gin.Text request)).
Proof.
  unfold gin.ShouldBindJSON. destruct body as [e|jid text]; [done|].
  cbn [gin.JID gin.Text].
  destruct (decide (default "" jid = "")) as [|Hj]; [destruct (decide _); done|].
  destruct (decide (default "" text = "")) as [|Ht]; [done|].
  cbn. intros [= <-]. cbn [gin.JID gin.Text].
  destruct jid as [jid|]; [|done]. destruct text as [text|]; [|done]. done.
Qed.

Section send_claims.
Context `{Platform}.

(** X7. The answer to POST /send depends on the request body and on the
    outcome of the send call alone: 400 with the binding error, 500 with
    the send error, and otherwise 200 with status Message sent, whether or
    not the log could be written.  The current revision puts the error
    value into the 500 answer, the two earlier revisions its text. *)
Theorem send_response_table env body w :
  eval (sendMessageHandler env body) w = sendAnswer gin.JError env body ∧
  eval (Earlier.sendMessageHandler env body) w = sendAnswer gin.JString env body ∧
  eval (Earliest.sendMessageHandler env body) w = sendAnswer gin.JString env body.
Proof.
  unfold eval, sendAnswer. rewrite earliest_sendMessageHandler_exec.
  destruct (gin.ShouldBindJSON body) as [request|e] eqn:Hb.
  - destruct (sendMessage_fails env) as [e|] eqn:Hs.
    + rewrite (sendMessageHandler_failed _ _ request e),
        (earlier_sendMessageHandler_failed _ _ request e) by done. done.
    + rewrite (sendMessageHandler_sent _ _ request),
        (earlier_sendMessageHandler_sent _ _ request) by done. done.
  - rewrite (sendMessageHandler_rejected _ _ e),
      (earlier_sendMessageHandler_rejected _ _ e) by done. done.
Qed.


(** X9. A POST /send request whose body binds causes exactly one message
    id to be generated and exactly one send call, also when that call
    fails (nothing is retried); a request whose body does not bind causes
    no call.  This holds in all three revisions.  The send call never goes
    to an empty user and never carries an empty text. *)
Theorem send_calls_once env body w :
  let sent :=
    match gin.ShouldBindJSON body with
    | Ok request => sendCalls (gin.JID request) (gin.Text request)
    | Err _ => []
    end in
  calls (exec (sendMessageHandler env body) w) = calls w ++ sent ∧
  calls (exec (Earlier.sendMessageHandler env body) w) = calls w ++ sent ∧
  calls (exec (Earliest.sendMessageHandler env body) w) = calls w ++ sent ∧
  ∀ to msg, CallSendMessage to msg ∈ sent →
    types.User to ≠ "" ∧ waProto.GetConversation (Some msg) ≠ "".
Proof.
  intros sent. subst sent. unfold exec. rewrite earliest_sendMessageHandler_exec.
  destruct (gin.ShouldBindJSON body) as [request|e] eqn:Hb.
  - apply ShouldBindJSON_Ok in Hb as Hne. destruct Hne as (Hj & Ht & _).
    assert (Hin : ∀ to msg,
      CallSendMessage to msg ∈ sendCalls (gin.JID request) (gin.Text request) →
      types.User to ≠ "" ∧ waProto.GetConversation (Some msg) ≠ "").
    { intros to msg Hin. unfold sendCalls in Hin.
      apply elem_of_cons in Hin as [Hin|Hin]; [done|].
      apply list_elem_of_singleton in Hin. injection Hin as -> ->. done. }
    destruct (sendMessage_fails env) as [e|] eqn:Hs.
    + rewrite (sendMessageHandler_failed _ _ request e),
        (earlier_sendMessageHandler_failed _ _ request e) by done. done.
    + rewrite (sendMessageHandler_sent _ _ request),
        (earlier_sendMessageHandler_sent _ _ request) by done.
      cbn [snd calls set_logged set_printed set_calls].
      rewrite writeToCSV_calls, earlier_writeToCSV_calls. done.
  - rewrite (sendMessageHandler_rejected _ _ e),
      (earlier_sendMessageHandler_rejected _ _ e) by done.
    cbn [snd calls set_logged]. rewrite app_nil_r. split_and!; try done.
    intros to msg Hin. by apply elem_of_nil in Hin.
Qed.

End send_claims.

(** ** Inbound messages *)

Section handler_claims.
Context `{Platform}.
Local Arguments writeToCSV : simpl never.
Local Arguments saveMedia : simpl never.

Lemma handle_nonmedia env message w :
  mediaOf (events.Message_ message) = None →
  exec (handleReceivedMessage env message) w =
  exec (writeToCSV env (senderOf message)
          (kindLabel (classify (events.Message_ message)))
          (textSummary (events.Message_ message)) (timestampOf message))
    (set_logged (λ l, l ++ [receivedLine message;
                            kindNotice (senderOf message) (events.Message_ message)]) w).
Proof.
  intros Hm. unfold exec. rewrite handle_shape. cbv zeta. rewrite Hm. run.
  unfold set_logged. sim. by rewrite <- app_assoc.
Qed.

Lemma handle_media env message m w :
  mediaOf (events.Message_ message) = Some m →
  exec (handleReceivedMessage env message) w =
  exec (handleMedia env (senderOf message) (timestampOf message) m)
    (set_logged (λ l, l ++ [receivedLine message]) w).
Proof.
  intros Hm. unfold exec. rewrite handle_shape. cbv zeta. rewrite Hm. by run.
Qed.

(** X1. A message of a kind without media (Text, ExtendedText, Contact,
    Location, Unknown) causes no external call and changes no file but the
    log.  With a log that can be written the handler appends one row: the
    id of the first clock reading, the sender, the label of the kind and,
    as payload summary, the conversation text, the extended text, the
    display name of the contact, the text Lat: <latitude>, Long:
    <longitude>, or Unknown message type for a message of no known kind. *)
Theorem nonmedia_record env message w :
  let msg := events.Message_ message in
  let w' := exec (handleReceivedMessage env message) w in
  mediaOf msg = None →
  calls w' = calls w ∧
  (∀ name, name ≠ csvFilePath → files w' !! name = files w !! name) ∧
  (logWorks env →
   rowAppended mainHeader w w'
     [idAt w; senderOf message; kindLabel (classify msg); textSummary msg;
      timestampOf message]).
Proof.
  intros msg w' Hm. subst w'. rewrite handle_nonmedia by done.
  split_and!.
  - by rewrite writeToCSV_calls.
  - intros name Hn. by rewrite writeToCSV_other_files.
  - intros Hlog.
    exact (writeToCSV_log_works env _ _ _ _
             (set_logged (λ l, l ++ _) w) w Hlog eq_refl).
Qed.


End handler_claims.

(** ** The running program *)

Lemma onlyLogged_fields w w' :
  onlyLogged w w' →
  files w' = files w ∧ dirs w' = dirs w ∧ printed w' = printed w ∧
  calls w' = calls w ∧ tick w' = tick w.
Proof. by intros (lines & ->). Qed.

Section serve_facts.
Context `{Platform}.
Local Arguments writeToCSV : simpl never.
Local Arguments saveMedia : simpl never.
Local Arguments handleReceivedMessage : simpl never.
Local Arguments sendMessageHandler : simpl never.
Local Arguments generateQRTextHandler : simpl never.
Local Arguments generateQRPhotoHandler : simpl never.
Local Arguments getCSVContentsHandler : simpl never.
Local Arguments onQRChannelItem : simpl never.

(** The five requests that [serve] tells apart. *)
Lemma serve_http env method path body w :
  exec (serve env (FromHTTP method path body)) w =
  if decide (method = "POST" ∧ path = "/send")
  then exec (sendMessageHandler env body) w
  else if decide (method = "GET" ∧ path = "/qr/text")
  then exec (generateQRTextHandler env) w
  else if decide (method = "GET" ∧ path = "/qr/photo")
  then exec (generateQRPhotoHandler env) w
  else if decide (method = "GET" ∧ path = "/csv")
  then exec (getCSVContentsHandler env) w
  else w.
Proof.
  unfold serve, routes. cbn [findRoute routeMethod routePath routeHandler].
  repeat case_decide; rewrite ?exec_bind; done.
Qed.

Lemma sendMessageHandler_files env body w :
  let w' := exec (sendMessageHandler env body) w in
  files w' = files w ∨
  ∃ w1 text ts, files w1 = files w ∧ tick w1 = S (tick w) ∧
    files w' = files (exec (writeToCSV env "me" "SentMessage" text ts) w1) ∧
    tick w' = tick (exec (writeToCSV env "me" "SentMessage" text ts) w1).
Proof.
  unfold exec.
  destruct (gin.ShouldBindJSON body) as [request|e] eqn:Hb.
  - destruct (sendMessage_fails env) as [e|] eqn:Hs.
    + rewrite (sendMessageHandler_failed _ _ request e) by done. by left.
    + rewrite (sendMessageHandler_sent _ _ request) by done. right.
      eexists _, _, _. split_and!; [| |reflexivity|reflexivity]; done.
  - rewrite (sendMessageHandler_rejected _ _ e) by done. by left.
Qed.

(** What one reaction does to the log: nothing, or one row of five
    columns. *)
Lemma serve_log env input w :
  let w' := exec (serve env input) w in
  logContents w' = logContents w ∨
  ∃ row, length row = 5%nat ∧ rowAppended mainHeader w w' row.
Proof.
  destruct input as [evt|evt|method path body].
  - destruct evt as [v| | | | |typeName]; try by left.
    destruct (handle_log env v w) as [Hsame|(id & summary & Hrow)]; [by left|].
    right. eexists. split; [|exact Hrow]. done.
  - left. apply logContents_frame.
    by apply (onQRChannelItem_frame env evt w).
  - cbv zeta. rewrite serve_http. repeat case_decide; try by left.
    + destruct (sendMessageHandler_files env body w)
        as [Hf|(w1 & text & ts & Hf1 & _ & Hf & _)].
      { left. apply logContents_frame. by rewrite Hf. }
      destruct (writeToCSV_log env "me" "SentMessage" text ts w1 w) as [Hsame|Hrow].
      { apply logContents_frame. by rewrite Hf1. }
      * left. rewrite <- Hsame. apply logContents_frame. by rewrite Hf.
      * right. eexists. split; [|unfold rowAppended in *; rewrite <- Hrow;
          apply logContents_frame; by rewrite Hf]. done.
    + left. apply logContents_frame.
      by destruct (onlyLogged_fields _ _ (generateQRTextHandler_onlyLogged env w)) as (-> & _).
    + left. apply logContents_frame.
      by destruct (onlyLogged_fields _ _ (generateQRPhotoHandler_onlyLogged env w)) as (-> & _).
    + left. apply logContents_frame.
      by destruct (onlyLogged_fields _ _ (getCSVContentsHandler_onlyLogged env w)) as (-> & _).
Qed.

End serve_facts.

Lemma rowAppended_logHolds header w w' rows row :
  rowAppended header w w' row → length row = length header →
  logHolds header w rows →
  logHolds header w' (seeded header rows ++ [row]).
Proof.
  unfold rowAppended, logHolds. intros -> Hlen Hlog. right.
  destruct Hlog as [[-> Hc]|(records & -> & Hall & Hc)].
  - exists [row]. rewrite Hc. unfold headerIfEmpty.
    rewrite decide_True by done. cbn [seeded app writtenLog].
    split_and!; [done| |by rewrite string_app_nil_r].
    by constructor.
  - exists (records ++ [row]). split_and!; [done| |].
    + apply Forall_app; split; [done|]. by constructor.
    + rewrite Hc. unfold headerIfEmpty. rewrite decide_False.
      2:{ cbn [writtenLog]. unfold csv.Write.
          destruct (csv.writeFields header); done. }
      unfold_app. cbn [seeded].
      change (header :: records ++ [row]) with ((header :: records) ++ [row]).
      rewrite writtenLog_app. cbn [writtenLog]. by rewrite string_app_nil_r.
Qed.


Section run_facts.
Context `{Platform}.
Local Arguments serve : simpl never.
Local Arguments writeToCSV : simpl never.
Local Arguments handleReceivedMessage : simpl never.
Local Arguments onQRChannelItem : simpl never.

Lemma runAll_cons {A} (step : Env → A → M unit) env a rest w :
  exec (runAll step ((env, a) :: rest)) w = exec (runAll step rest) (exec (step env a) w).
Proof. cbn [runAll]. by rewrite exec_bind. Qed.


Lemma served_log_grows inputs : ∀ w,
  ∃ added, logContents (exec (runAll serve inputs) w) = logContents w +:+ added.
Proof.
  induction inputs as [|[env input] inputs IH]; intros w.
  { exists "". by rewrite string_app_nil_r. }
  rewrite runAll_cons.
  destruct (IH (exec (serve env input) w)) as (added & ->).
  destruct (serve_log env input w) as [->|(row & _ & ->)]; [by exists added|].
  eexists. by rewrite !string_app_assoc.
Qed.



End run_facts.

Section system_claims.
Context `{Platform}.
Local Arguments serve : simpl never.

(** X15. The log only grows.  Whatever the program reacts to (events of
    the chat client, items of the QR channel, HTTP requests) and whatever
    fails on the way, the contents of messages.csv afterwards start with
    the contents before: nothing is ever removed or rewritten. *)
Theorem log_only_grows inputs w :
  ∃ added, logContents (exec (runAll serve inputs) w) = logContents w +:+ added.
Proof. apply served_log_grows. Qed.




End system_claims.

(** ** The login code *)

Lemma codesOf_cons env evt items :
  codesOf ((env, evt) :: items) =
  (if decide (Event evt = "code") then [Code evt] else []) ++ codesOf items.
Proof. unfold codesOf. cbn [omap list_omap snd]. by case_decide. Qed.

Lemma drainQRChannel_cons env evt items w :
  exec (drainQRChannel ((env, evt) :: items)) w =
  exec (drainQRChannel items) (exec (onQRChannelItem env evt) w).
Proof. cbn [drainQRChannel]. by rewrite exec_bind. Qed.

Lemma onQRChannelItem_codeFile env evt w :
  (Event evt = "code" → saveWorks env) →
  codeFile (exec (onQRChannelItem env evt) w) =
  if decide (Event evt = "code") then Some (Code evt) else codeFile w.
Proof.
  intros Hs. case_decide as Hev.
  - destruct evt as [event code]. cbn in Hev. subst event.
    by apply onQRChannelItem_code, Hs.
  - unfold onQRChannelItem. by rewrite decide_False.
Qed.

(** X10. Draining the QR channel, whatever the surroundings: every item
    with the event code is drawn on the terminal and posted to the remote
    endpoint, exactly once and in the order of the items, also when saving
    the code or the post fails; any other item causes no call.  No file
    other than the code file changes. *)
Theorem qr_channel_calls items w :
  let w' := exec (drainQRChannel items) w in
  calls w' = calls w ++ concat (codeCalls <$> codesOf items) ∧
  ∀ name, name ≠ qrCodeFilePath → files w' !! name = files w !! name.
Proof.
  revert w. induction items as [|[env evt] items IH]; intros w.
  { cbn. by rewrite app_nil_r. }
  cbv zeta. rewrite drainQRChannel_cons, codesOf_cons.
  destruct (IH (exec (onQRChannelItem env evt) w)) as (-> & Hf).
  destruct (onQRChannelItem_frame env evt w) as (-> & _ & _ & _ & Hf1).
  split.
  - rewrite <- app_assoc. f_equal. rewrite fmap_app, concat_app.
    f_equal. case_decide; cbn; by rewrite ?app_nil_r.
  - intros name Hn. by rewrite Hf, Hf1.
Qed.

(** X11. If the code file can be created and written whenever a code
    arrives, then after draining the QR channel the file holds the last
    code of the channel; if the channel held no code the file is as
    before. *)
Theorem qr_channel_last_code items w :
  Forall (λ item, Event item.2 = "code" → saveWorks item.1) items →
  codeFile (exec (drainQRChannel items) w) =
  match last (codesOf items) with
  | Some code => Some code
  | None => codeFile w
  end.
Proof.
  revert w. induction items as [|[env evt] items IH]; intros w Hs; [done|].
  apply Forall_cons in Hs as [Hs1 Hs]. cbn [fst snd] in Hs1.
  rewrite drainQRChannel_cons, codesOf_cons, IH by done.
  rewrite last_app. destruct (last (codesOf items)) as [code|]; [done|].
  rewrite onQRChannelItem_codeFile by done. by case_decide.
Qed.

Section qr_endpoint_claims.
Context `{Platform}.

(** X12. The two QR endpoints read the same code file and change nothing
    but the process log.  If GET /qr/text fails, it and GET /qr/photo both
    answer 500 with the body Failed to generate QR code, and whenever the
    photo endpoint fails it answers with that body.  If GET /qr/photo
    answers 200, the file holds a code, GET /qr/text returns that code,
    and the image is the PNG encoding of the QR image of that very code at
    size 256. *)
Theorem qr_endpoints_agree env w :
  let text := eval (generateQRTextHandler env) w in
  let photo := eval (generateQRPhotoHandler env) w in
  onlyLogged w (exec (generateQRTextHandler env) w) ∧
  onlyLogged w (exec (generateQRPhotoHandler env) w) ∧
  (gin.status text ≠ StatusOK → text = qrFailure ∧ photo = qrFailure) ∧
  (gin.status photo ≠ StatusOK → photo = qrFailure) ∧
  (gin.status photo = StatusOK →
   ∃ code qr png,
     read_fails env = None ∧ codeFile w = Some code ∧
     text = {| gin.status := StatusOK;
               gin.body := gin.JSON [("qr_code", gin.JString code)] |} ∧
     qrcode_New code = Ok qr ∧ png_Encode (qr_Image qr 256) = Ok png ∧
     photo = {| gin.status := StatusOK; gin.body := gin.Raw "image/png" png |}).
Proof.
  intros text photo. split_and!.
  - apply generateQRTextHandler_onlyLogged.
  - apply generateQRPhotoHandler_onlyLogged.
  - subst text photo. unfold eval, generateQRTextHandler, generateQRPhotoHandler,
      os.ReadFile, codeFile.
    destruct (read_fails env); run; [done|].
    destruct (files w !! qrCodeFilePath); run; done.
  - subst photo. unfold eval, generateQRPhotoHandler, os.ReadFile.
    destruct (read_fails env); run; [done|].
    destruct (files w !! qrCodeFilePath) as [code|]; run; [|done].
    destruct (qrcode_New code) as [qr|]; run; [|done].
    destruct (png_Encode (qr_Image qr 256)); run; done.
  - subst text photo. unfold eval, generateQRTextHandler, generateQRPhotoHandler,
      os.ReadFile, codeFile.
    destruct (read_fails env); run; [done|].
    destruct (files w !! qrCodeFilePath) as [code|]; run; [|done].
    destruct (qrcode_New code) as [qr|] eqn:Hqr; run; [|done].
    destruct (png_Encode (qr_Image qr 256)) as [png|] eqn:Hpng; run; [|done].
    intros _. by exists code, qr, png.
Qed.

End qr_endpoint_claims.

(** ** The earlier revisions *)

Lemma classify_text_cases msg :
  (waProto.GetConversation msg ≠ "" ∧ classify msg = Text) ∨
  (waProto.GetConversation msg = "" ∧
   ∃ e, waProto.GetExtendedTextMessage msg = Some e ∧ classify msg = ExtendedText) ∨
  (waProto.GetConversation msg = "" ∧ waProto.GetExtendedTextMessage msg = None ∧
   classify msg ≠ Text ∧ classify msg ≠ ExtendedText).
Proof.
  unfold classify, precedence. cbn [firstSatisfied satisfies].
  destruct (decide (waProto.GetConversation msg ≠ "")) as [Hc|Hc].
  { left. by rewrite bool_decide_true. }
  right. rewrite (bool_decide_false _ Hc).
  assert (Hc' : waProto.GetConversation msg = "").
  { by destruct (decide (waProto.GetConversation msg = "")). }
  destruct (waProto.GetExtendedTextMessage msg) as [e|]; [left; eauto|].
  right. split_and!; [done|done| |]; cbn; repeat case_bool_decide; done.
Qed.

Section earlier_claims.
Context `{Platform}.
Local Arguments Earlier.writeToCSV : simpl never.

Lemma earlier_handle_exec env message w :
  let msg := events.Message_ message in
  exec (Earlier.handleReceivedMessage env message) w =
  if decide (classify msg = Text ∨ classify msg = ExtendedText) then
    exec (Earlier.writeToCSV env (senderOf message) (textSummary msg)
            (events.Timestamp (events.Info message)))
      (exec (Earliest.handleReceivedMessage message) w)
  else exec (Earliest.handleReceivedMessage message) w.
Proof.
  intros msg. subst msg.
  unfold Earlier.handleReceivedMessage, Earliest.handleReceivedMessage, senderOf,
    textSummary, exec.
  destruct (classify_text_cases (events.Message_ message))
    as [(Hc & Hk)|[(Hc & e & He & Hk)|(Hc & He & Hk1 & Hk2)]]; rewrite ?Hk.
  - rewrite (decide_True (P := _ ∨ _)) by auto.
    destruct (decide (waProto.GetConversation (events.Message_ message) ≠ ""));
      [|done]. run.
    match goal with |- context [Earlier.writeToCSV ?e ?s ?m ?t ?w0] =>
      destruct (Earlier.writeToCSV e s m t w0) as [[] w1] end. done.
  - rewrite (decide_True (P := _ ∨ _)) by auto.
    destruct (decide (waProto.GetConversation (events.Message_ message) ≠ ""));
      [done|]. rewrite He. run.
    match goal with |- context [Earlier.writeToCSV ?e ?s ?m ?t ?w0] =>
      destruct (Earlier.writeToCSV e s m t w0) as [[] w1] end. done.
  - rewrite (decide_False (P := _ ∨ _)) by (by intros [|]).
    destruct (decide (waProto.GetConversation (events.Message_ message) ≠ ""));
      [done|]. rewrite He. done.
Qed.

Lemma earliest_handle_exec message w :
  ∃ line, exec (Earliest.handleReceivedMessage message) w =
          set_printed (λ l, l ++ [line]) w.
Proof.
  unfold exec, Earliest.handleReceivedMessage. case_decide; [by eexists|].
  destruct (waProto.GetExtendedTextMessage _); by eexists.
Qed.

(** X13. The handler of the four-column revision never makes an external
    call (so it downloads nothing) and changes no directory and no file
    but the log.  A message that is neither Text nor ExtendedText, media
    messages included, only prints that its type could not be determined.
    A Text or ExtendedText message, with a log that can be written,
    appends the row id, sender, text, timestamp. *)
Theorem earlier_handler_text_only env message w :
  let msg := events.Message_ message in
  let w' := exec (Earlier.handleReceivedMessage env message) w in
  calls w' = calls w ∧ dirs w' = dirs w ∧
  (∀ name, name ≠ csvFilePath → files w' !! name = files w !! name) ∧
  (classify msg ≠ Text → classify msg ≠ ExtendedText →
   w' = set_printed (λ l, l ++ ["Received a message from " +:+ senderOf message +:+
                                ", but could not determine its type"]) w) ∧
  (classify msg = Text ∨ classify msg = ExtendedText → logWorks env →
   rowAppended earlierHeader w w'
     [idAt w; senderOf message; textSummary msg; timestampOf message]).
Proof.
  intros msg w'. subst w'. rewrite earlier_handle_exec. fold msg.
  destruct (earliest_handle_exec message w) as (line & Hline).
  case_decide as Hk.
  - rewrite Hline.
    destruct (appendToCSV_any env earlierHeader
      (λ id, [id; senderOf message; textSummary msg; timestampOf message])
      (set_printed (λ l, l ++ [line]) w)) as (Hc & Hd & _ & Hf & _).
    rewrite earlier_writeToCSV_shape.
    split_and!; [done|done|done| |].
    + intros H1 H2. by destruct Hk.
    + intros _ Hlog.
      apply (appended_rowAppended earlierHeader
        (λ id, [id; senderOf message; textSummary msg; timestampOf message])
        (set_printed (λ l, l ++ [line]) w) w); [done|].
      by rewrite appendToCSV_works.
  - rewrite Hline. split_and!; [done|done|done| |by intros ?].
    intros _ _. revert Hline. unfold exec, Earliest.handleReceivedMessage.
    destruct (classify_text_cases msg)
      as [(Hc & Hk')|[(Hc & e & He & Hk')|(Hc & He & Hk1 & Hk2)]].
    + destruct Hk. auto.
    + destruct Hk. auto.
    + fold msg.
      destruct (decide (waProto.GetConversation msg ≠ "")); [done|]. rewrite He.
      unfold senderOf. cbn [snd]. by intros <-.
Qed.





End earlier_claims.

(** ** Logs of two revisions *)

(** A log whose records do not all have the width of the first one is
    rejected by the reader. *)
Lemma ReadAll_uneven first others :
  Forall (λ r, 2 ≤ length r)%nat (first :: others) →
  Exists (λ r, length r ≠ length first) others →
  csv.ReadAll (writtenLog (first :: others)) = None.
Proof.
  intros Hwide Hodd. unfold csv.ReadAll. rewrite read_writtenLog by done.
  cbn [app map csv.fieldCountsAgree].
  destruct (forallb _ _) eqn:Hall; [|done]. exfalso.
  rewrite forallb_forall in Hall. apply Exists_exists in Hodd as (r & Hin & Hr).
  specialize (Hall (map unCRLF r)).
  rewrite !length_map in Hall. apply Hr, Nat.eqb_eq, Hall.
  apply list_elem_of_In, list_elem_of_fmap. by exists r.
Qed.

Section mixed_claims.
Context `{Platform}.

Lemma appended_other_width header other row env envRead w rows :
  logHolds header w rows → rows ≠ [] → logWorks env → read_fails envRead = None →
  (2 ≤ length header)%nat →
  (∀ id, (2 ≤ length (row id))%nat ∧ length (row id) ≠ length header) →
  eval (getCSVContentsHandler envRead) (exec (appendToCSV env other row) w) =
  unreadable.
Proof.
  intros Hlog Hne Hw Hr Hh Hrow.
  destruct Hlog as [[-> _]|(records & -> & Hall & Hc)]; [done|].
  rewrite appendToCSV_works by done.
  unfold eval, getCSVContentsHandler, os.ReadFile. rewrite Hr. run.
  unfold appendedFiles. rewrite lookup_insert_eq. sim.
  rewrite Hc. unfold headerIfEmpty. rewrite decide_False.
  2:{ cbn [writtenLog]. unfold csv.Write. destruct (csv.writeFields header); done. }
  unfold_app.
  set (r := row _).
  replace (writtenLog (header :: records) +:+ csv.Write r)
    with (writtenLog (header :: (records ++ [r]))).
  2:{ change (header :: records ++ [r]) with ((header :: records) ++ [r]).
      rewrite writtenLog_app. cbn [writtenLog]. by rewrite string_app_nil_r. }
  rewrite ReadAll_uneven; [done| |].
  - constructor; [done|]. apply Forall_app. split.
    + eapply Forall_impl; [done|]. cbn. intros ? ->. done.
    + constructor; [|constructor]. apply Hrow.
  - apply Exists_app. right. constructor. apply Hrow.
Qed.

(** X5. A log started by one revision and continued by the other cannot be
    read any more: when the log holds the four-column header and records
    and the current revision appends a row, or the other way round,
    GET /csv answers 500 Failed to read CSV file, because the reader wants
    every record as wide as the first. *)
Theorem mixed_columns_unreadable env envRead w rows :
  logWorks env → read_fails envRead = None → rows ≠ [] →
  (logHolds earlierHeader w rows →
   ∀ sender kind summary ts,
     eval (getCSVContentsHandler envRead)
       (exec (writeToCSV env sender kind summary ts) w) = unreadable) ∧
  (logHolds mainHeader w rows →
   ∀ sender message ts,
     eval (getCSVContentsHandler envRead)
       (exec (Earlier.writeToCSV env sender message ts) w) = unreadable).
Proof.
  intros Hw Hr Hne. split; intros Hlog.
  - intros sender kind summary ts. rewrite writeToCSV_shape.
    apply (appended_other_width earlierHeader _ _ _ _ _ rows); try done.
    + cbn. lia.
    + intros id. cbn. split; [lia|done].
  - intros sender message ts. rewrite earlier_writeToCSV_shape.
    apply (appended_other_width mainHeader _ _ _ _ _ rows); try done.
    + cbn. lia.
    + intros id. cbn. split; [lia|done].
Qed.

End mixed_claims.

(** ** The order of the rows *)

Section order_claims.
Context `{Platform}.

Lemma runAll_appendEntry_works entries : ∀ w rows,
  logHolds mainHeader w rows → Forall (λ e, logWorks e.1) entries →
  entries ≠ [] →
  let w' := exec (runAll appendEntry entries) w in
  logHolds mainHeader w'
    (seeded mainHeader rows ++ imap (λ i e, entryRow e.2 (idAfter w i)) entries) ∧
  files w' !! csvFilePath = Some (logContents w').
Proof.
  induction entries as [|[env e] entries IH]; intros w rows Hlog Hw Hne; [done|].
  apply Forall_cons in Hw as [Hw1 Hw]. cbn [fst] in Hw1.
  cbv zeta. rewrite runAll_cons.
  unfold appendEntry at 2. rewrite writeToCSV_shape.
  set (row := λ id, [id; entrySender e; entryKind e; entrySummary e; entryTimestamp e]).
  assert (Hlog1 : logHolds mainHeader (exec (appendToCSV env mainHeader row) w)
                    (seeded mainHeader rows ++ [row (idAt w)])).
  { apply appended_logHolds; [|done|done]. by rewrite appendToCSV_works. }
  assert (Htick : tick (exec (appendToCSV env mainHeader row) w) = S (tick w)).
  { by rewrite appendToCSV_works. }
  assert (Hfile : files (exec (appendToCSV env mainHeader row) w) !! csvFilePath =
                  Some (logContents (exec (appendToCSV env mainHeader row) w))).
  { unfold logContents. rewrite appendToCSV_works by done.
    cbn [files set_tick set_files]. unfold appendedFiles.
    by rewrite lookup_insert_eq. }
  set (w1 := exec (appendToCSV env mainHeader row) w) in *.
  rewrite imap_cons. cbn [snd].
  replace (idAfter w 0) with (idAt w) by (unfold idAfter, idAt; by rewrite Nat.add_0_r).
  destruct entries as [|entry entries].
  { cbn [runAll imap]. split; [exact Hlog1|exact Hfile]. }
  destruct (IH w1 _ Hlog1 Hw) as (Hfin & Hf); [done|]. cbv zeta in Hfin, Hf.
  split; [|exact Hf].
  rewrite seeded_app_seeded, <- app_assoc in Hfin. cbn [app] in Hfin.
  replace (imap ((λ i e0, entryRow e0.2 (idAfter w i)) ∘ S) (entry :: entries))
    with (imap (λ i e0, entryRow e0.2 (idAfter w1 i)) (entry :: entries)); [done|].
  apply imap_ext. intros i x _. cbn. unfold idAfter. rewrite Htick.
  by rewrite Nat.add_succ_r.
Qed.

(** X4. The rows come back in the order of the appends.  After a run of
    working appends to an empty or missing log, GET /csv answers 200 with
    the header followed by one row per append, in the order of the
    appends; row number i has the id of the i-th clock reading after the
    start and the four fields of the append, a carriage return before a
    line feed removed. *)
Theorem appends_read_in_order entries envRead w :
  logContents w = "" → entries ≠ [] → Forall (λ e, logWorks e.1) entries →
  read_fails envRead = None →
  eval (getCSVContentsHandler envRead) (exec (runAll appendEntry entries) w) =
  {| gin.status := StatusOK;
     gin.body := gin.JSON [("data", gin.JRows
       (mainHeader ::
        imap (λ i e, readRow e.2
                (fmt.sprintf_d (time.UnixNano (clock (tick w + i))))) entries))] |}.
Proof.
  intros Hempty Hne Hw Hr.
  destruct (runAll_appendEntry_works entries w []) as (Hlog & Hfile);
    [by left|done|done|]. cbv zeta in Hlog, Hfile.
  apply logHolds_read in Hlog as (recs & _ & Hread); [|cbn; lia|done].
  set (w' := exec (runAll appendEntry entries) w) in *.
  unfold eval, getCSVContentsHandler, os.ReadFile. rewrite Hr. run.
  rewrite Hfile. sim. rewrite Hread. cbn [seeded app map]. run.
  do 5 f_equal.
  change (map (map unCRLF)) with (fmap (M := list) (map unCRLF)).
  rewrite fmap_imap. f_equal. apply imap_ext. intros i [env e] _. cbn.
  unfold readRow, idAfter. by rewrite unCRLF_sprintf_d.
Qed.

End order_claims.

(** ** The Media Store *)

Lemma string_app_inj_r (a b t : string) : a +:+ t = b +:+ t → a = b.
Proof.
  revert b. induction a as [|x a IH]; intros [|y b] Heq; [done| | |].
  - apply (f_equal String.length) in Heq. unfold_app_in Heq.
    cbn [String.length] in Heq. rewrite string_app_length in Heq. lia.
  - apply (f_equal String.length) in Heq. unfold_app_in Heq.
    cbn [String.length] in Heq. rewrite string_app_length in Heq. lia.
  - unfold_app_in Heq. injection Heq as -> Heq. f_equal. by apply IH.
Qed.

Lemma sprintf_d_inj x y : fmt.sprintf_d x = fmt.sprintf_d y → x = y.
Proof. unfold fmt.sprintf_d. apply (inj pretty). Qed.

Lemma mediaPath_inj mediaType now now' :
  mediaPath mediaType now = mediaPath mediaType now' →
  time.UnixNano now = time.UnixNano now'.
Proof.
  unfold mediaPath. rewrite !string_app_assoc.
  intros Heq. apply String.app_inj in Heq. apply String.app_inj in Heq.
  apply String.app_inj in Heq. apply string_app_inj_r in Heq.
  by apply sprintf_d_inj.
Qed.

Section media_store_claims.
Context `{Platform}.

(** X6. Two saves of the same kind, one after the other, both working.
    Each returns the path of its own clock reading and the second file
    holds the second payload.  If the two readings show the same
    nanosecond the paths are the same, so the first payload is
    overwritten; otherwise the paths differ and the first file still holds
    the first payload. *)
Theorem saveMedia_twice env1 env2 mediaType data1 data2 w :
  mkdirAll_fails env1 = None → writeFile_fails env1 = None →
  mkdirAll_fails env2 = None → writeFile_fails env2 = None →
  let path1 := mediaPath mediaType (clock (tick w)) in
  let path2 := mediaPath mediaType (clock (S (tick w))) in
  let w1 := exec (saveMedia env1 mediaType data1) w in
  let w2 := exec (saveMedia env2 mediaType data2) w1 in
  eval (saveMedia env1 mediaType data1) w = Ok path1 ∧
  eval (saveMedia env2 mediaType data2) w1 = Ok path2 ∧
  files w2 !! path2 = Some data2 ∧
  (time.UnixNano (clock (tick w)) = time.UnixNano (clock (S (tick w))) →
   path1 = path2) ∧
  (time.UnixNano (clock (tick w)) ≠ time.UnixNano (clock (S (tick w))) →
   path1 ≠ path2 ∧ files w2 !! path1 = Some data1).
Proof.
  intros Hm1 Hw1 Hm2 Hw2 path1 path2 w1 w2. subst w1 w2.
  unfold eval, exec. rewrite (saveMedia_works env1) by done. cbn [fst snd].
  rewrite (saveMedia_works env2) by done.
  cbn [fst snd files tick set_logged set_files set_tick set_dirs].
  fold path1 path2. split_and!; [done|done|apply lookup_insert_eq| |].
  - intros Heq. subst path1 path2. unfold mediaPath. by rewrite Heq.
  - intros Hne. assert (path1 ≠ path2).
    { intros Heq. by apply mediaPath_inj in Heq. }
    split; [done|]. rewrite lookup_insert_ne by done. apply lookup_insert_eq.
Qed.

End media_store_claims.

Section report_claims.
Context `{Platform}.


End report_claims.

(** ** Clock readings and ids *)

Section tick_facts.
Context `{Platform}.
Local Arguments writeToCSV : simpl never.
Local Arguments saveMedia : simpl never.
Local Arguments serve : simpl never.

(** An append leaves the log as it is, or adds its row with the id of the
    clock reading it took. *)
Lemma writeToCSV_timed env sender kind summary ts w1 w :
  logContents w1 = logContents w → (tick w ≤ tick w1)%nat →
  let w' := exec (writeToCSV env sender kind summary ts) w1 in
  (logContents w' = logContents w ∧ tick w ≤ tick w')%nat ∨
  ∃ row t,
    length row = 5%nat ∧ rowAppended mainHeader w w' row ∧
    head row = Some (fmt.sprintf_d (time.UnixNano (clock t))) ∧
    (tick w ≤ t < tick w')%nat.
Proof.
  intros Hc Ht w'. subst w'. rewrite writeToCSV_shape.
  destruct (appendToCSV_report env mainHeader
    (λ id, [id; sender; kind; summary; ts]) w1) as (_ & Hrow & Hsame & Hmono).
  destruct (decide (appendReport env (logContents w1) = [])) as [Hr|Hr];
    [destruct (flush_fails env) eqn:Hf|].
  - left. split; [|lia]. rewrite <- Hc. apply Hsame. by right.
  - right. destruct (Hrow Hr eq_refl) as (Hfiles & Htick).
    exists [idAt w1; sender; kind; summary; ts], (tick w1).
    split_and!; [done| |done|lia|lia].
    exact (appended_rowAppended mainHeader
        (λ id, [id; sender; kind; summary; ts]) w1 w _ Hc Hfiles).
  - left. split; [|lia]. rewrite <- Hc. apply Hsame. by left.
Qed.

Lemma handleMedia_timed env sender ts m w0 w :
  logContents w0 = logContents w → (tick w ≤ tick w0)%nat →
  let w' := exec (handleMedia env sender ts m) w0 in
  (logContents w' = logContents w ∧ tick w ≤ tick w')%nat ∨
  ∃ row t,
    length row = 5%nat ∧ rowAppended mainHeader w w' row ∧
    head row = Some (fmt.sprintf_d (time.UnixNano (clock t))) ∧
    (tick w ≤ t < tick w')%nat.
Proof.
  intros Hc Ht. unfold handleMedia, client_Download.
  rewrite !exec_bind. rewrite !eval_bind.
  change (eval (mret (download env m)) _) with (download env m).
  destruct (download env m) as [data|e]; [|left; split; [done|cbn; lia]].
  rewrite !exec_bind.
  set (w1 := exec (log_Print (mediaNotice m))
               (exec (mret (Ok data)) (exec (record_call (CallDownload m)) w0))).
  assert (Hc1 : logContents w1 = logContents w) by done.
  assert (Ht1 : (tick w ≤ tick w1)%nat) by (cbn; lia).
  destruct (mkdirAll_fails env) as [e|] eqn:Hmk.
  { unfold eval, exec, saveMedia, os.MkdirAll. rewrite Hmk. run.
    left. split; [done|lia]. }
  destruct (writeFile_fails env) as [e|] eqn:Hwf.
  { unfold eval, exec, saveMedia, os.MkdirAll, os.WriteFile. rewrite Hmk, Hwf.
    run. run. left. split; [done|lia]. }
  pose proof (saveMedia_works env (mediaTypeOf m) data w1 Hmk Hwf) as Hsave.
  cbv zeta in Hsave.
  assert (Hev : eval (saveMedia env (mediaTypeOf m) data) w1 =
                Ok (mediaPath (mediaTypeOf m) (clock (tick w1))))
    by (unfold eval; by rewrite Hsave).
  assert (Hex : exec (saveMedia env (mediaTypeOf m) data) w1 =
    set_logged (λ l, l ++ ["Saved media file: " +:+
                           mediaPath (mediaTypeOf m) (clock (tick w1))])
      (set_files <[mediaPath (mediaTypeOf m) (clock (tick w1)) := data]>
         (set_tick S (set_dirs (λ d, {["media/" +:+ mediaTypeOf m]} ∪ d) w1))))
    by (unfold exec; by rewrite Hsave).
  rewrite Hev, Hex.
  apply writeToCSV_timed.
  - rewrite <- Hc1. apply logContents_frame. cbn [files set_logged set_files].
    apply lookup_insert_ne, media_path_not_log.
  - cbn [tick set_logged set_files set_tick set_dirs]. lia.
Qed.

Lemma handle_timed env v w :
  let w' := exec (handleReceivedMessage env v) w in
  (logContents w' = logContents w ∧ tick w ≤ tick w')%nat ∨
  ∃ row t,
    length row = 5%nat ∧ rowAppended mainHeader w w' row ∧
    head row = Some (fmt.sprintf_d (time.UnixNano (clock t))) ∧
    (tick w ≤ t < tick w')%nat.
Proof.
  cbv zeta. destruct (mediaOf (events.Message_ v)) as [m|] eqn:Hm.
  - rewrite (handle_media _ _ m) by done.
    apply handleMedia_timed; [done|cbn; lia].
  - rewrite handle_nonmedia by done.
    apply writeToCSV_timed; [done|cbn; lia].
Qed.

End tick_facts.

Lemma idsOf_app_row rows row id :
  rows ≠ [] → head row = Some id → idsOf (rows ++ [row]) = idsOf rows ++ [id].
Proof.
  intros Hne Hid. unfold idsOf. destruct rows as [|h rows]; [done|].
  cbn [app tail]. rewrite omap_app. cbn. by rewrite Hid.
Qed.

Lemma idsOf_unCRLF rows :
  Forall (λ id, unCRLF id = id) (idsOf rows) →
  idsOf (map (map unCRLF) rows) = idsOf rows.
Proof.
  unfold idsOf. destruct rows as [|h rows]; [done|]. cbn [map tail].
  induction rows as [|r rows IH]; [done|]. cbn [map omap list_omap].
  destruct r as [|id r]; cbn [map head]; [exact IH|].
  intros [Hid Hrest]%Forall_cons. rewrite Hid. f_equal. by apply IH.
Qed.

Section timed_runs.
Context `{Platform}.
Local Arguments writeToCSV : simpl never.
Local Arguments serve : simpl never.
Local Arguments handleReceivedMessage : simpl never.
Local Arguments onQRChannelItem : simpl never.

Lemma sendMessageHandler_timed env body w :
  let w' := exec (sendMessageHandler env body) w in
  (logContents w' = logContents w ∧ tick w ≤ tick w')%nat ∨
  ∃ row t,
    length row = 5%nat ∧ rowAppended mainHeader w w' row ∧
    head row = Some (fmt.sprintf_d (time.UnixNano (clock t))) ∧
    (tick w ≤ t < tick w')%nat.
Proof.
  cbv zeta. unfold exec at 1 2 3 4.
  destruct (gin.ShouldBindJSON body) as [request|e] eqn:Hb.
  - destruct (sendMessage_fails env) as [e|] eqn:Hs.
    + rewrite (sendMessageHandler_failed _ _ request e) by done.
      left. split; [done|cbn; lia].
    + rewrite (sendMessageHandler_sent _ _ request) by done. cbn [snd].
      apply (writeToCSV_timed env "me" "SentMessage" (gin.Text request)
               (time.Format_RFC3339 (clock (tick w)))
               (afterSend env (gin.JID request) (gin.Text request)
                  (set_logged (λ l, l ++ [requestLine request]) w)) w);
        [done|cbn; lia].
  - rewrite (sendMessageHandler_rejected _ _ e) by done.
    left. split; [done|cbn; lia].
Qed.

Lemma serve_timed env input w :
  let w' := exec (serve env input) w in
  (logContents w' = logContents w ∧ tick w ≤ tick w')%nat ∨
  ∃ row t,
    length row = 5%nat ∧ rowAppended mainHeader w w' row ∧
    head row = Some (fmt.sprintf_d (time.UnixNano (clock t))) ∧
    (tick w ≤ t < tick w')%nat.
Proof.
  destruct input as [evt|evt|method path body].
  - destruct evt as [v| | | | |typeName];
      try (left; split; [done|unfold serve, eventHandler; cbn; lia]).
    apply handle_timed.
  - left. destruct (onQRChannelItem_frame env evt w) as (_ & _ & _ & Ht & Hf).
    change (exec (serve env (FromQRChannel evt)) w)
      with (exec (onQRChannelItem env evt) w).
    split; [|lia]. apply logContents_frame. by apply Hf.
  - cbv zeta. rewrite serve_http. repeat case_decide.
    + apply sendMessageHandler_timed.
    + left.
      destruct (onlyLogged_fields _ _ (generateQRTextHandler_onlyLogged env w))
        as (Hf & _ & _ & _ & Ht).
      split; [|lia]. apply logContents_frame. by rewrite Hf.
    + left.
      destruct (onlyLogged_fields _ _ (generateQRPhotoHandler_onlyLogged env w))
        as (Hf & _ & _ & _ & Ht).
      split; [|lia]. apply logContents_frame. by rewrite Hf.
    + left.
      destruct (onlyLogged_fields _ _ (getCSVContentsHandler_onlyLogged env w))
        as (Hf & _ & _ & _ & Ht).
      split; [|lia]. apply logContents_frame. by rewrite Hf.
    + left. split; [done|lia].
Qed.

Lemma logTimed_step w w' rows :
  logTimed w rows →
  ((logContents w' = logContents w ∧ tick w ≤ tick w')%nat ∨
   ∃ row t,
     length row = 5%nat ∧ rowAppended mainHeader w w' row ∧
     head row = Some (fmt.sprintf_d (time.UnixNano (clock t))) ∧
     (tick w ≤ t < tick w')%nat) →
  ∃ rows', logTimed w' rows'.
Proof.
  intros (Hlog & ticks & Hids & Hnd & Hlt) [(Hc & Ht)|(row & t & Hlen & Hrow & Hid & Ht)].
  - exists rows. split; [by apply (logHolds_same mainHeader w)|].
    exists ticks. split_and!; [done|done|].
    eapply Forall_impl; [done|]. cbn. intros. lia.
  - exists (seeded mainHeader rows ++ [row]). split.
    { by apply (rowAppended_logHolds mainHeader w). }
    exists (ticks ++ [t]). split_and!.
    + rewrite (idsOf_app_row (seeded mainHeader rows) row
                 (fmt.sprintf_d (time.UnixNano (clock t))))
        by (by destruct rows).
      unfold idsFrom. rewrite fmap_app. cbn [fmap list_fmap]. f_equal.
      destruct rows as [|r rows]; [|done]. cbn in Hids.
      unfold idsFrom in Hids. symmetry in Hids. apply fmap_nil_inv in Hids.
      by subst.
    + apply NoDup_app. split_and!; [done| |apply NoDup_singleton].
      intros x Hx Hx'. apply list_elem_of_singleton in Hx'. subst x.
      rewrite Forall_forall in Hlt. specialize (Hlt _ Hx). lia.
    + apply Forall_app. split.
      * eapply Forall_impl; [done|]. cbn. intros. lia.
      * constructor; [lia|constructor].
Qed.

Lemma served_logTimed inputs : ∀ w rows,
  logTimed w rows → ∃ rows', logTimed (exec (runAll serve inputs) w) rows'.
Proof.
  induction inputs as [|[env input] inputs IH]; intros w rows Hlog; [by exists rows|].
  rewrite runAll_cons.
  destruct (logTimed_step w (exec (serve env input) w) rows Hlog) as (rows1 & Hlog1).
  { apply serve_timed. }
  by apply (IH _ rows1).
Qed.

(** X19. If the clock never shows the same nanosecond twice, the rows of
    the log have distinct ids: starting with an empty or missing log,
    after any run of reactions the first fields of the rows that GET /csv
    returns below the header differ from each other. *)
Theorem row_ids_distinct inputs envRead w rows :
  (∀ i j, time.UnixNano (clock i) = time.UnixNano (clock j) → i = j) →
  logContents w = "" →
  eval (getCSVContentsHandler envRead) (exec (runAll serve inputs) w) =
    {| gin.status := StatusOK;
       gin.body := gin.JSON [("data", gin.JRows rows)] |} →
  NoDup (idsOf rows).
Proof.
  intros Hclock Hempty.
  destruct (served_logTimed inputs w []) as (rows' & Hlog & ticks & Hids & Hnd & _).
  { split; [by left|]. exists []. split_and!; [done|constructor|constructor]. }
  set (w' := exec (runAll serve inputs) w) in *.
  unfold eval, getCSVContentsHandler, os.ReadFile.
  destruct (read_fails envRead); run; [done|].
  destruct (files w' !! csvFilePath) as [contents|] eqn:Hfile; run; [|done].
  assert (Hc : logContents w' = contents) by (unfold logContents; by rewrite Hfile).
  assert (Hread : csv.ReadAll contents = Some (map (map unCRLF) rows')).
  { destruct Hlog as [[-> Hnil]|(records & -> & Hall & Hlog)].
    - rewrite Hc in Hnil. by subst contents.
    - rewrite <- Hc, Hlog.
      apply (ReadAll_writtenLog 5); [lia|by constructor]. }
  rewrite Hread. intros [= <-].
  rewrite idsOf_unCRLF.
  2:{ rewrite Hids. unfold idsFrom. apply Forall_fmap, Forall_forall.
      intros t _. cbn. apply unCRLF_sprintf_d. }
  rewrite Hids. unfold idsFrom. apply NoDup_fmap_2_strong; [|done].
  intros i j _ _ Heq. apply Hclock. by apply sprintf_d_inj.
Qed.

End timed_runs.

(** ** The further properties on samples *)

(** X1 at a text message from a known sender. *)
Lemma nonmedia_record_witness :
  mediaOf (events.Message_ hiFromAlice) = None ∧ logWorks (quietEnv "") ∧
  rowAppended mainHeader emptyWorld afterHi
    ["0"; "77001112233@s.whatsapp.net"; "Conversation"; "hi"; sampleTime].
Proof.
  assert (Hm : mediaOf (events.Message_ hiFromAlice) = None) by reflexivity.
  destruct (@nonmedia_record demoPlatform (quietEnv "") hiFromAlice emptyWorld Hm)
    as (_ & _ & Hrow).
  split_and!; [exact Hm|apply quietEnv_logWorks|exact (Hrow (quietEnv_logWorks ""))].
Defined.



(** X4 at two appends to a missing log. *)
Lemma appends_read_in_order_witness :
  logContents emptyWorld = "" ∧ twoEntries ≠ [] ∧
  Forall (λ e, logWorks e.1) twoEntries ∧ read_fails (quietEnv "") = None ∧
  eval (getCSVContentsHandler (quietEnv ""))
    (exec (@runAll LogEntry (@appendEntry demoPlatform) twoEntries) emptyWorld) =
  {| gin.status := StatusOK;
     gin.body := gin.JSON [("data", gin.JRows
       [mainHeader;
        ["0"; "alice"; "Conversation"; "hi"; sampleTime];
        ["1"; "me"; "SentMessage"; "hello"; sampleTime]])] |}.
Proof.
  assert (Hne : twoEntries ≠ []) by discriminate.
  assert (Hw : Forall (λ e, logWorks e.1) twoEntries) by repeat constructor.
  split_and!; [reflexivity|exact Hne|exact Hw|reflexivity|].
  exact (@appends_read_in_order demoPlatform twoEntries (quietEnv "") emptyWorld
           eq_refl Hne Hw eq_refl).
Defined.

(** X5 at a four-column log to which the current revision appends. *)
Lemma mixed_columns_unreadable_witness :
  logWorks (quietEnv "") ∧ read_fails (quietEnv "") = None ∧
  logHolds earlierHeader afterEarlierRow
    [earlierHeader; ["0"; "alice"; "hi"; sampleTime]] ∧
  eval (getCSVContentsHandler (quietEnv ""))
    (exec (@writeToCSV demoPlatform (quietEnv "") "me" "SentMessage" "hello"
             sampleTime) afterEarlierRow) = unreadable.
Proof.
  assert (Hlog : logHolds earlierHeader afterEarlierRow
                   [earlierHeader; ["0"; "alice"; "hi"; sampleTime]]).
  { right. exists [["0"; "alice"; "hi"; sampleTime]].
    split_and!; [reflexivity|repeat constructor|reflexivity]. }
  destruct (@mixed_columns_unreadable demoPlatform (quietEnv "") (quietEnv "")
              afterEarlierRow [earlierHeader; ["0"; "alice"; "hi"; sampleTime]]
              (quietEnv_logWorks "") eq_refl ltac:(discriminate)) as (Hmain & _).
  split_and!; [apply quietEnv_logWorks|reflexivity|exact Hlog|].
  exact (Hmain Hlog "me" "SentMessage" "hello" sampleTime).
Defined.

(** X6 with a clock that advances and with one that stands still. *)
Lemma saveMedia_twice_witness :
  mkdirAll_fails (quietEnv "") = None ∧ writeFile_fails (quietEnv "") = None ∧
  (time.UnixNano (@clock demoPlatform 0) ≠ time.UnixNano (@clock demoPlatform 1) ∧
   "media/image/0.jpg" ≠ "media/image/1.jpg" ∧
   files (exec (@saveMedia demoPlatform (quietEnv "") "image" "second")
            (exec (@saveMedia demoPlatform (quietEnv "") "image" "first") emptyWorld))
     !! "media/image/0.jpg" = Some "first") ∧
  (time.UnixNano (@clock frozenPlatform 0) = time.UnixNano (@clock frozenPlatform 1) ∧
   files (exec (@saveMedia frozenPlatform (quietEnv "") "image" "second")
            (exec (@saveMedia frozenPlatform (quietEnv "") "image" "first") emptyWorld))
     !! "media/image/7.jpg" = Some "second").
Proof.
  destruct (@saveMedia_twice demoPlatform (quietEnv "") (quietEnv "") "image"
              "first" "second" emptyWorld eq_refl eq_refl eq_refl eq_refl)
    as (_ & _ & _ & _ & Hdiff).
  destruct (@saveMedia_twice frozenPlatform (quietEnv "") (quietEnv "") "image"
              "first" "second" emptyWorld eq_refl eq_refl eq_refl eq_refl)
    as (_ & _ & Hsecond & _ & _).
  assert (Hne : time.UnixNano (@clock demoPlatform 0) ≠
                time.UnixNano (@clock demoPlatform 1)) by discriminate.
  destruct (Hdiff Hne) as (Hpaths & Hfirst).
  split_and!; [reflexivity|reflexivity|exact Hne|exact Hpaths|exact Hfirst
              |reflexivity|exact Hsecond].
Defined.


(** X9 at a request that is sent. *)
Lemma send_calls_once_witness :
  calls (exec (@sendMessageHandler demoPlatform (quietEnv "") sendToAlice) emptyWorld) =
    sendCalls "77001112233" "hello" ∧
  CallSendMessage alice (textMessage "hello") ∈ sendCalls "77001112233" "hello" ∧
  types.User alice ≠ "" ∧ waProto.GetConversation (Some (textMessage "hello")) ≠ "".
Proof.
  destruct (@send_calls_once demoPlatform (quietEnv "") sendToAlice emptyWorld)
    as (Hcalls & _ & _ & Hne).
  assert (Hin : CallSendMessage alice (textMessage "hello") ∈
                sendCalls "77001112233" "hello").
  { apply list_elem_of_lookup. by exists 1%nat. }
  destruct (Hne alice (textMessage "hello") Hin) as (Hu & Ht).
  split_and!; [exact Hcalls|exact Hin|exact Hu|exact Ht].
Defined.

(** X10 at two codes with another event between them. *)
Lemma qr_channel_calls_witness :
  calls (exec (drainQRChannel twoCodes) emptyWorld) =
    codeCalls "2@first" ++ codeCalls "2@second" ∧
  "messages.csv" ≠ qrCodeFilePath ∧
  files (exec (drainQRChannel twoCodes) emptyWorld) !! "messages.csv" = None.
Proof.
  destruct (qr_channel_calls twoCodes emptyWorld) as (Hcalls & Hfiles).
  assert (Hn : "messages.csv" ≠ qrCodeFilePath) by discriminate.
  split_and!; [exact Hcalls|exact Hn|exact (Hfiles "messages.csv" Hn)].
Defined.

(** X11 at the same run of the channel. *)
Lemma qr_channel_last_code_witness :
  Forall (λ item, Event item.2 = "code" → saveWorks item.1) twoCodes ∧
  codeFile (exec (drainQRChannel twoCodes) emptyWorld) = Some "2@second".
Proof.
  assert (Hs : Forall (λ item, Event item.2 = "code" → saveWorks item.1) twoCodes).
  { repeat constructor. }
  split; [exact Hs|]. exact (qr_channel_last_code twoCodes emptyWorld Hs).
Defined.

(** X12 with a code on file and without one. *)
Lemma qr_endpoints_agree_witness :
  (gin.status (eval (@generateQRPhotoHandler demoPlatform (quietEnv "")) afterCode) =
     StatusOK ∧
   ∃ code qr png,
     read_fails (quietEnv "") = None ∧ codeFile afterCode = Some code ∧
     eval (generateQRTextHandler (quietEnv "")) afterCode =
       {| gin.status := StatusOK;
          gin.body := gin.JSON [("qr_code", gin.JString code)] |} ∧
     @qrcode_New demoPlatform code = Ok qr ∧
     @png_Encode demoPlatform (@qr_Image demoPlatform qr 256) = Ok png ∧
     eval (@generateQRPhotoHandler demoPlatform (quietEnv "")) afterCode =
       {| gin.status := StatusOK; gin.body := gin.Raw "image/png" png |}) ∧
  (gin.status (eval (generateQRTextHandler (quietEnv "")) emptyWorld) ≠ StatusOK ∧
   eval (generateQRTextHandler (quietEnv "")) emptyWorld = qrFailure ∧
   eval (@generateQRPhotoHandler demoPlatform (quietEnv "")) emptyWorld = qrFailure).
Proof.
  destruct (@qr_endpoints_agree demoPlatform (quietEnv "") afterCode)
    as (_ & _ & _ & _ & Hok).
  destruct (@qr_endpoints_agree demoPlatform (quietEnv "") emptyWorld)
    as (_ & _ & Hfail & _).
  assert (Hst : gin.status (eval (generateQRTextHandler (quietEnv "")) emptyWorld) ≠
                StatusOK) by discriminate.
  split_and!; [reflexivity|exact (Hok eq_refl)|exact Hst
              |exact (proj1 (Hfail Hst))|exact (proj2 (Hfail Hst))].
Defined.

(** X13 at a text message and at an audio message. *)
Lemma earlier_handler_text_only_witness :
  (classify (events.Message_ hiFromAlice) = Text ∧ logWorks (quietEnv "") ∧
   rowAppended earlierHeader emptyWorld
     (exec (@Earlier.handleReceivedMessage demoPlatform (quietEnv "") hiFromAlice)
        emptyWorld)
     ["0"; "77001112233@s.whatsapp.net"; "hi"; sampleTime]) ∧
  (classify (events.Message_ audioFromAlice) ≠ Text ∧
   classify (events.Message_ audioFromAlice) ≠ ExtendedText ∧
   files (exec (@Earlier.handleReceivedMessage demoPlatform (quietEnv "bytes")
                  audioFromAlice) emptyWorld) = ∅).
Proof.
  destruct (@earlier_handler_text_only demoPlatform (quietEnv "") hiFromAlice
              emptyWorld) as (_ & _ & _ & _ & Hrow).
  destruct (@earlier_handler_text_only demoPlatform (quietEnv "bytes") audioFromAlice
              emptyWorld) as (_ & _ & _ & Hskip & _).
  assert (H1 : classify (events.Message_ audioFromAlice) ≠ Text) by discriminate.
  assert (H2 : classify (events.Message_ audioFromAlice) ≠ ExtendedText) by discriminate.
  split_and!; [reflexivity|apply quietEnv_logWorks
              |exact (Hrow (or_introl eq_refl) (quietEnv_logWorks ""))
              |exact H1|exact H2|exact (f_equal files (Hskip H1 H2))].
Defined.



(** X19 at the same run, with the clock that advances at every reading. *)
Lemma row_ids_distinct_witness :
  (∀ i j, time.UnixNano (@clock demoPlatform i) = time.UnixNano (@clock demoPlatform j) →
          i = j) ∧
  logContents emptyWorld = "" ∧
  NoDup (idsOf [mainHeader;
                ["0"; "77001112233@s.whatsapp.net"; "Conversation"; "hi"; sampleTime];
                ["2"; "me"; "SentMessage"; "hello"; sampleTime]]).
Proof.
  assert (Hclock : ∀ i j, time.UnixNano (@clock demoPlatform i) =
                          time.UnixNano (@clock demoPlatform j) → i = j).
  { intros i j Heq. cbn in Heq. lia. }
  split_and!; [exact Hclock|reflexivity|].
  apply (@row_ids_distinct demoPlatform busyHour (quietEnv "") emptyWorld _
           Hclock eq_refl).
  vm_compute. reflexivity.
Defined.
